(** * Star trail generator (testing/starTrails_mask.py)

    A shallow embedding of [StarTrailGenerator.processImage] and
    [StarTrailGenerator.finalize], together with the OpenCV and numpy
    primitives they call, and the properties of the accumulator that the
    specification states; then of the rest of the module
    ([getFolderFilesByExt], [main]), of the image processor of
    timelapse.py and of the database layer indi_allsky/db/main.py, with
    properties read off their code.

    Conventions of the embedding.
    - An image is a numpy [uint8] array of shape [(h, w)] or [(h, w, 3)]:
      its shape and its samples in row-major order, one list of channel
      samples per pixel.
    - Python floats ([m_avg], [pixels_cutoff], the background score) are
      IEEE 754 binary64 values: every product and quotient is rounded to
      nearest, ties to even, and comparisons are those of the doubles.
      Floats that the code only orders, truncates or stores (file times,
      exposures, temperatures) are their exact values, rationals.
    - The attributes of the Python object are threaded explicitly: a method
      returns the object after the call and either its return value or the
      exception it raised.  Attributes assigned before a [raise] stay
      assigned, as in Python.
    - Logging and the elapsed-time counter are left out; [filename] is used
      by the source for logging only. *)

From Stdlib Require Import String ZArith QArith List Bool Lia.
From Stdlib Require Import Sorted Permutation SpecFloat.
Import ListNotations.

Local Open Scope Z_scope.

(** ** Results of fallible calls *)

Inductive exn : Type :=
| cv2_error                      (* cv2.error, raised inside OpenCV *)
| InsufficentData (msg : string) (* the module's own exception class *)
| TypeError
| AttributeError.

Inductive result (A : Type) : Type :=
| Ok (a : A)
| Raise (e : exn).

Arguments Ok {A} a.
Arguments Raise {A} e.

Definition bind {A B : Type} (r : result A) (k : A -> result B) : result B :=
  match r with
  | Ok a => k a
  | Raise e => Raise e
  end.

Notation "x <- r ;; k" := (bind r (fun x => k))
  (at level 61, r at next level, right associativity).

Definition is_ok {A : Type} (r : result A) : bool :=
  match r with Ok _ => true | Raise _ => false end.

(** ** Arrays *)

Definition pixel : Type := list Z.

Record image : Type := mkImage {
  height : nat;
  width : nat;
  ndim3 : bool;          (* [len(image.shape) == 3], with three channels *)
  pixels : list pixel
}.

Definition channels (a : image) : nat := if ndim3 a then 3%nat else 1%nat.

Definition same_size (a b : image) : bool :=
  Nat.eqb (height a) (height b) && Nat.eqb (width a) (width b).

Definition same_shape (a b : image) : bool :=
  same_size a b && Bool.eqb (ndim3 a) (ndim3 b).

Definition sample_ok (v : Z) : Prop := 0 <= v <= 255.

(** A well-formed [uint8] array, as [cv2.imread] returns it: not empty, as
    many pixels as its shape says, as many samples per pixel as it has
    channels, every sample a byte. *)
Definition wf_image (a : image) : Prop :=
  (0 < height a * width a)%nat /\
  length (pixels a) = (height a * width a)%nat /\
  Forall (fun p => length p = channels a /\ Forall sample_ok p) (pixels a).

Fixpoint map2 {A B C : Type} (f : A -> B -> C) (la : list A) (lb : list B)
  : list C :=
  match la, lb with
  | a :: la', b :: lb' => f a b :: map2 f la' lb'
  | _, _ => []
  end.

(** [numpy.zeros((h, w), dtype=uint8)] and [numpy.zeros((h, w, 3), ...)]. *)
Definition numpy_zeros (h w : nat) (three : bool) : image :=
  mkImage h w three
    (repeat (repeat 0 (if three then 3 else 1)%nat) (h * w)%nat).

(** The first channel of a pixel; the only one of a single-channel array. *)
Definition sample0 (p : pixel) : Z := nth 0 p 0.

(** ** Python floats *)

(** A Python [float], like a [double] of OpenCV, is an IEEE 754 binary64
    value.  The operations are those of the Standard Library's
    specification of floating-point arithmetic at precision 53: each
    result is the exact one rounded to nearest, ties to even. *)
Definition float : Type := spec_float.

(** The conversion of an integer operand, [float(n)]: exact up to 2^53,
    rounded beyond.  (An [int] beyond the range of the doubles, which no
    array size is, makes Python raise [OverflowError]; here it gives
    infinity.) *)
Definition float_of_int (n : Z) : float := binary_normalize 53 1024 n 0 false.

Definition float_mul : float -> float -> float := SFmul 53 1024.
Definition float_div : float -> float -> float := SFdiv 53 1024.

(** [x < y] on two floats; false when either is a NaN. *)
Definition float_lt (x y : float) : bool := SFltb x y.

(** Python compares a [float] with an [int] exactly, without rounding the
    [int]: the float [m * 2^e] against [n]. *)
Definition float_compare_int (x : float) (n : Z) : option comparison :=
  match x with
  | S754_nan => None
  | S754_infinity s => Some (if s then Lt else Gt)
  | S754_zero _ => Some (0 ?= n)
  | S754_finite s m e =>
      let v := if s then Z.neg m else Z.pos m in
      Some (if 0 <=? e then v * 2 ^ e ?= n else v ?= n * 2 ^ (- e))
  end.

(** [x > n] for a float [x] and an [int] [n]. *)
Definition float_gt_int (x : float) (n : Z) : bool :=
  match float_compare_int x n with
  | Some Gt => true
  | _ => false
  end.

(** The literal [0.1]: the double nearest to one tenth,
    0x1999999999999A * 2^-56. *)
Definition float_0_1 : float := S754_finite false 7205759403792794 (-56).

(** ** OpenCV primitives *)

(** [cv2.mean(a)[0]]: OpenCV adds up the samples of the first channel
    exactly and multiplies the sum by the double [1.0 / n], [n] the number
    of pixels; the mean of an empty array is 0. *)
Definition sum_samples (l : list pixel) : Z :=
  fold_right (fun p acc => sample0 p + acc) 0 l.

Definition cv2_mean0 (a : image) : float :=
  match pixels a with
  | [] => S754_zero false
  | _ => float_mul (float_of_int (sum_samples (pixels a)))
           (float_div (float_of_int 1)
              (float_of_int (Z.of_nat (length (pixels a)))))
  end.

(** [(a > t).sum()] on a single-channel array. *)
Definition count_above (a : image) (t : Z) : nat :=
  length (filter (fun p => sample0 p >? t) (pixels a)).

(** [cv2.threshold(a, t, 255, cv2.THRESH_BINARY)[1]]. *)
Definition cv2_threshold (a : image) (t : Z) : image :=
  mkImage (height a) (width a) (ndim3 a)
    (map (map (fun v => if v >? t then 255 else 0)) (pixels a)).

(** [cv2.bitwise_not] on [uint8] samples. *)
Definition cv2_bitwise_not (a : image) : image :=
  mkImage (height a) (width a) (ndim3 a)
    (map (map (fun v => Z.lxor v 255)) (pixels a)).

(** [cv2.bitwise_and(src1, src2, mask=mask)]: the mask must be a
    single-channel array of the sources' size; the freshly allocated
    destination is zero where the mask is zero. *)
Definition and_masked (m : pixel) (p : pixel) : pixel :=
  if sample0 m =? 0 then map (fun _ => 0) p else p.

Definition cv2_bitwise_and (src1 src2 mask : image) : result image :=
  if same_shape src1 src2 && same_size mask src1 && negb (ndim3 mask)
  then Ok (mkImage (height src1) (width src1) (ndim3 src1)
             (map2 and_masked (pixels mask)
                (map2 (map2 Z.land) (pixels src1) (pixels src2))))
  else Raise cv2_error.

(** [cv2.add(a, b)] on two [uint8] arrays: saturating addition, defined for
    arrays of one size and channel count; OpenCV rejects any other pair of
    [uint8] arrays. *)
Definition saturate (v : Z) : Z := Z.min v 255.

Definition cv2_add (a b : image) : result image :=
  if same_shape a b
  then Ok (mkImage (height a) (width a) (ndim3 a)
             (map2 (map2 (fun x y => saturate (x + y))) (pixels a) (pixels b)))
  else Raise cv2_error.

(** ** The generator object *)

(** The two brightness limits and the mask threshold are [int]s, as
    [__init__] and the command line give them; the cut-off percentage is a
    float.  The background score starts as the [int] 255 and becomes a
    float; it is only ever compared with a float, which Python does
    exactly, so it is kept as the double 255.0 from the start. *)
Record StarTrailGenerator : Type := mkGen {
  max_brightness : Z;
  mask_threshold : Z;
  pixel_cutoff_threshold : float;
  trail_image : option image;
  trail_count : nat;
  pixels_cutoff : option float;
  excluded_images : nat;
  background_image : option image;
  background_image_brightness : float;
  background_image_min_brightness : Z
}.

(** [StarTrailGenerator.__init__]. *)
Definition init : StarTrailGenerator :=
  mkGen 50 190 float_0_1 None 0 None 0 None (float_of_int 255) 10.

Definition set_trail (s : StarTrailGenerator) (cutoff : option float)
  (t : option image) : StarTrailGenerator :=
  mkGen (max_brightness s) (mask_threshold s) (pixel_cutoff_threshold s)
    t (trail_count s) cutoff (excluded_images s)
    (background_image s) (background_image_brightness s)
    (background_image_min_brightness s).

Definition set_trail_image (s : StarTrailGenerator) (t : image)
  : StarTrailGenerator :=
  set_trail s (pixels_cutoff s) (Some t).

Definition incr_excluded (s : StarTrailGenerator) : StarTrailGenerator :=
  mkGen (max_brightness s) (mask_threshold s) (pixel_cutoff_threshold s)
    (trail_image s) (trail_count s) (pixels_cutoff s)
    (S (excluded_images s))
    (background_image s) (background_image_brightness s)
    (background_image_min_brightness s).

Definition incr_trail_count (s : StarTrailGenerator) : StarTrailGenerator :=
  mkGen (max_brightness s) (mask_threshold s) (pixel_cutoff_threshold s)
    (trail_image s) (S (trail_count s)) (pixels_cutoff s)
    (excluded_images s)
    (background_image s) (background_image_brightness s)
    (background_image_min_brightness s).

Definition set_background (s : StarTrailGenerator) (score : float) (b : image)
  : StarTrailGenerator :=
  mkGen (max_brightness s) (mask_threshold s) (pixel_cutoff_threshold s)
    (trail_image s) (trail_count s) (pixels_cutoff s)
    (excluded_images s)
    (Some b) score
    (background_image_min_brightness s).

(** The setters of the three configuration properties. *)
Definition set_max_brightness (s : StarTrailGenerator) (new_max : Z)
  : StarTrailGenerator :=
  mkGen new_max (mask_threshold s) (pixel_cutoff_threshold s)
    (trail_image s) (trail_count s) (pixels_cutoff s) (excluded_images s)
    (background_image s) (background_image_brightness s)
    (background_image_min_brightness s).

Definition set_mask_threshold (s : StarTrailGenerator) (new_thold : Z)
  : StarTrailGenerator :=
  mkGen (max_brightness s) new_thold (pixel_cutoff_threshold s)
    (trail_image s) (trail_count s) (pixels_cutoff s) (excluded_images s)
    (background_image s) (background_image_brightness s)
    (background_image_min_brightness s).

Definition set_pixel_cutoff_threshold (s : StarTrailGenerator)
  (new_thold : float)
  : StarTrailGenerator :=
  mkGen (max_brightness s) (mask_threshold s) new_thold
    (trail_image s) (trail_count s) (pixels_cutoff s) (excluded_images s)
    (background_image s) (background_image_brightness s)
    (background_image_min_brightness s).

Section Generator.

(** [cv2.cvtColor(_, cv2.COLOR_BGR2GRAY)] reduces each pixel on its own; the
    weighting of the three channels is OpenCV's and is kept abstract. *)
Variable bgr2gray : Z -> Z -> Z -> Z.

Definition cv2_cvtColor_BGR2GRAY (a : image) : image :=
  mkImage (height a) (width a) false
    (map (fun p => [bgr2gray (nth 0 p 0) (nth 1 p 0) (nth 2 p 0)]) (pixels a)).

(** "need grayscale image for mask generation": a copy of a two-dimensional
    array, the BGR to gray conversion otherwise. *)
Definition grayscale (a : image) : image :=
  if ndim3 a then cv2_cvtColor_BGR2GRAY a else a.

(** The first block of [processImage]: on the first call the cut-off is
    derived from the frame and the trail image is allocated black. *)
Definition allocate (self : StarTrailGenerator) (image0 : image)
  : StarTrailGenerator :=
  match trail_image self with
  | None =>
      set_trail self
        (Some (float_mul
                 (float_of_int (Z.of_nat (height image0 * width image0)))
                 (float_div (pixel_cutoff_threshold self)
                    (float_of_int 100))))
        (Some (numpy_zeros (height image0) (width image0) (ndim3 image0)))
  | Some _ => self
  end.

(** The background-candidate block. *)
Definition update_background (self : StarTrailGenerator) (m_avg : float)
  (image0 : image) : StarTrailGenerator :=
  if float_lt m_avg (background_image_brightness self)
     && float_gt_int m_avg (background_image_min_brightness self)
  then set_background self m_avg image0
  else self.

(** The compositing block, written the same way in [processImage] and in
    [finalize]: "black-out the area of stars in the background", "take only
    stars of original image", "put stars on background". *)
Definition bg_masked (bg image_gray : image) (thresh : Z) : result image :=
  let mask := cv2_threshold image_gray thresh in
  let mask_inv := cv2_bitwise_not mask in
  cv2_bitwise_and bg bg mask_inv.

Definition stars_masked (fg image_gray : image) (thresh : Z) : result image :=
  let mask := cv2_threshold image_gray thresh in
  cv2_bitwise_and fg fg mask.

Definition put_on_background (bg fg image_gray : image) (thresh : Z)
  : result image :=
  b <- bg_masked bg image_gray thresh ;;
  s <- stars_masked fg image_gray thresh ;;
  cv2_add b s.

(** [StarTrailGenerator.processImage].  The count of bright pixels is a
    numpy integer, which numpy converts to a double to compare it with the
    cut-off. *)
Definition processImage (self : StarTrailGenerator) (image0 : image)
  : StarTrailGenerator * result unit :=
  let self := allocate self image0 in
  let image_gray := grayscale image0 in
  let m_avg := cv2_mean0 image_gray in
  if float_gt_int m_avg (max_brightness self)
  then (self, Ok tt)
  else
    let pixels_above_cutoff := count_above image_gray (mask_threshold self) in
    match pixels_cutoff self with
    | None => (self, Raise TypeError)
    | Some cutoff =>
        if float_lt cutoff (float_of_int (Z.of_nat pixels_above_cutoff))
        then (incr_excluded self, Ok tt)
        else
          let self := incr_trail_count self in
          let self := update_background self m_avg image0 in
          match trail_image self with
          | None => (self, Raise cv2_error)  (* not reached: set above *)
          | Some trail =>
              match put_on_background trail image0 image_gray
                      (mask_threshold self) with
              | Ok t => (set_trail_image self t, Ok tt)
              | Raise e => (self, Raise e)
              end
          end
    end.

(** [StarTrailGenerator.finalize] up to the call of [cv2.imwrite]: the
    value is the image handed to it.  The write itself is added by
    [finalize_outfile] below. *)
Definition finalize (self : StarTrailGenerator) : result image :=
  match background_image self with
  | None => Raise (InsufficentData "Background image not detected")
  | Some background =>
      if (trail_count self <? 20)%nat
      then Raise (InsufficentData "Not enough images found to build star trail")
      else
        match trail_image self with
        | None => Raise AttributeError
        | Some trail =>
            put_on_background background trail (grayscale trail) 10
        end
  end.

(** A sequence of [processImage] calls on one object, whatever each call
    returns or raises: the object after the last call. *)
Definition feed (self : StarTrailGenerator) (frames : list image)
  : StarTrailGenerator :=
  fold_left (fun s f => fst (processImage s f)) frames self.

End Generator.

(** ** Vocabulary of the statements *)

(** OpenCV's 8-bit fixed-point form of Y = 0.299 R + 0.587 G + 0.114 B;
    it instantiates the abstract conversion on concrete frames. *)
Definition opencv_bgr2gray (b g r : Z) : Z :=
  Z.shiftr (b * 3735 + g * 19235 + r * 9798 + 16384) 15.

Section Vocabulary.

Variable bgr2gray : Z -> Z -> Z -> Z.

(** The frame is excluded for its brightness. *)
Definition overbright (self : StarTrailGenerator) (f : image) : bool :=
  float_gt_int (cv2_mean0 (grayscale bgr2gray f)) (max_brightness self).

(** The cut-off the call compares against: the stored one, or on the first
    call the one derived from the frame. *)
Definition cutoff_for (self : StarTrailGenerator) (f : image)
  : option float :=
  pixels_cutoff (allocate self f).

(** The frame is excluded for its count of bright pixels. *)
Definition saturated (self : StarTrailGenerator) (f : image) : bool :=
  match cutoff_for self f with
  | Some cutoff =>
      float_lt cutoff
        (float_of_int (Z.of_nat (count_above (grayscale bgr2gray f)
                                   (mask_threshold self))))
  | None => false
  end.

(** The frame passes both filters: neither comparison excludes it. *)
Definition accepted (self : StarTrailGenerator) (f : image) : bool :=
  negb (overbright self f) &&
  match cutoff_for self f with
  | Some cutoff =>
      negb (float_lt cutoff
              (float_of_int (Z.of_nat (count_above (grayscale bgr2gray f)
                                         (mask_threshold self)))))
  | None => false
  end.

(** The call makes the frame the background candidate: it passes both
    filters and its mean brightness lies strictly between the minimum and
    the current score. *)
Definition replaces_background (self : StarTrailGenerator) (f : image)
  : bool :=
  accepted self f &&
  float_gt_int (cv2_mean0 (grayscale bgr2gray f))
    (background_image_min_brightness self) &&
  float_lt (cv2_mean0 (grayscale bgr2gray f))
    (background_image_brightness self).

(** The frame agrees with the established shape (any frame does before the
    first call). *)
Definition matches (self : StarTrailGenerator) (f : image) : Prop :=
  match trail_image self with
  | None => True
  | Some t => same_shape t f = true
  end.

(** Pixel [i] of the frame is a star pixel for threshold [t]. *)
Definition star (t : Z) (f : image) (i : nat) : bool :=
  sample0 (nth i (pixels (grayscale bgr2gray f)) []) >? t.

End Vocabulary.

(** The score after some calls is the score before, or below it. *)
Definition lowered (new old : float) : Prop :=
  new = old \/ float_lt new old = true.

(** The cut-off is set whenever the trail image is: the first block of
    [processImage] assigns both, and nothing else assigns either. *)
Definition cutoff_derived (self : StarTrailGenerator) : Prop :=
  trail_image self <> None -> pixels_cutoff self <> None.

(** The images the object holds are byte arrays, as the frames are. *)
Definition byte_arrays (self : StarTrailGenerator) : Prop :=
  (forall t, trail_image self = Some t -> wf_image t) /\
  (forall b, background_image self = Some b -> wf_image b).

(** The attributes as [processImage] keeps them when no call has raised:
    nothing is set before the first call; afterwards the trail image is a
    byte array, the cut-off is set, and a background image has the trail
    image's shape. *)
Definition consistent (self : StarTrailGenerator) : Prop :=
  match trail_image self with
  | None => pixels_cutoff self = None /\ background_image self = None
  | Some t =>
      wf_image t /\
      pixels_cutoff self <> None /\
      match background_image self with
      | None => True
      | Some b => wf_image b /\ same_shape b t = true
      end
  end.

(** The compositing rule in the specification's words: a binary mask [M]
    of the grayscale samples strictly above the threshold, its complement,
    an image masked by a mask, and saturating per-channel addition. *)
Definition spec_mask (t : Z) (gray : list pixel) : list bool :=
  map (fun g => sample0 g >? t) gray.

Definition spec_complement (M : list bool) : list bool := map negb M.

Definition spec_masked (M : list bool) (px : list pixel) : list pixel :=
  map2 (fun (m : bool) p => if m then p else map (fun _ => 0) p) M px.

Definition spec_saturating_add (a b : list pixel) : list pixel :=
  map2 (map2 (fun x y => if x + y <=? 255 then x + y else 255)) a b.

Definition spec_composite (t : Z) (gray kept taken : list pixel)
  : list pixel :=
  spec_saturating_add
    (spec_masked (spec_complement (spec_mask t gray)) kept)
    (spec_masked (spec_mask t gray) taken).

(** Pixelwise selection: the sample of [taken] where the grayscale sample
    is above the threshold, the sample of [kept] elsewhere. *)
Fixpoint select (t : Z) (gray kept taken : list pixel) : list pixel :=
  match gray, kept, taken with
  | g :: gray', k :: kept', x :: taken' =>
      (if sample0 g >? t then x else k) :: select t gray' kept' taken'
  | _, _, _ => []
  end.

Definition all_zero (p : pixel) : Prop := Forall (fun v => v = 0) p.

Definition nonzero_pixels (a : image) : nat :=
  length (filter (fun p => negb (forallb (Z.eqb 0) p)) (pixels a)).

(** Decision procedures for the two well-formedness predicates. *)
Definition wf_imageb (a : image) : bool :=
  Nat.ltb 0 (height a * width a) &&
  Nat.eqb (length (pixels a)) (height a * width a) &&
  forallb (fun p => Nat.eqb (length p) (channels a) &&
                    forallb (fun v => (0 <=? v) && (v <=? 255)) p)
    (pixels a).

Definition consistentb (self : StarTrailGenerator) : bool :=
  match trail_image self with
  | None =>
      match pixels_cutoff self, background_image self with
      | None, None => true
      | _, _ => false
      end
  | Some t =>
      wf_imageb t &&
      match pixels_cutoff self with Some _ => true | None => false end &&
      match background_image self with
      | None => true
      | Some b => wf_imageb b && same_shape b t
      end
  end.

(** ** The synthetic scenario: black frames with one bright pixel *)

(** [n] single-channel pixels, 255 at index [loc] and 0 elsewhere. *)
Definition one_hot_pixels (n loc : nat) : list pixel :=
  map (fun i => [if Nat.eqb i loc then 255 else 0]) (seq 0 n).

(** A 100 x 100 single-channel frame, black except for the pixel of
    row-major index [loc]. *)
Definition star_frame (loc : nat) : image :=
  mkImage 100 100 false (one_hot_pixels (100 * 100) loc).

(** [n] single-channel pixels, 255 at the indices of [locs]. *)
Definition marks (n : nat) (locs : list nat) : list pixel :=
  map (fun i => [if existsb (Nat.eqb i) locs then 255 else 0]) (seq 0 n).

(** The object between two calls of the scenario: [k] frames accepted,
    bright pixels at [locs], no background candidate. *)
Definition scenario_state (k : nat) (locs : list nat) : StarTrailGenerator :=
  mkGen 50 190 float_0_1
    (Some (mkImage 100 100 false (marks (100 * 100) locs)))
    k
    (Some (float_mul (float_of_int (Z.of_nat (100 * 100)))
             (float_div float_0_1 (float_of_int 100))))
    0 None (float_of_int 255) 10.

(** Twenty-five distinct locations, on the diagonal. *)
Definition diagonal : list nat := map (fun i => (i * 101)%nat) (seq 0 25).

(** The same scenario on a uniform background of brightness 20. *)
Definition star_frame_on (level : Z) (loc : nat) : image :=
  mkImage 100 100 false
    (map (fun i => [if Nat.eqb i loc then 255 else level]) (seq 0 (100 * 100))).

(** ** Small frames and states for concrete instances *)

(** Defaults with a mask threshold of 15 and a cut-off of 50 percent. *)
Definition tuned : StarTrailGenerator :=
  set_pixel_cutoff_threshold (set_mask_threshold init 15) (float_of_int 50).

Definition frame_a : image := mkImage 2 2 false [[30]; [12]; [12]; [12]].
Definition frame_b : image := mkImage 2 2 false [[12]; [40]; [12]; [12]].
Definition frame_c : image := mkImage 2 2 false [[50]; [12]; [12]; [12]].
Definition frame_bright : image := mkImage 2 2 false [[60]; [60]; [60]; [60]].
Definition frame_busy : image := mkImage 2 2 false [[30]; [40]; [50]; [12]].
Definition frame_flare : image := mkImage 2 2 false [[200]; [0]; [0]; [0]].
Definition frame_wide_bright : image := mkImage 1 2 false [[60]; [60]].
Definition frame_wide : image := mkImage 1 2 false [[12]; [12]].
Definition frame_bgr : image :=
  mkImage 2 2 true [[10; 20; 30]; [60; 70; 80]; [12; 12; 12]; [0; 0; 0]].

(** The object after one accepted frame, and after twenty. *)
Definition after_one : StarTrailGenerator :=
  Eval vm_compute in feed opencv_bgr2gray tuned [frame_a].

Definition after_nineteen : StarTrailGenerator :=
  Eval vm_compute in feed opencv_bgr2gray tuned (repeat frame_a 19).

Definition after_twenty : StarTrailGenerator :=
  Eval vm_compute in feed opencv_bgr2gray after_nineteen [frame_b].

(** ** The driver of the star trail module: [getFolderFilesByExt], [main] *)

(** A file as the driver sees it: its path and [Path.suffix], what
    [stat()] reports, and what [cv2.imread(_, cv2.IMREAD_UNCHANGED)]
    returns for it ([None] when it cannot be decoded; the decoded arrays
    are those of the image model above).  The file system does not change
    during a run. *)
Record file : Type := mkFile {
  f_path : string;
  f_suffix : string;
  st_size : Z;
  st_mtime : Q;
  imread : option image
}.

(** What [Path.iterdir()] yields: files, directories with their own
    entries in the order [iterdir] gives them, and entries that are
    neither. *)
#[warnings="-register-all"]
Inductive entry : Type :=
| File (f : file)
| Dir (name : string) (children : list entry)
| Other (name : string).

Definition dot_extension_list (extension_list : list string) : list string :=
  map (fun e => String.append "." e) extension_list.

(** One turn of the loop of [getFolderFilesByExt]; the recursive call on a
    directory passes the extension list on. *)
Fixpoint visit (extension_list : list string) (item : entry)
  (file_list : list file) : list file :=
  match item with
  | File f =>
      if existsb (String.eqb (f_suffix f)) (dot_extension_list extension_list)
      then file_list ++ [f]
      else file_list
  | Dir _ children =>
      fold_left (fun acc c => visit extension_list c acc) children file_list
  | Other _ => file_list
  end.

(** [getFolderFilesByExt(folder, file_list, extension_list)]: the list
    after the call ([file_list] is appended to in place). *)
Definition getFolderFilesByExt (folder : list entry) (file_list : list file)
  (extension_list : option (list string)) : list file :=
  let extension_list :=
    match extension_list with
    | None | Some [] => ["jpg"%string]
    | Some l => l
    end in
  fold_left (fun acc c => visit extension_list c acc) folder file_list.

(** Every file below a folder, in the order of the walk. *)
Fixpoint files_of (item : entry) : list file :=
  match item with
  | File f => [f]
  | Dir _ children => flat_map files_of children
  | Other _ => []
  end.

Definition files_under (folder : list entry) : list file :=
  flat_map files_of folder.

Definition has_extension (extension_list : list string) (f : file) : bool :=
  existsb (String.eqb (f_suffix f)) (dot_extension_list extension_list).

(** [sorted(_, key=lambda p: p.stat().st_mtime)]: ascending and stable. *)
Fixpoint insert_by_mtime (p : file) (l : list file) : list file :=
  match l with
  | [] => [p]
  | q :: l' =>
      if Qle_bool (st_mtime p) (st_mtime q) then p :: l
      else q :: insert_by_mtime p l'
  end.

Definition sorted_by_mtime (l : list file) : list file :=
  fold_right insert_by_mtime [] l.

(** The files [main] reads, in the order it reads them. *)
Definition file_list_ordered (inputdir : list entry) : list file :=
  let file_list := getFolderFilesByExt inputdir [] None in
  let file_list_nonzero :=
    filter (fun p => negb (st_size p =? 0)) file_list in
  sorted_by_mtime file_list_nonzero.

Section Driver.

Variable bgr2gray : Z -> Z -> Z -> Z.

(** Whether OpenCV has an encoder for the extension of a file name. *)
Variable has_encoder : string -> bool.

(** The loop of [main]: a file that cannot be read is skipped; an
    exception of [processImage] ends the loop and [main]. *)
Fixpoint read_and_process (self : StarTrailGenerator) (files : list file)
  : StarTrailGenerator * result unit :=
  match files with
  | [] => (self, Ok tt)
  | filename :: rest =>
      match imread filename with
      | None => read_and_process self rest
      | Some image0 =>
          match processImage bgr2gray self image0 with
          | (self', Ok _) => read_and_process self' rest
          | (self', Raise e) => (self', Raise e)
          end
      end
  end.

(** The files the loop of [main] has handed to [cv2.imread] when it
    ends, in the order it read them. *)
Fixpoint files_read (self : StarTrailGenerator) (files : list file)
  : list file :=
  match files with
  | [] => []
  | filename :: rest =>
      filename ::
      match imread filename with
      | None => files_read self rest
      | Some image0 =>
          match processImage bgr2gray self image0 with
          | (self', Ok _) => files_read self' rest
          | (_, Raise _) => []
          end
      end
  end.

(** [cv2.imwrite(str(outfile), final_image, [cv2.IMWRITE_JPEG_QUALITY, 90])]
    on a byte array: OpenCV raises when it has no encoder for the
    extension of the file name; whether the file could be written is the
    return value, which [finalize] ignores. *)
Definition cv2_imwrite (filename : string) (img : image) : result unit :=
  if has_encoder filename then Ok tt else Raise cv2_error.

(** The whole of [finalize(outfile)]: the composite of [finalize] above
    is handed to [cv2.imwrite]. *)
Definition finalize_outfile (self : StarTrailGenerator) (outfile : string)
  : result image :=
  final_image <- finalize bgr2gray self ;;
  _ <- cv2_imwrite outfile final_image ;;
  Ok final_image.

(** [StarTrailGenerator.main]: the image handed to the encoder for
    [outfile], if any.  [InsufficentData] is caught and logged; any other
    exception leaves [main]. *)
Definition main (self : StarTrailGenerator) (outfile : string)
  (inputdir : list entry) : StarTrailGenerator * result (option image) :=
  match read_and_process self (file_list_ordered inputdir) with
  | (self', Raise e) => (self', Raise e)
  | (self', Ok _) =>
      match finalize_outfile self' outfile with
      | Ok final_image => (self', Ok (Some final_image))
      | Raise (InsufficentData _) => (self', Ok None)
      | Raise e => (self', Raise e)
      end
  end.

End Driver.

(** The images of the files that can be read. *)
Definition readable (files : list file) : list image :=
  flat_map (fun p => match imread p with Some a => [a] | None => [] end) files.

(** ** timelapse.py: [ImageProcessorThread] *)

(** Exceptions of the code outside the star trail module. *)
Inductive py_error : Type :=
| ValueError
| ZeroDivisionError
| NoneAttributeError          (* AttributeError: attribute of None *)
| MultipleResultsFound.

Inductive outcome (A : Type) : Type :=
| Returns (a : A)
| Raises (e : py_error).

Arguments Returns {A} a.
Arguments Raises {A} e.

(** [numpy.frombuffer(data_bytes, dtype=numpy.uint8)]. *)
Definition numpy_frombuffer (data_bytes : list Byte.byte) : list Z :=
  map (fun b => Z.of_N (Byte.to_N b)) data_bytes.

(** [a[0::2]]; [a[1::2]] is [slice_step2 (tl a)]. *)
Fixpoint slice_step2 (a : list Z) : list Z :=
  match a with
  | [] => []
  | x :: rest =>
      x :: match rest with
           | [] => []
           | _ :: rest' => slice_step2 rest'
           end
  end.

(** An elementwise operator on two one-dimensional arrays, with numpy's
    broadcasting: equal lengths, or one operand of length one. *)
Definition numpy_elementwise (op : Z -> Z -> Z) (a b : list Z)
  : outcome (list Z) :=
  if Nat.eqb (length a) (length b) then Returns (map2 op a b)
  else if Nat.eqb (length a) 1 then Returns (map (op (hd 0 a)) b)
  else if Nat.eqb (length b) 1 then Returns (map (fun x => op x (hd 0 b)) a)
  else Raises ValueError.

(** [a.reshape((rows, cols))] of a one-dimensional [uint8] array. *)
Definition numpy_reshape (a : list Z) (rows cols : nat) : outcome image :=
  if Z.of_nat (length a) =? Z.of_nat rows * Z.of_nat cols
  then Returns (mkImage rows cols false (map (fun v => [v]) a))
  else Raises ValueError.

(** "Convert bayer16 to bayer8": the lines the two converters share.
    Shifts of a [uint8] array stay [uint8]. *)
Definition bayer8_image (data_bytes : list Byte.byte) : outcome image :=
  let data := numpy_frombuffer data_bytes in
  let even := slice_step2 data in
  let odd := slice_step2 (tl data) in
  match numpy_elementwise Z.lor
          (map (fun v => Z.shiftr v 4) even)
          (map (fun v => Z.shiftl v 4 mod 256) odd) with
  | Returns flat => numpy_reshape flat 1080 1920
  | Raises e => Raises e
  end.

Inductive bayer_code : Type := COLOR_BayerGR2RGB | COLOR_BayerGR2BGR.

Section ImageProcessor.

(** OpenCV's demosaicing and the sample arithmetic of [cv2.addWeighted]
    (scaling by [alpha], rounding, saturation) are kept abstract. *)
Variable cv2_cvtColor_Bayer : bayer_code -> image -> image.
Variable addWeighted_sample : Q -> Z -> Z.

(** The mean of the first channel as a number, before any rounding. *)
Definition exact_mean0 (a : image) : Q :=
  match pixels a with
  | [] => 0%Q
  | _ => (inject_Z (sum_samples (pixels a))
          / inject_Z (Z.of_nat (length (pixels a))))%Q
  end.

Definition _convert_GRGB_to_RGB_8bit (data_bytes : list Byte.byte)
  : outcome image :=
  match bayer8_image data_bytes with
  | Returns a => Returns (cv2_cvtColor_Bayer COLOR_BayerGR2RGB a)
  | Raises e => Raises e
  end.

Definition _convert_GRBG_to_RGB_8bit (data_bytes : list Byte.byte)
  : outcome image :=
  match bayer8_image data_bytes with
  | Returns a => Returns (cv2_cvtColor_Bayer COLOR_BayerGR2BGR a)
  | Raises e => Raises e
  end.

(** Channel [c] of an array as a single-channel array. *)
Definition channel (c : nat) (a : image) : image :=
  mkImage (height a) (width a) false (map (fun p => [nth c p 0]) (pixels a)).

(** [cv2.split]. *)
Definition cv2_split (a : image) : list image :=
  if ndim3 a then [channel 0 a; channel 1 a; channel 2 a] else [a].

(** [cv2.merge] of three single-channel arrays. *)
Definition cv2_merge (x y z : image) : image :=
  mkImage (height x) (width x) true
    (map2 (fun p rest => sample0 p :: rest) (pixels x)
       (map2 (fun q r => [sample0 q; sample0 r]) (pixels y) (pixels z))).

(** [cv2.addWeighted(src1=a, alpha=alpha, src2=0, beta=0, gamma=0)]. *)
Definition cv2_addWeighted (a : image) (alpha : Q) : image :=
  mkImage (height a) (width a) (ndim3 a)
    (map (map (addWeighted_sample alpha)) (pixels a)).

(** [ImageProcessorThread.white_balance2]; a float division by zero
    raises [ZeroDivisionError].  The method only tests the three means
    against zero and hands the gains to [cv2.addWeighted]; the double
    [sum * (1.0 / n)] of a byte array that fits in memory is zero exactly
    when the sum is, so the means and the gains are the exact ones here. *)
Definition white_balance2 (data_bytes : image) : outcome image :=
  match cv2_split data_bytes with
  | [r; g; b] =>
      let r_avg := exact_mean0 r in
      let g_avg := exact_mean0 g in
      let b_avg := exact_mean0 b in
      let k := ((r_avg + g_avg + b_avg) / inject_Z 3)%Q in
      if Qeq_bool r_avg 0 then Raises ZeroDivisionError else
      let kr := (k / r_avg)%Q in
      if Qeq_bool g_avg 0 then Raises ZeroDivisionError else
      let kg := (k / g_avg)%Q in
      if Qeq_bool b_avg 0 then Raises ZeroDivisionError else
      let kb := (k / b_avg)%Q in
      let r := cv2_addWeighted r kr in
      let g := cv2_addWeighted g kg in
      let b := cv2_addWeighted b kb in
      Returns (cv2_merge b g r)
  | _ => Raises ValueError
  end.

End ImageProcessor.

(** The mean of channel [c]. *)
Definition channel_mean (c : nat) (a : image) : Q :=
  exact_mean0 (mkImage (height a) (width a) false
                 (map (fun p => [nth c p 0]) (pixels a))).

(** ** indi_allsky/db/main.py: [IndiAllSkyDb] *)

(** A naive [datetime] is its number of microseconds since midnight of
    day 0, a [date] its day number; [timedelta] arithmetic is plain. *)
Definition microseconds_per_day : Z := 86400000000.
Definition timedelta_hours (h : Z) : Z := h * 3600000000.
Definition date_of (t : Z) : Z := t / microseconds_per_day.

(** A [filename] argument: [None], a string, or a [pathlib] object (given
    by its string form). *)
Inductive py_filename : Type :=
| FilenameNone
| FilenameStr (s : string)
| FilenamePath (s : string).

(** [not filename]. *)
Definition filename_not (filename : py_filename) : bool :=
  match filename with
  | FilenameNone => true
  | FilenameStr s => String.eqb s ""
  | FilenamePath _ => false
  end.

(** [str(filename)]. *)
Definition filename_str (filename : py_filename) : string :=
  match filename with
  | FilenameNone => "None"
  | FilenameStr s => s
  | FilenamePath s => s
  end.

(** The rows, with the columns the code sets; [None] is SQL NULL. *)
Record camera_row : Type := mkCamera {
  cam_id : Z;
  cam_name : string;
  cam_connectDate : Z
}.

Record image_row : Type := mkImageRow {
  img_camera_id : Z;
  img_filename : string;
  img_dayDate : Z;
  img_exposure : Q;
  img_gain : Z;
  img_binmode : Z;
  img_temp : option Q;
  img_calibrated : bool;
  img_night : bool;
  img_adu : Q;
  img_adu_roi : bool;
  img_stable : bool;
  img_moonmode : bool;
  img_moonphase : option Q;
  img_sqm : option Q;
  img_stars : option Z
}.

Record dark_row : Type := mkDark {
  dark_camera_id : Z;
  dark_filename : string;
  dark_bitdepth : Z;
  dark_exposure : Z;
  dark_gain : Z;
  dark_binmode : Z;
  dark_temp : option Q
}.

(** Videos, keograms and star trails have the same four columns. *)
Record media_row : Type := mkMedia {
  media_camera_id : Z;
  media_filename : string;
  media_dayDate : Z;
  media_night : bool
}.

(** The tables behind the session, in insertion order.  [session.add]
    followed by [session.commit] appends the row; the constraints of the
    schema (models.py) are not part of these sources. *)
Record session : Type := mkSession {
  cameras : list camera_row;
  images : list image_row;
  darkframes : list dark_row;
  videos : list media_row;
  keograms : list media_row;
  startrails : list media_row
}.

(** The arguments of [addImage] after [filename] and [camera_id]. *)
Record image_args : Type := mkImageArgs {
  arg_exposure : Q;
  arg_gain : Z;
  arg_binmode : Z;
  arg_temp : option Q;
  arg_adu : Q;
  arg_stable : bool;
  arg_moonmode : Q;
  arg_night : Z;            (* "integer to boolean" *)
  arg_sqm : option Q;
  arg_adu_roi : bool;
  arg_calibrated : bool;
  arg_stars : option Z
}.

(** "If temp is 0, write null": [float(temp) if temp else None]. *)
Definition temp_val (temp : option Q) : option Q :=
  match temp with
  | Some q => if Qeq_bool q 0 then None else Some q
  | None => None
  end.

(** "day date for night is offset by 12 hours". *)
Definition dayDate (night : bool) (now : Z) : Z :=
  if night then date_of (now - timedelta_hours 12) else date_of now.

(** [int(x)] of a float: truncation toward zero. *)
Definition py_int (x : Q) : Z := Z.quot (Qnum x) (Z.pos (Qden x)).

(** [order_by(connectDate.desc()).first()]: a row of greatest
    [connectDate] (the first such row of the table), [None] on an empty
    table. *)
Fixpoint first_by_connectDate_desc (l : list camera_row)
  : option camera_row :=
  match l with
  | [] => None
  | c :: l' =>
      match first_by_connectDate_desc l' with
      | None => Some c
      | Some d =>
          if cam_connectDate d <=? cam_connectDate c then Some c else Some d
      end
  end.

Section IndiAllSkyDb.

(** [Path(filename).exists()], and the primary key the database gives a
    new camera row on commit. *)
Variable path_exists : string -> bool.
Variable new_camera_id : list camera_row -> Z.

(** [addCamera(camera_name)] at time [now]; the query compares names
    exactly, and [one()] raises [NoResultFound] (caught) on no row and
    [MultipleResultsFound] (not caught) on several. *)
Definition addCamera (db : session) (camera_name : string) (now : Z)
  : session * outcome camera_row :=
  match filter (fun c => String.eqb (cam_name c) camera_name) (cameras db) with
  | [c] =>
      let camera := mkCamera (cam_id c) (cam_name c) now in
      (mkSession
         (map (fun r => if String.eqb (cam_name r) camera_name
                        then mkCamera (cam_id r) (cam_name r) now else r)
            (cameras db))
         (images db) (darkframes db) (videos db) (keograms db)
         (startrails db),
       Returns camera)
  | [] =>
      let camera := mkCamera (new_camera_id (cameras db)) camera_name now in
      (mkSession (cameras db ++ [camera])
         (images db) (darkframes db) (videos db) (keograms db)
         (startrails db),
       Returns camera)
  | _ => (db, Raises MultipleResultsFound)
  end.

(** [addImage(filename, camera_id, ...)] at time [now]. *)
Definition addImage (db : session) (filename : py_filename) (camera_id : Z)
  (args : image_args) (now : Z) : session * option image_row :=
  if filename_not filename then (db, None)
  else if negb (path_exists (filename_str filename)) then (db, None)
  else
    let filename_str := filename_str filename in
    let temp_val := temp_val (arg_temp args) in
    let moonphase :=
      if Qeq_bool (arg_moonmode args) 0 then None
      else Some (arg_moonmode args) in
    let moonmode_val := negb (Qeq_bool (arg_moonmode args) 0) in
    let night_val := negb (arg_night args =? 0) in
    let adu_roi_val := arg_adu_roi args in
    let dayDate := dayDate (negb (arg_night args =? 0)) now in
    let image0 :=
      mkImageRow camera_id filename_str dayDate (arg_exposure args)
        (arg_gain args) (arg_binmode args) temp_val (arg_calibrated args)
        night_val (arg_adu args) adu_roi_val (arg_stable args) moonmode_val
        moonphase (arg_sqm args) (arg_stars args) in
    (mkSession (cameras db) (images db ++ [image0]) (darkframes db)
       (videos db) (keograms db) (startrails db),
     Some image0).

(** [addDarkFrame(filename, camera_id, bitdepth, exposure, gain, binmode,
    temp)]. *)
Definition addDarkFrame (db : session) (filename : py_filename)
  (camera_id bitdepth : Z) (exposure : Q) (gain binmode : Z)
  (temp : option Q) : session * option dark_row :=
  if filename_not filename then (db, None)
  else if negb (path_exists (filename_str filename)) then (db, None)
  else
    let filename_str := filename_str filename in
    let exposure_int := py_int exposure in
    let temp_val := temp_val temp in
    let dark :=
      mkDark camera_id filename_str bitdepth exposure_int gain binmode
        temp_val in
    (mkSession (cameras db) (images db) (darkframes db ++ [dark])
       (videos db) (keograms db) (startrails db),
     Some dark).

(** The row [addVideo], [addKeogram] and [addStarTrail] build. *)
Definition media_entry (filename : py_filename) (camera_id : Z)
  (timeofday : string) (now : Z) : media_row :=
  let night := String.eqb timeofday "night" in
  mkMedia camera_id (filename_str filename) (dayDate night now) night.

Definition addVideo (db : session) (filename : py_filename) (camera_id : Z)
  (timeofday : string) (now : Z) : session * option media_row :=
  if filename_not filename then (db, None)
  else if negb (path_exists (filename_str filename)) then (db, None)
  else
    let video := media_entry filename camera_id timeofday now in
    (mkSession (cameras db) (images db) (darkframes db)
       (videos db ++ [video]) (keograms db) (startrails db),
     Some video).

Definition addKeogram (db : session) (filename : py_filename) (camera_id : Z)
  (timeofday : string) (now : Z) : session * option media_row :=
  if filename_not filename then (db, None)
  else if negb (path_exists (filename_str filename)) then (db, None)
  else
    let keogram := media_entry filename camera_id timeofday now in
    (mkSession (cameras db) (images db) (darkframes db)
       (videos db) (keograms db ++ [keogram]) (startrails db),
     Some keogram).

Definition addStarTrail (db : session) (filename : py_filename)
  (camera_id : Z) (timeofday : string) (now : Z)
  : session * option media_row :=
  if filename_not filename then (db, None)
  else if negb (path_exists (filename_str filename)) then (db, None)
  else
    let startrail := media_entry filename camera_id timeofday now in
    (mkSession (cameras db) (images db) (darkframes db)
       (videos db) (keograms db) (startrails db ++ [startrail]),
     Some startrail).

(** [getCurrentCameraId()], with [config.get('DB_CCD_ID')] given.  The
    query ends in [first()], which gives [None] on an empty table. *)
Definition getCurrentCameraId (db_ccd_id : option Z) (db : session)
  : outcome Z :=
  let latest :=
    match first_by_connectDate_desc (cameras db) with
    | Some camera => Returns (cam_id camera)
    | None => Raises NoneAttributeError
    end in
  match db_ccd_id with
  | Some id => if id =? 0 then latest else Returns id
  | None => latest
  end.

End IndiAllSkyDb.

(** ** Data for further concrete instances *)

(** Twenty accepted frames without a single star pixel, with the default
    thresholds. *)
Definition dark_twenty : StarTrailGenerator :=
  Eval vm_compute in feed opencv_bgr2gray init (repeat frame_a 20).

(** A directory with a sub-directory, an empty file, a text file, a file
    that cannot be decoded and an entry that is neither file nor
    directory. *)
Definition example_dir : list entry :=
  [ File (mkFile "in/a.jpg" ".jpg" 10 (inject_Z 5) (Some frame_a));
    Dir "in/sub"
      [ File (mkFile "in/sub/b.jpg" ".jpg" 10 (inject_Z 3) (Some frame_b));
        File (mkFile "in/sub/empty.jpg" ".jpg" 0 (inject_Z 1) (Some frame_c));
        File (mkFile "in/sub/notes.txt" ".txt" 4 (inject_Z 2) None) ];
    Other "in/socket";
    File (mkFile "in/c.jpg" ".jpg" 7 (inject_Z 4) None) ].

(** Twenty readable files holding the same dark frame, all accepted with
    the thresholds of [tuned]. *)
Definition twenty_dir : list entry :=
  map (fun i => File (mkFile "in/f.jpg" ".jpg" 10 (inject_Z (Z.of_nat i))
                        (Some frame_a)))
    (seq 0 20).

(** A full-size raw frame: every 16-bit sample is 0x0512. *)
Definition frame_bytes : list Byte.byte :=
  flat_map (fun _ => [Byte.x12; Byte.x05]) (seq 0 (Z.to_nat (1080 * 1920))).

(** An image whose green channel is black. *)
Definition frame_no_green : image :=
  mkImage 1 2 true [[10; 0; 30]; [20; 0; 40]].

Definition example_db : session :=
  mkSession [mkCamera 1 "cam0" 100; mkCamera 2 "cam1" 150] [] [] [] [] [].

Definition next_camera_id (l : list camera_row) : Z :=
  Z.of_nat (length l) + 1.

Definition example_args : image_args :=
  mkImageArgs (15 # 1) 100 1 (Some (inject_Z 0)) (inject_Z 12) true
    (inject_Z 0) 1 None false false None.

(** ** Lists and samples *)

Lemma map2_land_diag (p : pixel) : map2 Z.land p p = p.
Proof.
  induction p as [|v p IH]; simpl; [reflexivity|].
  now rewrite Z.land_diag, IH.
Qed.

Lemma map2_land_diag_all (l : list pixel) : map2 (map2 Z.land) l l = l.
Proof.
  induction l as [|p l IH]; simpl; [reflexivity|].
  now rewrite map2_land_diag, IH.
Qed.

Lemma saturate_spec (x y : Z) :
  saturate (x + y) = if x + y <=? 255 then x + y else 255.
Proof.
  unfold saturate. destruct (Z.leb_spec (x + y) 255); lia.
Qed.

Lemma map2_saturate_spec (p q : pixel) :
  map2 (fun x y => saturate (x + y)) p q
  = map2 (fun x y => if x + y <=? 255 then x + y else 255) p q.
Proof.
  revert q; induction p as [|x p IH]; intros [|y q]; simpl; auto.
  now rewrite saturate_spec, IH.
Qed.

(** ** The order of the floats *)

Lemma float_lt_irrefl (x : float) : float_lt x x = false.
Proof.
  unfold float_lt, SFltb, SFcompare.
  destruct x as [s|[|]| |[|] m e]; try reflexivity;
    now rewrite Z.compare_refl, Pos.compare_cont_refl.
Qed.

Lemma float_lt_trans (x y z : float) :
  float_lt x y = true -> float_lt y z = true -> float_lt x z = true.
Proof.
  unfold float_lt, SFltb, SFcompare.
  destruct x as [sx|[|]| |[|] mx ex], y as [sy|[|]| |[|] my ey],
    z as [sz|[|]| |[|] mz ez];
    try reflexivity; try discriminate;
    destruct (Z.compare_spec ex ey), (Z.compare_spec ey ez),
      (Z.compare_spec ex ez);
    try reflexivity; try discriminate; try lia; subst;
    fold (Pos.compare mx my); fold (Pos.compare my mz);
    fold (Pos.compare mx mz);
    destruct (Pos.compare_spec mx my), (Pos.compare_spec my mz),
      (Pos.compare_spec mx mz);
    cbn [CompOpp]; try reflexivity; try discriminate; lia.
Qed.

Lemma lowered_refl (x : float) : lowered x x.
Proof. now left. Qed.

Lemma lowered_trans (x y z : float) :
  lowered x y -> lowered y z -> lowered x z.
Proof.
  intros [-> | Hxy] [-> | Hyz]; [now left | now right | now right |].
  right. eapply float_lt_trans; eassumption.
Qed.

(** ** Shapes *)

Lemma same_size_refl (a : image) : same_size a a = true.
Proof. unfold same_size. now rewrite !Nat.eqb_refl. Qed.

Lemma same_shape_refl (a : image) : same_shape a a = true.
Proof.
  unfold same_shape. rewrite same_size_refl. now destruct (ndim3 a).
Qed.

Lemma same_shape_iff (a b : image) :
  same_shape a b = true <->
  height a = height b /\ width a = width b /\ ndim3 a = ndim3 b.
Proof.
  unfold same_shape, same_size.
  rewrite !andb_true_iff, !Nat.eqb_eq, Bool.eqb_true_iff. tauto.
Qed.

Lemma same_size_iff (a b : image) :
  same_size a b = true <-> height a = height b /\ width a = width b.
Proof.
  unfold same_size. rewrite andb_true_iff, !Nat.eqb_eq. tauto.
Qed.

Lemma same_shape_sym (a b : image) : same_shape a b = same_shape b a.
Proof.
  unfold same_shape, same_size.
  rewrite (Nat.eqb_sym (height a)), (Nat.eqb_sym (width a)).
  now destruct (ndim3 a), (ndim3 b).
Qed.

Lemma same_shape_trans (a b c : image) :
  same_shape a b = true -> same_shape b c = true -> same_shape a c = true.
Proof.
  rewrite !same_shape_iff. intuition congruence.
Qed.

Lemma wf_numpy_zeros (h w : nat) (three : bool) :
  (0 < h * w)%nat -> wf_image (numpy_zeros h w three).
Proof.
  intros Hpos. unfold wf_image, numpy_zeros, channels; simpl.
  split; [assumption|]. split.
  - apply repeat_length.
  - apply Forall_forall. intros p Hp. apply repeat_spec in Hp. subst p.
    split.
    + rewrite repeat_length. now destruct three.
    + apply Forall_forall. intros v Hv. apply repeat_spec in Hv.
      subst v. unfold sample_ok. lia.
Qed.

(** ** The compositing block *)

Lemma saturating_add_zero_l (k x : pixel) :
  length k = length x -> Forall sample_ok x ->
  map2 (fun a b => if a + b <=? 255 then a + b else 255)
    (map (fun _ => 0) k) x = x.
Proof.
  revert x; induction k as [|a k IH]; intros [|b x] Hlen Hx; simpl in *;
    try discriminate; auto.
  inversion Hx as [|? ? Hb Hx']; subst. unfold sample_ok in Hb.
  rewrite IH by (auto; lia).
  destruct (Z.leb_spec b 255); [reflexivity | lia].
Qed.

Lemma saturating_add_zero_r (k x : pixel) :
  length k = length x -> Forall sample_ok k ->
  map2 (fun a b => if a + b <=? 255 then a + b else 255)
    k (map (fun _ => 0) x) = k.
Proof.
  revert x; induction k as [|a k IH]; intros [|b x] Hlen Hk; simpl in *;
    try discriminate; auto.
  inversion Hk as [|? ? Ha Hk']; subst. unfold sample_ok in Ha.
  rewrite IH by (auto; lia). rewrite Z.add_0_r.
  destruct (Z.leb_spec a 255); [reflexivity | lia].
Qed.

(** The OpenCV pipeline on the sample lists is the specification's
    mask, complement and saturating addition. *)
Lemma pipeline_is_spec_composite (t : Z) :
  forall gray kept taken : list pixel,
    Forall (fun g => g <> []) gray ->
    map2 (map2 (fun x y => saturate (x + y)))
      (map2 and_masked
         (map (map (fun v => Z.lxor v 255))
            (map (map (fun v => if v >? t then 255 else 0)) gray))
         kept)
      (map2 and_masked
         (map (map (fun v => if v >? t then 255 else 0)) gray)
         taken)
    = spec_composite t gray kept taken.
Proof.
  unfold spec_composite, spec_saturating_add, spec_masked, spec_complement,
    spec_mask.
  induction gray as [|g gray IH]; intros kept taken Hne; [reflexivity|].
  inversion Hne as [|? ? Hg Hne']; subst.
  destruct kept as [|k kept]; [reflexivity|].
  destruct taken as [|x taken]; [reflexivity|].
  destruct g as [|v g]; [congruence|].
  cbn [map map2]. rewrite IH by assumption. f_equal.
  unfold and_masked, sample0. cbn [nth map].
  destruct (v >? t); cbn [negb Z.lxor Z.eqb]; apply map2_saturate_spec.
Qed.

(** With byte samples the two operands never overlap, so the composite is
    a selection. *)
Lemma spec_composite_is_select (t : Z) (c : nat) :
  forall gray kept taken : list pixel,
    Forall (fun p => length p = c /\ Forall sample_ok p) kept ->
    Forall (fun p => length p = c /\ Forall sample_ok p) taken ->
    spec_composite t gray kept taken = select t gray kept taken.
Proof.
  unfold spec_composite, spec_saturating_add, spec_masked, spec_complement,
    spec_mask.
  induction gray as [|g gray IH]; intros kept taken Hk Hx; [reflexivity|].
  destruct kept as [|k kept]; [reflexivity|].
  destruct taken as [|x taken]; [reflexivity|].
  apply Forall_cons_iff in Hk. destruct Hk as [[Hk1 Hk2] Hk'].
  apply Forall_cons_iff in Hx. destruct Hx as [[Hx1 Hx2] Hx'].
  cbn [map map2 select]. rewrite IH by assumption.
  destruct (sample0 g >? t); cbn [negb]; apply (f_equal2 cons); trivial.
  - apply saturating_add_zero_l; [congruence | assumption].
  - apply saturating_add_zero_r; [congruence | assumption].
Qed.

Lemma select_length (t : Z) :
  forall gray kept taken : list pixel,
    length kept = length gray -> length taken = length gray ->
    length (select t gray kept taken) = length gray.
Proof.
  induction gray as [|g gray IH]; intros [|k kept] [|x taken] Hk Hx;
    simpl in *; try discriminate; auto.
Qed.

Lemma nth_select (t : Z) :
  forall (gray kept taken : list pixel) (i : nat),
    length kept = length gray -> length taken = length gray ->
    (i < length gray)%nat ->
    nth i (select t gray kept taken) []
    = if sample0 (nth i gray []) >? t then nth i taken [] else nth i kept [].
Proof.
  induction gray as [|g gray IH]; intros [|k kept] [|x taken] i Hk Hx Hi;
    simpl in *; try discriminate; try lia.
  destruct i as [|i]; [reflexivity|].
  apply IH; lia.
Qed.

Lemma select_wf (t : Z) (c : nat) :
  forall gray kept taken : list pixel,
    Forall (fun p => length p = c /\ Forall sample_ok p) kept ->
    Forall (fun p => length p = c /\ Forall sample_ok p) taken ->
    Forall (fun p => length p = c /\ Forall sample_ok p)
      (select t gray kept taken).
Proof.
  induction gray as [|g gray IH]; intros [|k kept] [|x taken] Hk Hx;
    simpl; auto.
  apply Forall_cons_iff in Hk. destruct Hk as [Hk1 Hk'].
  apply Forall_cons_iff in Hx. destruct Hx as [Hx1 Hx'].
  constructor; [destruct (sample0 g >? t); assumption | auto].
Qed.

Lemma bg_masked_ok (bg gray : image) (t : Z) :
  same_size gray bg = true -> ndim3 gray = false ->
  bg_masked bg gray t
  = Ok (mkImage (height bg) (width bg) (ndim3 bg)
          (map2 and_masked
             (map (map (fun v => Z.lxor v 255))
                (map (map (fun v => if v >? t then 255 else 0)) (pixels gray)))
             (pixels bg))).
Proof.
  intros Hs Hg. unfold bg_masked, cv2_bitwise_and.
  rewrite same_shape_refl. unfold same_size in *. simpl.
  rewrite Hs, Hg. simpl. now rewrite map2_land_diag_all.
Qed.

Lemma stars_masked_ok (fg gray : image) (t : Z) :
  same_size gray fg = true -> ndim3 gray = false ->
  stars_masked fg gray t
  = Ok (mkImage (height fg) (width fg) (ndim3 fg)
          (map2 and_masked
             (map (map (fun v => if v >? t then 255 else 0)) (pixels gray))
             (pixels fg))).
Proof.
  intros Hs Hg. unfold stars_masked, cv2_bitwise_and.
  rewrite same_shape_refl. unfold same_size in *. simpl.
  rewrite Hs, Hg. simpl. now rewrite map2_land_diag_all.
Qed.

Lemma bg_masked_mismatch (bg gray : image) (t : Z) :
  same_size gray bg = false -> bg_masked bg gray t = Raise cv2_error.
Proof.
  intros Hs. unfold bg_masked, cv2_bitwise_and.
  rewrite same_shape_refl. unfold same_size in *. simpl.
  now rewrite Hs.
Qed.

Lemma put_on_background_ok (bg fg gray : image) (t : Z) :
  same_shape bg fg = true -> same_size gray fg = true ->
  ndim3 gray = false -> Forall (fun g => g <> []) (pixels gray) ->
  put_on_background bg fg gray t
  = Ok (mkImage (height bg) (width bg) (ndim3 bg)
          (spec_composite t (pixels gray) (pixels bg) (pixels fg))).
Proof.
  intros Hbf Hgf Hg Hne.
  assert (Hgb : same_size gray bg = true).
  { apply same_shape_iff in Hbf. apply same_size_iff in Hgf.
    apply same_size_iff. intuition congruence. }
  unfold put_on_background.
  rewrite (bg_masked_ok _ _ _ Hgb Hg), (stars_masked_ok _ _ _ Hgf Hg).
  cbn [bind]. unfold cv2_add, same_shape, same_size. cbn [height width ndim3 pixels].
  unfold same_shape, same_size in Hbf. rewrite Hbf.
  now rewrite pipeline_is_spec_composite.
Qed.

(** Same size, different channel count: the masks apply, the addition
    fails. *)
Lemma put_on_background_channels (bg fg gray : image) (t : Z) :
  same_size gray bg = true -> same_size gray fg = true ->
  ndim3 gray = false -> ndim3 bg <> ndim3 fg ->
  put_on_background bg fg gray t = Raise cv2_error.
Proof.
  intros Hgb Hgf Hg Hc. unfold put_on_background.
  rewrite (bg_masked_ok _ _ _ Hgb Hg), (stars_masked_ok _ _ _ Hgf Hg).
  cbn [bind]. unfold cv2_add, same_shape. cbn [ndim3].
  replace (Bool.eqb (ndim3 bg) (ndim3 fg)) with false.
  - now rewrite andb_false_r.
  - symmetry. apply Bool.eqb_false_iff. assumption.
Qed.

(** ** One call of [processImage] *)

Section Properties.

Variable bgr2gray : Z -> Z -> Z -> Z.

Lemma grayscale_height (f : image) :
  height (grayscale bgr2gray f) = height f.
Proof. unfold grayscale. now destruct (ndim3 f). Qed.

Lemma grayscale_width (f : image) :
  width (grayscale bgr2gray f) = width f.
Proof. unfold grayscale. now destruct (ndim3 f). Qed.

Lemma grayscale_ndim3 (f : image) : ndim3 (grayscale bgr2gray f) = false.
Proof. unfold grayscale. now destruct (ndim3 f) eqn:E. Qed.

Lemma grayscale_length (f : image) :
  length (pixels (grayscale bgr2gray f)) = length (pixels f).
Proof.
  unfold grayscale. destruct (ndim3 f); [|reflexivity].
  simpl. apply length_map.
Qed.

Lemma grayscale_same_size (f : image) :
  same_size (grayscale bgr2gray f) f = true.
Proof.
  apply same_size_iff. now rewrite grayscale_height, grayscale_width.
Qed.

Lemma grayscale_nonempty (f : image) :
  wf_image f -> Forall (fun g => g <> []) (pixels (grayscale bgr2gray f)).
Proof.
  intros (_ & _ & Hpx). unfold grayscale, channels in *.
  destruct (ndim3 f).
  - simpl. apply Forall_forall. intros g Hg. apply in_map_iff in Hg.
    destruct Hg as [p [<- _]]. discriminate.
  - eapply Forall_impl; [|exact Hpx]. intros p [Hlen _] ->. discriminate.
Qed.

Lemma allocate_config (self : StarTrailGenerator) (f : image) :
  max_brightness (allocate self f) = max_brightness self /\
  mask_threshold (allocate self f) = mask_threshold self /\
  pixel_cutoff_threshold (allocate self f) = pixel_cutoff_threshold self /\
  background_image_min_brightness (allocate self f)
  = background_image_min_brightness self.
Proof. unfold allocate. now destruct (trail_image self). Qed.

Lemma allocate_counters (self : StarTrailGenerator) (f : image) :
  trail_count (allocate self f) = trail_count self /\
  excluded_images (allocate self f) = excluded_images self /\
  background_image (allocate self f) = background_image self /\
  background_image_brightness (allocate self f)
  = background_image_brightness self.
Proof. unfold allocate. now destruct (trail_image self). Qed.

Lemma allocate_established (self : StarTrailGenerator) (f t : image) :
  trail_image self = Some t -> allocate self f = self.
Proof. unfold allocate. now intros ->. Qed.

(** After the first block the object is consistent with the frame. *)
Lemma allocate_consistent (self : StarTrailGenerator) (f : image) :
  consistent self -> wf_image f -> matches self f ->
  exists old cutoff,
    trail_image (allocate self f) = Some old /\
    pixels_cutoff (allocate self f) = Some cutoff /\
    wf_image old /\ same_shape old f = true /\
    match background_image self with
    | None => True
    | Some b => wf_image b /\ same_shape b old = true
    end.
Proof.
  unfold consistent, matches, allocate.
  destruct (trail_image self) as [t|] eqn:Et.
  - intros (Hwf & Hc & Hb) _ Hm. rewrite Et.
    destruct (pixels_cutoff self) as [c|] eqn:Ec; [|congruence].
    exists t, c. auto.
  - intros [Hc Hb] (Hpos & _) _. simpl. eexists; eexists.
    split; [reflexivity|]. split; [reflexivity|].
    split; [apply wf_numpy_zeros; assumption|].
    split; [apply same_shape_iff; simpl; auto|].
    now rewrite Hb.
Qed.

Lemma processImage_overbright (self : StarTrailGenerator) (f : image) :
  overbright bgr2gray self f = true ->
  processImage bgr2gray self f = (allocate self f, Ok tt).
Proof.
  unfold overbright, processImage. intros H.
  destruct (allocate_config self f) as (-> & _). now rewrite H.
Qed.

Lemma processImage_saturated (self : StarTrailGenerator) (f : image) :
  overbright bgr2gray self f = false ->
  cutoff_for self f <> None ->
  saturated bgr2gray self f = true ->
  processImage bgr2gray self f = (incr_excluded (allocate self f), Ok tt).
Proof.
  unfold overbright, saturated, cutoff_for, processImage. intros Ho Hc Hs.
  destruct (allocate_config self f) as (-> & -> & _). rewrite Ho.
  destruct (pixels_cutoff (allocate self f)); [|congruence].
  now rewrite Hs.
Qed.

(** A frame that passes both filters: the counter and the background
    candidate are updated, then the compositing block runs. *)
Lemma processImage_accepted (self : StarTrailGenerator) (f old : image) :
  accepted bgr2gray self f = true ->
  trail_image (allocate self f) = Some old ->
  processImage bgr2gray self f
  = let self' :=
      update_background (incr_trail_count (allocate self f))
        (cv2_mean0 (grayscale bgr2gray f)) f in
    match put_on_background old f (grayscale bgr2gray f)
            (mask_threshold self) with
    | Ok t => (set_trail_image self' t, Ok tt)
    | Raise e => (self', Raise e)
    end.
Proof.
  unfold accepted, overbright, cutoff_for, processImage.
  intros Ha Ht.
  apply andb_true_iff in Ha. destruct Ha as [Ho Hs].
  apply negb_true_iff in Ho.
  destruct (allocate_config self f) as (Hmax & Hthr & _).
  rewrite Hmax, Ho.
  destruct (pixels_cutoff (allocate self f)); [|discriminate].
  apply negb_true_iff in Hs.
  rewrite Hthr, Hs. cbn zeta.
  assert (Htr : forall m,
             trail_image
               (update_background (incr_trail_count (allocate self f)) m f)
             = Some old).
  { intros m. unfold update_background.
    destruct (_ && _); simpl; exact Ht. }
  assert (Hmt : forall m,
             mask_threshold
               (update_background (incr_trail_count (allocate self f)) m f)
             = mask_threshold self).
  { intros m. unfold update_background.
    destruct (_ && _); simpl; exact Hthr. }
  rewrite Htr, Hmt. reflexivity.
Qed.

(** The three ways a call goes once the cut-off is set. *)
Lemma filter_cases (self : StarTrailGenerator) (f : image) :
  cutoff_for self f <> None ->
  overbright bgr2gray self f = true \/
  (overbright bgr2gray self f = false /\
   saturated bgr2gray self f = true /\ accepted bgr2gray self f = false) \/
  (overbright bgr2gray self f = false /\
   saturated bgr2gray self f = false /\ accepted bgr2gray self f = true).
Proof.
  unfold accepted, saturated. intros Hc.
  destruct (overbright bgr2gray self f); [now left | right].
  destruct (cutoff_for self f); [|congruence]. simpl.
  destruct (float_lt _ _); simpl; auto.
Qed.

(** An accepted frame of the established shape. *)
Lemma processImage_composite (self : StarTrailGenerator) (f old : image) :
  wf_image f ->
  accepted bgr2gray self f = true ->
  trail_image (allocate self f) = Some old ->
  same_shape old f = true ->
  processImage bgr2gray self f
  = (set_trail_image
       (update_background (incr_trail_count (allocate self f))
          (cv2_mean0 (grayscale bgr2gray f)) f)
       (mkImage (height old) (width old) (ndim3 old)
          (spec_composite (mask_threshold self)
             (pixels (grayscale bgr2gray f)) (pixels old) (pixels f))),
     Ok tt).
Proof.
  intros Hwf Ha Ht Hs.
  rewrite (processImage_accepted _ _ _ Ha Ht). cbn zeta.
  rewrite put_on_background_ok; auto using grayscale_same_size,
    grayscale_ndim3, grayscale_nonempty.
Qed.

Lemma update_background_fields (s : StarTrailGenerator) (m : float)
  (f : image) :
  trail_image (update_background s m f) = trail_image s /\
  pixels_cutoff (update_background s m f) = pixels_cutoff s /\
  trail_count (update_background s m f) = trail_count s /\
  excluded_images (update_background s m f) = excluded_images s /\
  max_brightness (update_background s m f) = max_brightness s /\
  mask_threshold (update_background s m f) = mask_threshold s /\
  pixel_cutoff_threshold (update_background s m f) = pixel_cutoff_threshold s /\
  background_image_min_brightness (update_background s m f)
  = background_image_min_brightness s.
Proof. unfold update_background. destruct (_ && _); simpl; auto 10. Qed.

Lemma composite_is_select (t : Z) (old f : image) :
  wf_image old -> wf_image f -> same_shape old f = true ->
  spec_composite t (pixels (grayscale bgr2gray f)) (pixels old) (pixels f)
  = select t (pixels (grayscale bgr2gray f)) (pixels old) (pixels f).
Proof.
  intros (_ & _ & Ho) (_ & _ & Hf) Hs. apply same_shape_iff in Hs.
  destruct Hs as (_ & _ & Hc).
  apply (spec_composite_is_select t (channels f)); [|assumption].
  unfold channels in *. now rewrite <- Hc.
Qed.

Lemma wf_composite (t : Z) (old f : image) :
  wf_image old -> wf_image f -> same_shape old f = true ->
  wf_image
    (mkImage (height old) (width old) (ndim3 old)
       (spec_composite t (pixels (grayscale bgr2gray f))
          (pixels old) (pixels f))).
Proof.
  intros Hwo Hwf Hs. rewrite (composite_is_select t _ _ Hwo Hwf Hs).
  destruct Hwo as (Hpo & Hlo & Ho). destruct Hwf as (_ & Hlf & Hf).
  apply same_shape_iff in Hs. destruct Hs as (Hh & Hw & Hc).
  unfold wf_image, channels in *. cbn [height width ndim3 pixels].
  split; [assumption|]. split.
  - rewrite select_length; rewrite grayscale_length; congruence.
  - apply select_wf; [assumption|]. now rewrite Hc.
Qed.

(** A well-formed frame of the established shape never makes the call
    fail, and the object stays consistent with that shape. *)
Lemma processImage_consistent (self : StarTrailGenerator) (f : image) :
  consistent self -> wf_image f -> matches self f ->
  snd (processImage bgr2gray self f) = Ok tt /\
  consistent (fst (processImage bgr2gray self f)) /\
  exists t', trail_image (fst (processImage bgr2gray self f)) = Some t' /\
             same_shape t' f = true.
Proof.
  intros Hc Hwf Hm.
  destruct (allocate_consistent self f Hc Hwf Hm)
    as (old & cutoff & Ht & Hcut & Hwo & Hs & Hb).
  destruct (allocate_counters self f) as (_ & _ & Hbg & _).
  assert (Hne : cutoff_for self f <> None)
    by (unfold cutoff_for; congruence).
  destruct (filter_cases self f Hne) as [Ho | [(Ho & Hsat & _) | (_ & _ & Ha)]].
  - rewrite (processImage_overbright _ _ Ho). cbn [fst snd].
    split; [reflexivity|]. split; [|eauto].
    unfold consistent. rewrite Ht, Hcut, Hbg.
    split; [assumption|]. split; [discriminate | assumption].
  - rewrite (processImage_saturated _ _ Ho Hne Hsat). cbn [fst snd].
    split; [reflexivity|]. split; [|simpl; eauto].
    unfold consistent. cbn [incr_excluded trail_image pixels_cutoff
                              background_image].
    rewrite Ht, Hcut, Hbg.
    split; [assumption|]. split; [discriminate | assumption].
  - rewrite (processImage_composite _ _ _ Hwf Ha Ht Hs). cbn [fst snd].
    split; [reflexivity|].
    pose proof (wf_composite (mask_threshold self) old f Hwo Hwf Hs) as Hwn.
    split.
    + unfold consistent, set_trail_image, set_trail.
      cbn [trail_image pixels_cutoff background_image].
      split; [assumption|].
      destruct (update_background_fields (incr_trail_count (allocate self f))
                  (cv2_mean0 (grayscale bgr2gray f)) f) as (_ & -> & _).
      cbn [incr_trail_count pixels_cutoff]. rewrite Hcut.
      split; [discriminate|].
      unfold update_background. destruct (_ && _);
        cbn [set_background incr_trail_count background_image].
      * split; [assumption|]. rewrite same_shape_sym. exact Hs.
      * rewrite Hbg. destruct (background_image self); [|exact I].
        destruct Hb as [Hwb Hsb]. split; [assumption|exact Hsb].
    + eexists. split; [reflexivity|]. exact Hs.
Qed.

Lemma put_on_background_mismatch (bg fg gray : image) (t : Z) :
  same_shape bg fg = false -> same_size gray fg = true ->
  ndim3 gray = false ->
  put_on_background bg fg gray t = Raise cv2_error.
Proof.
  intros Hs Hg Hn.
  destruct (same_size gray bg) eqn:Hgb.
  - apply put_on_background_channels; auto.
    intros Hc. apply same_size_iff in Hg. apply same_size_iff in Hgb.
    assert (same_shape bg fg = true)
      by (apply same_shape_iff; intuition congruence).
    congruence.
  - unfold put_on_background. now rewrite bg_masked_mismatch.
Qed.

(** On arrays of one shape the compositing block returns an array of that
    shape. *)
Lemma put_on_background_returns (bg fg gray : image) (t : Z) :
  same_shape bg fg = true -> same_size gray fg = true ->
  ndim3 gray = false ->
  exists r, put_on_background bg fg gray t = Ok r /\
            same_shape r bg = true.
Proof.
  intros Hbf Hgf Hg.
  assert (Hgb : same_size gray bg = true).
  { apply same_shape_iff in Hbf. apply same_size_iff in Hgf.
    apply same_size_iff. intuition congruence. }
  unfold put_on_background.
  rewrite (bg_masked_ok _ _ _ Hgb Hg), (stars_masked_ok _ _ _ Hgf Hg).
  cbn [bind]. unfold cv2_add, same_shape, same_size.
  cbn [height width ndim3 pixels].
  unfold same_shape, same_size in Hbf. rewrite Hbf.
  eexists. split; [reflexivity|].
  apply same_shape_iff. cbn [height width ndim3]. auto.
Qed.

Lemma allocate_trail_some (self : StarTrailGenerator) (f : image) :
  exists old, trail_image (allocate self f) = Some old.
Proof. unfold allocate. destruct (trail_image self) eqn:E; simpl; eauto. Qed.

(** The trail image the compositing block reads has the frame's shape when
    the frame matches. *)
Lemma allocate_matches (self : StarTrailGenerator) (f : image) :
  matches self f ->
  exists old, trail_image (allocate self f) = Some old /\
              same_shape old f = true.
Proof.
  unfold matches, allocate. destruct (trail_image self) as [t|] eqn:Et.
  - intros Hs. exists t. now rewrite Et.
  - intros _. eexists. split; [reflexivity|].
    apply same_shape_iff. cbn [numpy_zeros height width ndim3]. auto.
Qed.

Lemma cutoff_for_derived (self : StarTrailGenerator) (f : image) :
  cutoff_derived self -> cutoff_for self f <> None.
Proof.
  unfold cutoff_derived, cutoff_for, allocate.
  destruct (trail_image self) as [t|].
  - intros H. apply H. discriminate.
  - intros _. discriminate.
Qed.

Lemma accepted_counted (self : StarTrailGenerator) (f : image) :
  accepted bgr2gray self f = true ->
  trail_count (fst (processImage bgr2gray self f)) = S (trail_count self) /\
  excluded_images (fst (processImage bgr2gray self f))
  = excluded_images self.
Proof.
  intros Ha. destruct (allocate_trail_some self f) as [old Ht].
  rewrite (processImage_accepted _ _ _ Ha Ht). cbn zeta.
  destruct (update_background_fields (incr_trail_count (allocate self f))
              (cv2_mean0 (grayscale bgr2gray f)) f)
    as (_ & _ & Un & Ue & _).
  destruct (allocate_counters self f) as (Hc & He & _).
  destruct (put_on_background _ _ _ _);
    cbn [fst set_trail_image set_trail trail_count excluded_images];
    rewrite Un, Ue; cbn [incr_trail_count trail_count excluded_images];
    split; congruence.
Qed.

(** What one call does to the background candidate and its score. *)
Lemma processImage_background (self : StarTrailGenerator) (f : image) :
  let self' := fst (processImage bgr2gray self f) in
  if replaces_background bgr2gray self f
  then background_image_brightness self' = cv2_mean0 (grayscale bgr2gray f) /\
       background_image self' = Some f
  else background_image_brightness self' = background_image_brightness self /\
       background_image self' = background_image self.
Proof.
  cbn zeta. unfold replaces_background.
  destruct (allocate_counters self f) as (_ & _ & Hbg & Hsc).
  destruct (allocate_config self f) as (Hmax & Hthr & _ & Hmin).
  destruct (accepted bgr2gray self f) eqn:Ha.
  - destruct (allocate_trail_some self f) as [old Ht].
    rewrite (processImage_accepted _ _ _ Ha Ht). cbn zeta.
    set (m := cv2_mean0 (grayscale bgr2gray f)).
    assert (Hu :
      let u := update_background (incr_trail_count (allocate self f)) m f in
      if true && float_gt_int m (background_image_min_brightness self)
         && float_lt m (background_image_brightness self)
      then background_image_brightness u = m /\ background_image u = Some f
      else background_image_brightness u = background_image_brightness self
           /\ background_image u = background_image self).
    { cbn zeta. unfold update_background.
      cbn [incr_trail_count background_image_brightness
             background_image_min_brightness].
      rewrite Hsc, Hmin. cbn [andb].
      destruct (float_lt m (background_image_brightness self));
        destruct (float_gt_int m (background_image_min_brightness self));
        cbn [andb set_background incr_trail_count background_image
               background_image_brightness]; auto. }
    destruct (put_on_background old f (grayscale bgr2gray f)
                (mask_threshold self)); cbn [fst]; exact Hu.
  - cbn [andb]. unfold accepted, overbright, cutoff_for in Ha.
    unfold processImage. rewrite Hmax, Hthr.
    destruct (float_gt_int (cv2_mean0 (grayscale bgr2gray f))
                (max_brightness self)); cbn [fst]; [auto|].
    cbn [negb andb] in Ha.
    destruct (pixels_cutoff (allocate self f)); cbn [fst]; [|auto].
    destruct (float_lt _ _); [cbn [fst incr_excluded background_image
      background_image_brightness]; auto | discriminate].
Qed.

Lemma consistent_byte_arrays (self : StarTrailGenerator) :
  consistent self -> byte_arrays self.
Proof.
  unfold consistent, byte_arrays.
  destruct (trail_image self) as [t|].
  - intros (Hwt & _ & Hb). split.
    + intros t' E. inversion E. now subst.
    + intros b E. rewrite E in Hb. tauto.
  - intros [_ Hb]. split; [discriminate|]. rewrite Hb. discriminate.
Qed.

(** The trail image the compositing block reads is a byte array of the
    frame's shape when the frame matches. *)
Lemma allocate_wf (self : StarTrailGenerator) (f : image) :
  byte_arrays self -> wf_image f ->
  forall old, trail_image (allocate self f) = Some old -> wf_image old.
Proof.
  intros [Ht _] Hwf old. unfold allocate.
  destruct (trail_image self) as [t|] eqn:Et.
  - rewrite Et. intros E. inversion E. subst. now apply Ht.
  - cbn [set_trail trail_image]. intros E. inversion E.
    apply wf_numpy_zeros. apply Hwf.
Qed.

Lemma processImage_not_accepted (self : StarTrailGenerator) (f : image) :
  accepted bgr2gray self f = false ->
  trail_image (fst (processImage bgr2gray self f))
  = trail_image (allocate self f).
Proof.
  unfold accepted, overbright, cutoff_for, processImage.
  destruct (allocate_config self f) as (-> & -> & _).
  destruct (float_gt_int _ _); [reflexivity|].
  destruct (pixels_cutoff (allocate self f)); [|reflexivity].
  destruct (float_lt _ _); [reflexivity | discriminate].
Qed.

(** Every call on a byte array keeps the images byte arrays, whether it
    returns or raises: every object a run reaches from a fresh one holds
    byte arrays. *)
Lemma processImage_byte_arrays (self : StarTrailGenerator) (f : image) :
  byte_arrays self -> wf_image f ->
  byte_arrays (fst (processImage bgr2gray self f)).
Proof.
  intros Hba Hwf. pose proof (allocate_wf self f Hba Hwf) as Hold.
  destruct Hba as [_ Hb]. split.
  - intros t' E. destruct (accepted bgr2gray self f) eqn:Ha.
    + destruct (allocate_trail_some self f) as [old Ho].
      rewrite (processImage_accepted _ _ _ Ha Ho) in E. cbn zeta in E.
      destruct (same_shape old f) eqn:Hs.
      * rewrite put_on_background_ok in E
          by auto using grayscale_same_size, grayscale_ndim3,
               grayscale_nonempty.
        cbn [fst set_trail_image set_trail trail_image] in E.
        inversion E. apply wf_composite; auto.
      * rewrite put_on_background_mismatch in E
          by auto using grayscale_same_size, grayscale_ndim3.
        cbn [fst] in E.
        destruct (update_background_fields
                    (incr_trail_count (allocate self f))
                    (cv2_mean0 (grayscale bgr2gray f)) f) as (Ut & _).
        rewrite Ut in E. apply Hold. exact E.
    + rewrite (processImage_not_accepted _ _ Ha) in E. now apply Hold.
  - intros b E. pose proof (processImage_background self f) as H.
    cbn zeta in H. destruct (replaces_background bgr2gray self f).
    + destruct H as [_ H]. rewrite H in E. inversion E. now subst.
    + destruct H as [_ H]. rewrite H in E. now apply Hb.
Qed.

Lemma feed_byte_arrays (frames : list image) :
  forall self : StarTrailGenerator,
    byte_arrays self -> Forall wf_image frames ->
    byte_arrays (feed bgr2gray self frames).
Proof.
  unfold feed. induction frames as [|f frames IH]; intros self Hb Hf;
    [exact Hb|].
  apply Forall_cons_iff in Hf. destruct Hf as [Hwf Hf].
  cbn [fold_left]. apply IH; [|assumption].
  now apply processImage_byte_arrays.
Qed.

(** A fresh object has both properties. *)
Lemma fresh_object (self : StarTrailGenerator) :
  trail_image self = None -> background_image self = None ->
  cutoff_derived self /\ byte_arrays self.
Proof.
  intros Ht Hb. unfold cutoff_derived, byte_arrays. rewrite Ht, Hb.
  split; [congruence|]. split; discriminate.
Qed.

(** Whatever the frame's shape, a call that returns normally leaves the
    object consistent: a frame of another shape only returns normally when
    a filter excludes it, and then the images are untouched. *)
Lemma processImage_ok_consistent (self : StarTrailGenerator) (f : image) :
  consistent self -> wf_image f ->
  snd (processImage bgr2gray self f) = Ok tt ->
  consistent (fst (processImage bgr2gray self f)).
Proof.
  intros Hc Hwf Hok.
  destruct (trail_image self) as [t|] eqn:Ht.
  - destruct (same_shape t f) eqn:Hs.
    + apply processImage_consistent; auto. unfold matches. now rewrite Ht.
    + assert (Hal : allocate self f = self)
        by (eapply allocate_established; eauto).
      assert (Hne : cutoff_for self f <> None).
      { unfold cutoff_for. rewrite Hal. unfold consistent in Hc.
        rewrite Ht in Hc. tauto. }
      destruct (filter_cases self f Hne)
        as [Ho | [(Ho & Hsat & _) | (_ & _ & Ha)]].
      * rewrite (processImage_overbright _ _ Ho), Hal. exact Hc.
      * rewrite (processImage_saturated _ _ Ho Hne Hsat), Hal. exact Hc.
      * rewrite (processImage_accepted self f t Ha) in Hok
          by (now rewrite Hal).
        cbn zeta in Hok.
        rewrite put_on_background_mismatch in Hok;
          auto using grayscale_same_size, grayscale_ndim3.
        discriminate.
  - apply processImage_consistent; auto. unfold matches. now rewrite Ht.
Qed.

(** C1 (amended): a well-formed frame of the established shape never makes
    [processImage] fail, and the first call always succeeds and establishes
    the shape; a frame whose size or channel count disagrees with the
    established one makes the call fail (with OpenCV's error) exactly when
    it passes both exclusion filters, and is excluded without any error
    otherwise. *)
Theorem processImage_failure (self : StarTrailGenerator) (f : image) :
  cutoff_derived self -> wf_image f ->
  (matches self f ->
   snd (processImage bgr2gray self f) = Ok tt /\
   exists t', trail_image (fst (processImage bgr2gray self f)) = Some t' /\
              same_shape t' f = true) /\
  (forall t, trail_image self = Some t -> same_shape t f = false ->
   snd (processImage bgr2gray self f)
   = if accepted bgr2gray self f then Raise cv2_error else Ok tt).
Proof.
  intros Hc Hwf.
  pose proof (cutoff_for_derived self f Hc) as Hne. split.
  - intros Hm. destruct (allocate_matches self f Hm) as (old & Ht & Hs).
    destruct (filter_cases self f Hne)
      as [Ho | [(Ho & Hsat & _) | (_ & _ & Ha)]].
    + rewrite (processImage_overbright _ _ Ho). cbn [fst snd]. eauto.
    + rewrite (processImage_saturated _ _ Ho Hne Hsat). cbn [fst snd].
      cbn [incr_excluded trail_image]. eauto.
    + rewrite (processImage_composite _ _ _ Hwf Ha Ht Hs). cbn [fst snd].
      split; [reflexivity|]. eexists. split; [reflexivity|]. exact Hs.
  - intros t Ht Hs.
    assert (Hal : allocate self f = self)
      by (eapply allocate_established; eauto).
    destruct (filter_cases self f Hne)
      as [Ho | [(Ho & Hsat & ->) | (_ & _ & Ha)]].
    + rewrite (processImage_overbright _ _ Ho). cbn [snd].
      unfold accepted. now rewrite Ho.
    + now rewrite (processImage_saturated _ _ Ho Hne Hsat).
    + rewrite Ha. rewrite (processImage_accepted self f t Ha); cbn zeta.
      * rewrite put_on_background_mismatch;
          auto using grayscale_same_size, grayscale_ndim3.
      * now rewrite Hal.
Qed.

(** C4: the background score never increases: a call changes the score and
    the candidate only when the frame passes both filters (it is then
    counted in [trail_count], whether or not the compositing that follows
    succeeds) and its mean brightness lies strictly between
    [background_image_min_brightness] and the current score; the score
    then becomes that mean and the candidate that frame (in its original
    channels); over any sequence of calls the score is what it was or
    lower. *)
Theorem background_score_nonincreasing (self : StarTrailGenerator) :
  (forall f : image,
     let self' := fst (processImage bgr2gray self f) in
     (if replaces_background bgr2gray self f
      then background_image_brightness self'
           = cv2_mean0 (grayscale bgr2gray f) /\
           background_image self' = Some f /\
           trail_count self' = S (trail_count self) /\
           float_gt_int (cv2_mean0 (grayscale bgr2gray f))
             (background_image_min_brightness self) = true /\
           float_lt (cv2_mean0 (grayscale bgr2gray f))
             (background_image_brightness self) = true
      else background_image_brightness self'
           = background_image_brightness self /\
           background_image self' = background_image self) /\
     lowered (background_image_brightness self')
       (background_image_brightness self))
  /\
  (forall frames : list image,
     lowered (background_image_brightness (feed bgr2gray self frames))
       (background_image_brightness self)).
Proof.
  assert (Hone : forall s f,
    let s' := fst (processImage bgr2gray s f) in
    (if replaces_background bgr2gray s f
     then background_image_brightness s' = cv2_mean0 (grayscale bgr2gray f) /\
          background_image s' = Some f /\
          trail_count s' = S (trail_count s) /\
          float_gt_int (cv2_mean0 (grayscale bgr2gray f))
            (background_image_min_brightness s) = true /\
          float_lt (cv2_mean0 (grayscale bgr2gray f))
            (background_image_brightness s) = true
     else background_image_brightness s' = background_image_brightness s /\
          background_image s' = background_image s) /\
    lowered (background_image_brightness s') (background_image_brightness s)).
  { intros s f. cbn zeta.
    pose proof (processImage_background s f) as H. cbn zeta in H.
    destruct (replaces_background bgr2gray s f) eqn:Hr.
    - unfold replaces_background in Hr.
      apply andb_true_iff in Hr. destruct Hr as [Hr H2].
      apply andb_true_iff in Hr. destruct Hr as [Ha H1].
      destruct H as [Hs Hb]. rewrite Hs.
      destruct (accepted_counted s f Ha) as [Hn _].
      repeat split; auto. now right.
    - destruct H as [Hs Hb]. rewrite Hs. repeat split; auto.
      apply lowered_refl. }
  split; [exact (Hone self)|].
  intros frames. revert self. induction frames as [|f frames IH]; intros self.
  - apply lowered_refl.
  - unfold feed in *. cbn [fold_left].
    eapply lowered_trans; [apply IH|]. apply (Hone self f).
Qed.

(** C6 (amended): a frame whose mean brightness is strictly above
    [max_brightness] leaves the background candidate, its score and both
    counters unchanged and the call returns normally; once the trail image
    is established the whole object is unchanged, while on the first call
    of a run the trail image is allocated black with the frame's shape and
    the cut-off in pixels is derived from the frame's size. *)
Theorem overbright_frame_skipped (self : StarTrailGenerator) (f : image) :
  overbright bgr2gray self f = true ->
  let self' := fst (processImage bgr2gray self f) in
  snd (processImage bgr2gray self f) = Ok tt /\
  background_image self' = background_image self /\
  background_image_brightness self' = background_image_brightness self /\
  trail_count self' = trail_count self /\
  excluded_images self' = excluded_images self /\
  match trail_image self with
  | Some t => self' = self
  | None =>
      trail_image self' = Some (numpy_zeros (height f) (width f) (ndim3 f))
      /\
      pixels_cutoff self'
      = Some (float_mul (float_of_int (Z.of_nat (height f * width f)))
                (float_div (pixel_cutoff_threshold self) (float_of_int 100)))
  end.
Proof.
  intros Ho. cbn zeta. rewrite (processImage_overbright _ _ Ho).
  cbn [fst snd].
  destruct (allocate_counters self f) as (Hc & He & Hb & Hs).
  repeat (split; [congruence|]).
  unfold allocate. destruct (trail_image self); [reflexivity|].
  split; reflexivity.
Qed.

(** C7 (amended): a frame that is not overbright and whose count of
    grayscale samples strictly above [mask_threshold] exceeds the cut-off
    increments [excluded_images] by exactly one and leaves the background
    candidate, its score and [trail_count] unchanged; once the trail image
    is established nothing else changes either, while on the first call of
    a run the trail image is allocated black with the frame's shape and
    the cut-off in pixels is derived from the frame's size. *)
Theorem saturated_frame_excluded (self : StarTrailGenerator) (f : image) :
  overbright bgr2gray self f = false ->
  saturated bgr2gray self f = true ->
  let self' := fst (processImage bgr2gray self f) in
  snd (processImage bgr2gray self f) = Ok tt /\
  excluded_images self' = S (excluded_images self) /\
  background_image self' = background_image self /\
  background_image_brightness self' = background_image_brightness self /\
  trail_count self' = trail_count self /\
  match trail_image self with
  | Some t => self' = incr_excluded self
  | None =>
      trail_image self' = Some (numpy_zeros (height f) (width f) (ndim3 f))
      /\
      pixels_cutoff self'
      = Some (float_mul (float_of_int (Z.of_nat (height f * width f)))
                (float_div (pixel_cutoff_threshold self) (float_of_int 100)))
  end.
Proof.
  intros Ho Hs. cbn zeta.
  assert (Hne : cutoff_for self f <> None).
  { unfold saturated in Hs. destruct (cutoff_for self f); congruence. }
  rewrite (processImage_saturated _ _ Ho Hne Hs). cbn [fst snd].
  destruct (allocate_counters self f) as (Hc & He & Hb & Hsc).
  cbn [incr_excluded excluded_images background_image
         background_image_brightness trail_count trail_image pixels_cutoff].
  repeat (split; [congruence|]).
  unfold allocate. destruct (trail_image self); [reflexivity|].
  split; reflexivity.
Qed.

(** C3 (amended): for a frame that passes both filters and has the shape
    of the trail image, with [M] the mask of the grayscale samples strictly
    above [mask_threshold] and [M'] its complement, the new trail image is
    the old one masked by [M'] plus the frame masked by [M] under
    saturating per-channel addition; a frame that passes both filters but
    has another shape is counted all the same, and then the compositing
    fails and leaves the trail image as it was.  ([old] is the trail image
    the compositing block reads: the stored one, or the black one the
    first call has just allocated with the frame's shape.) *)
Theorem compositing_update (self : StarTrailGenerator) (f old : image) :
  wf_image f ->
  accepted bgr2gray self f = true ->
  trail_image (allocate self f) = Some old ->
  (same_shape old f = true ->
   snd (processImage bgr2gray self f) = Ok tt /\
   trail_image (fst (processImage bgr2gray self f))
   = Some (mkImage (height old) (width old) (ndim3 old)
             (spec_saturating_add
                (spec_masked
                   (spec_complement
                      (spec_mask (mask_threshold self)
                         (pixels (grayscale bgr2gray f))))
                   (pixels old))
                (spec_masked
                   (spec_mask (mask_threshold self)
                      (pixels (grayscale bgr2gray f)))
                   (pixels f))))) /\
  (same_shape old f = false ->
   snd (processImage bgr2gray self f) = Raise cv2_error /\
   trail_image (fst (processImage bgr2gray self f)) = Some old /\
   trail_count (fst (processImage bgr2gray self f)) = S (trail_count self)).
Proof.
  intros Hwf Ha Ht. split; intros Hs.
  - rewrite (processImage_composite _ _ _ Hwf Ha Ht Hs). split; reflexivity.
  - destruct (accepted_counted self f Ha) as [Hn _].
    split; [|split; [|exact Hn]];
      rewrite (processImage_accepted _ _ _ Ha Ht); cbn zeta;
      rewrite put_on_background_mismatch
        by auto using grayscale_same_size, grayscale_ndim3;
      cbn [fst snd]; [reflexivity|].
    destruct (update_background_fields (incr_trail_count (allocate self f))
                (cv2_mean0 (grayscale bgr2gray f)) f) as (-> & _).
    exact Ht.
Qed.

(** ** Disjoint operands *)

Lemma all_zero_map (p : pixel) : all_zero (map (fun _ => 0) p).
Proof.
  unfold all_zero. induction p; simpl; constructor; auto.
Qed.

Lemma operands_disjoint (t : Z) :
  forall (gray kept taken : list pixel) (i : nat),
    Forall (fun g => g <> []) gray ->
    all_zero
      (nth i (map2 and_masked
                (map (map (fun v => Z.lxor v 255))
                   (map (map (fun v => if v >? t then 255 else 0)) gray))
                kept) []) \/
    all_zero
      (nth i (map2 and_masked
                (map (map (fun v => if v >? t then 255 else 0)) gray)
                taken) []).
Proof.
  induction gray as [|g gray IH]; intros kept taken i Hne.
  - left. destruct i; constructor.
  - apply Forall_cons_iff in Hne. destruct Hne as [Hg Hne].
    destruct kept as [|k kept]; [left; destruct i; constructor|].
    destruct taken as [|x taken]; [right; destruct i; constructor|].
    destruct i as [|i]; [|apply IH; assumption].
    destruct g as [|v g]; [congruence|].
    cbn [map map2 nth]. unfold and_masked, sample0. cbn [nth].
    destruct (v >? t); cbn [Z.lxor Z.eqb].
    + left. apply all_zero_map.
    + right. apply all_zero_map.
Qed.

Lemma add_zero_l (k x : pixel) :
  length k = length x -> map2 Z.add (map (fun _ => 0) k) x = x.
Proof.
  revert x; induction k as [|a k IH]; intros [|b x] Hlen; simpl in *;
    try discriminate; auto.
  rewrite IH by lia. reflexivity.
Qed.

Lemma add_zero_r (k x : pixel) :
  length k = length x -> map2 Z.add k (map (fun _ => 0) x) = k.
Proof.
  revert x; induction k as [|a k IH]; intros [|b x] Hlen; simpl in *;
    try discriminate; auto.
  rewrite IH by lia. now rewrite Z.add_0_r.
Qed.

(** Plain addition of the two operands is already the selection. *)
Lemma plain_add_is_select (t : Z) (c : nat) :
  forall gray kept taken : list pixel,
    Forall (fun g => g <> []) gray ->
    Forall (fun p => length p = c /\ Forall sample_ok p) kept ->
    Forall (fun p => length p = c /\ Forall sample_ok p) taken ->
    map2 (map2 Z.add)
      (map2 and_masked
         (map (map (fun v => Z.lxor v 255))
            (map (map (fun v => if v >? t then 255 else 0)) gray))
         kept)
      (map2 and_masked
         (map (map (fun v => if v >? t then 255 else 0)) gray)
         taken)
    = select t gray kept taken.
Proof.
  induction gray as [|g gray IH]; intros kept taken Hne Hk Hx;
    [reflexivity|].
  apply Forall_cons_iff in Hne. destruct Hne as [Hg Hne].
  destruct kept as [|k kept]; [reflexivity|].
  destruct taken as [|x taken]; [reflexivity|].
  apply Forall_cons_iff in Hk. destruct Hk as [[Hk1 Hk2] Hk'].
  apply Forall_cons_iff in Hx. destruct Hx as [[Hx1 Hx2] Hx'].
  destruct g as [|v g]; [congruence|].
  cbn [map map2 select]. rewrite IH by assumption.
  unfold and_masked, sample0. cbn [nth].
  destruct (v >? t); cbn [Z.lxor Z.eqb]; apply (f_equal2 cons); trivial.
  - apply add_zero_l; congruence.
  - apply add_zero_r; congruence.
Qed.

(** The compositing block on byte arrays of one shape: both masked
    operands exist, no pixel is non-zero in both, the saturating addition
    is a plain addition, and the result is the pixelwise selection. *)
Lemma put_on_background_selects (bg fg gray : image) (t : Z) :
  wf_image bg -> wf_image fg ->
  same_shape bg fg = true -> same_size gray fg = true ->
  ndim3 gray = false -> Forall (fun g => g <> []) (pixels gray) ->
  exists b s,
    bg_masked bg gray t = Ok b /\
    stars_masked fg gray t = Ok s /\
    (forall i, all_zero (nth i (pixels b) []) \/
               all_zero (nth i (pixels s) [])) /\
    cv2_add b s
    = Ok (mkImage (height bg) (width bg) (ndim3 bg)
            (map2 (map2 Z.add) (pixels b) (pixels s))) /\
    put_on_background bg fg gray t
    = Ok (mkImage (height bg) (width bg) (ndim3 bg)
            (select t (pixels gray) (pixels bg) (pixels fg))).
Proof.
  intros Hwb Hwf Hbf Hgf Hg Hne.
  assert (Hgb : same_size gray bg = true).
  { apply same_shape_iff in Hbf. apply same_size_iff in Hgf.
    apply same_size_iff. intuition congruence. }
  assert (Hsel : spec_composite t (pixels gray) (pixels bg) (pixels fg)
                 = select t (pixels gray) (pixels bg) (pixels fg)).
  { destruct Hwb as (_ & _ & Hb). destruct Hwf as (_ & _ & Hf).
    apply (spec_composite_is_select t (channels fg)); [|assumption].
    apply same_shape_iff in Hbf. destruct Hbf as (_ & _ & Hc).
    unfold channels in *. now rewrite <- Hc. }
  assert (Hplain :
            map2 (map2 Z.add)
              (map2 and_masked
                 (map (map (fun v => Z.lxor v 255))
                    (map (map (fun v => if v >? t then 255 else 0))
                       (pixels gray)))
                 (pixels bg))
              (map2 and_masked
                 (map (map (fun v => if v >? t then 255 else 0))
                    (pixels gray))
                 (pixels fg))
            = select t (pixels gray) (pixels bg) (pixels fg)).
  { destruct Hwb as (_ & _ & Hb). destruct Hwf as (_ & _ & Hf).
    apply (plain_add_is_select t (channels fg)); [assumption| |assumption].
    apply same_shape_iff in Hbf. destruct Hbf as (_ & _ & Hc).
    unfold channels in *. now rewrite <- Hc. }
  eexists. eexists.
  split; [apply (bg_masked_ok _ _ _ Hgb Hg)|].
  split; [apply (stars_masked_ok _ _ _ Hgf Hg)|].
  cbn [pixels]. split; [intros i; apply operands_disjoint; assumption|].
  split.
  - unfold cv2_add, same_shape, same_size. cbn [height width ndim3 pixels].
    unfold same_shape, same_size in Hbf. rewrite Hbf.
    rewrite pipeline_is_spec_composite by assumption.
    now rewrite Hsel, Hplain.
  - rewrite put_on_background_ok by assumption. now rewrite Hsel.
Qed.

(** ** [finalize] *)

Lemma finalize_ok (self : StarTrailGenerator) (bg : image) :
  consistent self -> background_image self = Some bg ->
  (20 <= trail_count self)%nat ->
  exists trail,
    trail_image self = Some trail /\
    wf_image bg /\ wf_image trail /\ same_shape bg trail = true /\
    finalize bgr2gray self
    = put_on_background bg trail (grayscale bgr2gray trail) 10.
Proof.
  unfold consistent, finalize. intros Hc Hb Hn. rewrite Hb in *.
  destruct (trail_image self) as [trail|]; [|destruct Hc; discriminate].
  destruct Hc as (Hwt & _ & Hwb & Hs).
  exists trail. repeat (split; [auto|]).
  destruct (Nat.ltb_spec (trail_count self) 20); [lia | reflexivity].
Qed.

Lemma finalize_inv (self : StarTrailGenerator) (out : image) :
  finalize bgr2gray self = Ok out ->
  exists bg, background_image self = Some bg /\
             (20 <= trail_count self)%nat.
Proof.
  unfold finalize. destruct (background_image self) as [bg|]; [|discriminate].
  destruct (Nat.ltb_spec (trail_count self) 20); [discriminate|].
  intros _. eauto.
Qed.

(** A successful [finalize] had a background image of the trail image's
    shape. *)
Lemma finalize_success (self : StarTrailGenerator) (out : image) :
  finalize bgr2gray self = Ok out ->
  exists bg trail,
    background_image self = Some bg /\
    trail_image self = Some trail /\
    same_shape bg trail = true /\
    finalize bgr2gray self
    = put_on_background bg trail (grayscale bgr2gray trail) 10.
Proof.
  unfold finalize.
  destruct (background_image self) as [bg|]; [|discriminate].
  destruct (Nat.ltb_spec (trail_count self) 20); [discriminate|].
  destruct (trail_image self) as [trail|]; [|discriminate].
  intros Hf. exists bg, trail. repeat (split; [reflexivity|]).
  split; [|reflexivity].
  destruct (same_shape bg trail) eqn:Hs; [reflexivity|].
  rewrite put_on_background_mismatch in Hf
    by auto using grayscale_same_size, grayscale_ndim3.
  discriminate.
Qed.

(** C2 (amended): [finalize] fails with [InsufficentData] when there is
    no background image, whatever the number of accepted frames; with a
    background image it fails with [InsufficentData] when fewer than 20
    frames were accepted, so with 19; with a background image and 20
    accepted frames or more it returns the composite exactly when the
    background image has the shape of the trail image, and fails with
    OpenCV's error otherwise.  The shapes agree as long as no call of
    [processImage] has raised; a frame of another shape that failed in the
    compositing may have become the background image before it failed. *)
Theorem finalize_insufficient_data (self : StarTrailGenerator) :
  (background_image self = None ->
   finalize bgr2gray self
   = Raise (InsufficentData "Background image not detected")) /\
  (background_image self <> None -> (trail_count self < 20)%nat ->
   finalize bgr2gray self
   = Raise (InsufficentData "Not enough images found to build star trail")) /\
  (background_image self <> None -> trail_count self = 19%nat ->
   finalize bgr2gray self
   = Raise (InsufficentData "Not enough images found to build star trail")) /\
  (forall bg trail,
     background_image self = Some bg -> (20 <= trail_count self)%nat ->
     trail_image self = Some trail -> wf_image trail ->
     finalize bgr2gray self
     = if same_shape bg trail
       then Ok (mkImage (height bg) (width bg) (ndim3 bg)
                  (spec_composite 10 (pixels (grayscale bgr2gray trail))
                     (pixels bg) (pixels trail)))
       else Raise cv2_error) /\
  (consistent self ->
   background_image self <> None -> (20 <= trail_count self)%nat ->
   exists out, finalize bgr2gray self = Ok out).
Proof.
  assert (Hfew : background_image self <> None ->
                 (trail_count self < 20)%nat ->
                 finalize bgr2gray self
                 = Raise (InsufficentData
                            "Not enough images found to build star trail")).
  { unfold finalize. intros Hb Hn.
    destruct (background_image self); [|congruence].
    destruct (Nat.ltb_spec (trail_count self) 20); [reflexivity | lia]. }
  split; [|split; [exact Hfew | split; [|split]]].
  - unfold finalize. now intros ->.
  - intros Hb Hn. apply Hfew; [assumption | lia].
  - intros bg trail Hb Hn Ht Hwt. unfold finalize. rewrite Hb, Ht.
    destruct (Nat.ltb_spec (trail_count self) 20); [lia|].
    destruct (same_shape bg trail) eqn:Hs.
    + apply put_on_background_ok;
        auto using grayscale_same_size, grayscale_ndim3, grayscale_nonempty.
    + apply put_on_background_mismatch;
        auto using grayscale_same_size, grayscale_ndim3.
  - intros Hc Hb Hn.
    destruct (background_image self) as [bg|] eqn:Eb; [|congruence].
    destruct (finalize_ok self bg Hc Eb Hn)
      as (trail & Ht & Hwb & Hwt & Hs & Hf).
    rewrite Hf, put_on_background_ok;
      eauto using grayscale_same_size, grayscale_ndim3, grayscale_nonempty.
Qed.

(** C5: when [finalize] succeeds, its mask marks the trail pixels whose
    grayscale value is strictly above the constant 10, whatever
    [mask_threshold] is, and the output is the background image masked by
    the complement of that mask plus the trail image masked by it, under
    saturating addition. *)
Theorem finalize_composite (self : StarTrailGenerator) (out : image) :
  consistent self ->
  finalize bgr2gray self = Ok out ->
  exists bg trail,
    background_image self = Some bg /\
    trail_image self = Some trail /\
    out = mkImage (height bg) (width bg) (ndim3 bg)
            (spec_saturating_add
               (spec_masked
                  (spec_complement
                     (spec_mask 10 (pixels (grayscale bgr2gray trail))))
                  (pixels bg))
               (spec_masked
                  (spec_mask 10 (pixels (grayscale bgr2gray trail)))
                  (pixels trail))) /\
    forall new_thold,
      finalize bgr2gray (set_mask_threshold self new_thold) = Ok out.
Proof.
  intros Hc Hf.
  destruct (finalize_inv self out Hf) as (bg & Hb & Hn).
  destruct (finalize_ok self bg Hc Hb Hn) as (trail & Ht & Hwb & Hwt & Hs & Hf').
  exists bg, trail. split; [assumption|]. split; [assumption|].
  split.
  - rewrite Hf' in Hf.
    rewrite put_on_background_ok in Hf;
      auto using grayscale_same_size, grayscale_ndim3, grayscale_nonempty.
    inversion Hf. reflexivity.
  - intros new_thold. rewrite <- Hf. reflexivity.
Qed.

(** C10: in the compositing step of [processImage] and in the composite of
    [finalize], the two masked operands of the saturating addition are
    never both non-zero at a pixel, the addition equals the plain sum (it
    never saturates), and the result is a pixelwise selection: the sample
    of the star source where the mask is set, the sample of the background
    source elsewhere. *)
Theorem composite_is_selection (self : StarTrailGenerator) :
  byte_arrays self ->
  (forall f old : image,
     wf_image f -> matches self f ->
     accepted bgr2gray self f = true ->
     trail_image (allocate self f) = Some old ->
     exists b s,
       bg_masked old (grayscale bgr2gray f) (mask_threshold self) = Ok b /\
       stars_masked f (grayscale bgr2gray f) (mask_threshold self) = Ok s /\
       (forall i, all_zero (nth i (pixels b) []) \/
                  all_zero (nth i (pixels s) [])) /\
       cv2_add b s
       = Ok (mkImage (height old) (width old) (ndim3 old)
               (map2 (map2 Z.add) (pixels b) (pixels s))) /\
       trail_image (fst (processImage bgr2gray self f))
       = Some (mkImage (height old) (width old) (ndim3 old)
                 (select (mask_threshold self)
                    (pixels (grayscale bgr2gray f))
                    (pixels old) (pixels f)))) /\
  (forall out : image,
     finalize bgr2gray self = Ok out ->
     exists bg trail b s,
       background_image self = Some bg /\
       trail_image self = Some trail /\
       bg_masked bg (grayscale bgr2gray trail) 10 = Ok b /\
       stars_masked trail (grayscale bgr2gray trail) 10 = Ok s /\
       (forall i, all_zero (nth i (pixels b) []) \/
                  all_zero (nth i (pixels s) [])) /\
       cv2_add b s
       = Ok (mkImage (height bg) (width bg) (ndim3 bg)
               (map2 (map2 Z.add) (pixels b) (pixels s))) /\
       out = mkImage (height bg) (width bg) (ndim3 bg)
               (select 10 (pixels (grayscale bgr2gray trail))
                  (pixels bg) (pixels trail))).
Proof.
  intros Hc. split.
  - intros f old Hwf Hm Ha Ht.
    destruct (allocate_matches self f Hm) as (old' & Ht' & Hs).
    assert (old' = old) by congruence. subst old'.
    pose proof (allocate_wf self f Hc Hwf old Ht) as Hwo.
    destruct (put_on_background_selects old f (grayscale bgr2gray f)
                (mask_threshold self) Hwo Hwf Hs
                (grayscale_same_size f) (grayscale_ndim3 f)
                (grayscale_nonempty f Hwf))
      as (b & s0 & Hb & Hs0 & Hd & Hadd & Hput).
    exists b, s0. repeat (split; [assumption|]).
    rewrite (processImage_accepted _ _ _ Ha Ht). cbn zeta.
    rewrite Hput. reflexivity.
  - intros out Hf.
    destruct (finalize_success self out Hf)
      as (bg & trail & Hb & Ht & Hs & Hf').
    destruct Hc as [Hct Hcb].
    pose proof (Hcb bg Hb) as Hwb. pose proof (Hct trail Ht) as Hwt.
    destruct (put_on_background_selects bg trail (grayscale bgr2gray trail)
                10 Hwb Hwt Hs
                (grayscale_same_size trail) (grayscale_ndim3 trail)
                (grayscale_nonempty trail Hwt))
      as (b & s0 & Hbm & Hsm & Hd & Hadd & Hput).
    exists bg, trail, b, s0. repeat (split; [assumption|]).
    rewrite Hf', Hput in Hf. inversion Hf. reflexivity.
Qed.

(** ** Two frames in either order *)


Lemma processImage_select (self : StarTrailGenerator) (f old : image) :
  byte_arrays self -> wf_image f -> matches self f ->
  accepted bgr2gray self f = true ->
  trail_image (allocate self f) = Some old ->
  processImage bgr2gray self f
  = (set_trail_image
       (update_background (incr_trail_count (allocate self f))
          (cv2_mean0 (grayscale bgr2gray f)) f)
       (mkImage (height old) (width old) (ndim3 old)
          (select (mask_threshold self)
             (pixels (grayscale bgr2gray f)) (pixels old) (pixels f))),
     Ok tt).
Proof.
  intros Hc Hwf Hm Ha Ht.
  destruct (allocate_matches self f Hm) as (old' & Ht' & Hs).
  assert (old' = old) by congruence. subst old'.
  pose proof (allocate_wf self f Hc Hwf old Ht) as Hwo.
  rewrite (processImage_composite _ _ _ Hwf Ha Ht Hs).
  now rewrite composite_is_select.
Qed.




(** ** The synthetic scenario *)

Lemma wf_imageb_sound (a : image) : wf_imageb a = true -> wf_image a.
Proof.
  unfold wf_imageb, wf_image. intros H.
  apply andb_true_iff in H. destruct H as [H Hp].
  apply andb_true_iff in H. destruct H as [Hpos Hl].
  apply Nat.ltb_lt in Hpos. split; [assumption|].
  apply Nat.eqb_eq in Hl. split; [assumption|].
  apply Forall_forall. intros p Hin.
  rewrite forallb_forall in Hp. specialize (Hp p Hin).
  apply andb_true_iff in Hp. destruct Hp as [Hc Hv].
  apply Nat.eqb_eq in Hc. split; [assumption|].
  apply Forall_forall. intros v Hv'.
  rewrite forallb_forall in Hv. specialize (Hv v Hv').
  apply andb_true_iff in Hv. unfold sample_ok. lia.
Qed.

Lemma consistentb_sound (self : StarTrailGenerator) :
  consistentb self = true -> consistent self.
Proof.
  unfold consistentb, consistent.
  destruct (trail_image self) as [t|].
  - intros H. apply andb_true_iff in H. destruct H as [H Hb].
    apply andb_true_iff in H. destruct H as [Hw Hc].
    split; [now apply wf_imageb_sound|]. split.
    + destruct (pixels_cutoff self); [discriminate | discriminate].
    + destruct (background_image self) as [b|]; [|exact I].
      apply andb_true_iff in Hb. destruct Hb as [Hwb Hs].
      split; [now apply wf_imageb_sound | assumption].
  - destruct (pixels_cutoff self), (background_image self);
      try discriminate. auto.
Qed.

Lemma processImage_allocate (s1 s2 : StarTrailGenerator) (f : image) :
  allocate s1 f = allocate s2 f ->
  processImage bgr2gray s1 f = processImage bgr2gray s2 f.
Proof. unfold processImage. now intros ->. Qed.

Lemma select_map {A : Type} (t : Z) (g k x : A -> pixel) (l : list A) :
  select t (map g l) (map k l) (map x l)
  = map (fun i => if sample0 (g i) >? t then x i else k i) l.
Proof. induction l as [|a l IH]; simpl; [reflexivity | now rewrite IH]. Qed.

Lemma count_map {A B : Type} (P : B -> bool) (f : A -> B) (l : list A) :
  length (filter P (map f l)) = length (filter (fun a => P (f a)) l).
Proof.
  induction l as [|a l IH]; simpl; [reflexivity|].
  destruct (P (f a)); simpl; now rewrite IH.
Qed.

(** Exactly one index of [seq a n] equals [loc] when [loc] is in range. *)
Lemma count_eqb_seq (loc : nat) :
  forall n a,
    length (filter (fun i => Nat.eqb i loc) (seq a n))
    = if (a <=? loc)%nat && (loc <? a + n)%nat then 1%nat else 0%nat.
Proof.
  induction n as [|n IH]; intros a.
  - simpl. destruct (Nat.leb_spec a loc), (Nat.ltb_spec loc (a + 0));
      simpl; auto; lia.
  - cbn [seq filter]. destruct (Nat.eqb_spec a loc) as [->|Hne].
    + cbn [length]. rewrite IH.
      destruct (Nat.leb_spec (S loc) loc); [lia|]. cbn [andb].
      destruct (Nat.leb_spec loc loc), (Nat.ltb_spec loc (loc + S n));
        simpl; auto; lia.
    + rewrite IH.
      destruct (Nat.leb_spec (S a) loc), (Nat.leb_spec a loc),
        (Nat.ltb_spec loc (S a + n)), (Nat.ltb_spec loc (a + S n));
        simpl; auto; lia.
Qed.

Lemma sum_one_hot (loc : nat) :
  forall n a,
    sum_samples (map (fun i => [if Nat.eqb i loc then 255 else 0]) (seq a n))
    = if (a <=? loc)%nat && (loc <? a + n)%nat then 255 else 0.
Proof.
  induction n as [|n IH]; intros a.
  - simpl. destruct (Nat.leb_spec a loc), (Nat.ltb_spec loc (a + 0));
      simpl; auto; lia.
  - cbn [seq map sum_samples fold_right]. fold (sum_samples
      (map (fun i => [if Nat.eqb i loc then 255 else 0]) (seq (S a) n))).
    rewrite IH. unfold sample0. cbn [nth].
    destruct (Nat.eqb_spec a loc) as [He|Hne];
      destruct (Nat.leb_spec (S a) loc), (Nat.leb_spec a loc),
        (Nat.ltb_spec loc (S a + n)), (Nat.ltb_spec loc (a + S n));
      simpl; auto; lia.
Qed.

Lemma one_hot_length (n loc : nat) : length (one_hot_pixels n loc) = n.
Proof. unfold one_hot_pixels. now rewrite length_map, length_seq. Qed.

Lemma marks_length (n : nat) (locs : list nat) : length (marks n locs) = n.
Proof. unfold marks. now rewrite length_map, length_seq. Qed.

Lemma wf_star_frame (loc : nat) : wf_image (star_frame loc).
Proof.
  unfold wf_image, star_frame. cbn [pixels height width ndim3 channels].
  split; [lia|]. split; [apply one_hot_length|].
  apply Forall_forall. intros p Hp. unfold one_hot_pixels in Hp.
  apply in_map_iff in Hp. destruct Hp as (i & <- & _).
  split; [reflexivity|]. constructor; [|constructor].
  unfold sample_ok. destruct (Nat.eqb i loc); lia.
Qed.

Lemma wf_marks (locs : list nat) :
  wf_image (mkImage 100 100 false (marks (100 * 100) locs)).
Proof.
  unfold wf_image. cbn [pixels height width ndim3 channels].
  split; [lia|]. split; [apply marks_length|].
  apply Forall_forall. intros p Hp. unfold marks in Hp.
  apply in_map_iff in Hp. destruct Hp as (i & <- & _).
  split; [reflexivity|]. constructor; [|constructor].
  unfold sample_ok. destruct (existsb (Nat.eqb i) locs); lia.
Qed.

Lemma cv2_mean0_eq (a : image) :
  pixels a <> [] ->
  cv2_mean0 a
  = float_mul (float_of_int (sum_samples (pixels a)))
      (float_div (float_of_int 1)
         (float_of_int (Z.of_nat (length (pixels a))))).
Proof. unfold cv2_mean0. destruct (pixels a); [congruence | reflexivity]. Qed.

Lemma star_frame_gray (loc : nat) :
  grayscale bgr2gray (star_frame loc) = star_frame loc.
Proof. reflexivity. Qed.

Lemma star_frame_pixels (loc : nat) :
  pixels (star_frame loc) = one_hot_pixels (100 * 100) loc.
Proof. reflexivity. Qed.

(** The mean brightness of a scenario frame is the double
    [255 * (1.0 / 10000)], which is 0.025500000000000002. *)
Lemma star_frame_mean (loc : nat) :
  (loc < 100 * 100)%nat ->
  cv2_mean0 (grayscale bgr2gray (star_frame loc))
  = S754_finite false 7349874591868650 (-58).
Proof.
  intros Hloc. rewrite star_frame_gray, cv2_mean0_eq.
  - rewrite star_frame_pixels, one_hot_length. unfold one_hot_pixels.
    rewrite sum_one_hot. cbn [Nat.leb andb Nat.add].
    destruct (Nat.ltb_spec loc (100 * 100)); [|lia].
    vm_compute. reflexivity.
  - rewrite star_frame_pixels. intros E.
    apply (f_equal (@length pixel)) in E.
    rewrite one_hot_length in E. discriminate.
Qed.

Lemma star_frame_count (loc : nat) (t : Z) :
  (loc < 100 * 100)%nat -> 0 <= t < 255 ->
  count_above (grayscale bgr2gray (star_frame loc)) t = 1%nat.
Proof.
  intros Hloc Ht. rewrite star_frame_gray. unfold count_above.
  rewrite star_frame_pixels. unfold one_hot_pixels. rewrite count_map.
  rewrite (filter_ext _ (fun i => Nat.eqb i loc)).
  - rewrite count_eqb_seq. cbn [Nat.leb andb Nat.add].
    destruct (Nat.ltb_spec loc (100 * 100)); [reflexivity | lia].
  - intros i. unfold sample0. cbn [nth].
    destruct (Nat.eqb i loc);
      [destruct (Z.gtb_spec 255 t) | destruct (Z.gtb_spec 0 t)];
      auto; lia.
Qed.

Lemma map_const_seq {A : Type} (c : A) :
  forall n a, map (fun _ => c) (seq a n) = repeat c n.
Proof.
  induction n as [|n IH]; intros a; simpl; [reflexivity | now rewrite IH].
Qed.

Lemma scenario_first (loc : nat) :
  allocate init (star_frame loc) = scenario_state 0 [].
Proof.
  unfold allocate, scenario_state, init, set_trail, numpy_zeros, marks.
  cbn [trail_image max_brightness mask_threshold pixel_cutoff_threshold
       trail_count excluded_images background_image
       background_image_brightness background_image_min_brightness
       star_frame height width ndim3 existsb].
  now rewrite map_const_seq.
Qed.

Lemma scenario_consistent (k : nat) (locs : list nat) :
  consistent (scenario_state k locs).
Proof.
  unfold consistent, scenario_state.
  cbn [trail_image pixels_cutoff background_image].
  split; [apply wf_marks|]. split; [discriminate | exact I].
Qed.

Lemma scenario_accepted (k : nat) (locs : list nat) (loc : nat) :
  (loc < 100 * 100)%nat ->
  accepted bgr2gray (scenario_state k locs) (star_frame loc) = true.
Proof.
  intros Hloc. unfold accepted, overbright, cutoff_for.
  rewrite (allocate_established (scenario_state k locs) (star_frame loc)
             (mkImage 100 100 false (marks (100 * 100) locs)))
    by reflexivity.
  rewrite star_frame_mean by assumption.
  change (mask_threshold (scenario_state k locs)) with 190.
  rewrite star_frame_count by (assumption || lia).
  change (max_brightness (scenario_state k locs)) with 50.
  change (pixels_cutoff (scenario_state k locs))
    with (Some (float_mul (float_of_int (Z.of_nat (100 * 100)))
                  (float_div float_0_1 (float_of_int 100)))).
  vm_compute. reflexivity.
Qed.

Lemma scenario_step (k : nat) (locs : list nat) (loc : nat) :
  (loc < 100 * 100)%nat ->
  processImage bgr2gray (scenario_state k locs) (star_frame loc)
  = (scenario_state (S k) (loc :: locs), Ok tt).
Proof.
  intros Hloc.
  assert (Hal : allocate (scenario_state k locs) (star_frame loc)
                = scenario_state k locs) by reflexivity.
  rewrite (processImage_select (scenario_state k locs) (star_frame loc)
             (mkImage 100 100 false (marks (100 * 100) locs))
             (consistent_byte_arrays _ (scenario_consistent k locs))
             (wf_star_frame loc)).
  - f_equal. rewrite Hal, star_frame_mean by assumption.
    unfold update_background.
    change (background_image_min_brightness
              (incr_trail_count (scenario_state k locs))) with 10.
    replace (float_gt_int (S754_finite false 7349874591868650 (-58)) 10)
      with false by (vm_compute; reflexivity).
    rewrite andb_false_r.
    unfold set_trail_image, set_trail, incr_trail_count, scenario_state.
    cbn [max_brightness mask_threshold pixel_cutoff_threshold trail_image
         trail_count pixels_cutoff excluded_images background_image
         background_image_brightness background_image_min_brightness
         height width ndim3 pixels].
    do 3 f_equal. rewrite star_frame_gray, star_frame_pixels.
    unfold one_hot_pixels, marks. rewrite select_map.
    apply map_ext. intros i. unfold sample0. cbn [nth existsb].
    destruct (Nat.eqb i loc); cbn [orb]; reflexivity.
  - reflexivity.
  - apply scenario_accepted. assumption.
  - rewrite Hal. reflexivity.
Qed.

Lemma scenario_feed :
  forall (locs : list nat) (k : nat) (acc : list nat),
    Forall (fun loc => (loc < 100 * 100)%nat) locs ->
    feed bgr2gray (scenario_state k acc) (map star_frame locs)
    = scenario_state (length locs + k) (rev locs ++ acc).
Proof.
  unfold feed.
  induction locs as [|loc locs IH]; intros k acc Hlocs; [reflexivity|].
  apply Forall_cons_iff in Hlocs. destruct Hlocs as [Hloc Hlocs].
  cbn [map fold_left]. rewrite scenario_step by assumption. cbn [fst].
  rewrite IH by assumption. cbn [length rev].
  rewrite <- app_assoc. cbn [app]. f_equal. lia.
Qed.

Lemma scenario_feed_init (locs : list nat) :
  locs <> [] ->
  Forall (fun loc => (loc < 100 * 100)%nat) locs ->
  feed bgr2gray init (map star_frame locs)
  = scenario_state (length locs) (rev locs).
Proof.
  intros Hne Hlocs. destruct locs as [|loc locs]; [congruence|].
  pose proof (scenario_feed (loc :: locs) 0 [] Hlocs) as H.
  rewrite Nat.add_0_r, app_nil_r in H. rewrite <- H.
  unfold feed. cbn [map fold_left].
  rewrite (processImage_allocate init (scenario_state 0 []) (star_frame loc))
    by (now rewrite scenario_first).
  reflexivity.
Qed.

Lemma existsb_eqb_In (i : nat) (locs : list nat) :
  existsb (Nat.eqb i) locs = true <-> In i locs.
Proof.
  rewrite existsb_exists. split.
  - intros (x & Hin & He). apply Nat.eqb_eq in He. now subst.
  - intros Hin. exists i. split; [assumption | apply Nat.eqb_refl].
Qed.

Lemma count_orb (loc : nat) (q : nat -> bool) :
  q loc = false ->
  forall l : list nat,
    length (filter (fun i => Nat.eqb i loc || q i) l)
    = (length (filter (fun i => Nat.eqb i loc) l) + length (filter q l))%nat.
Proof.
  intros Hq. induction l as [|i l IH]; [reflexivity|].
  cbn [filter]. destruct (Nat.eqb_spec i loc) as [->|Hne]; cbn [orb].
  - rewrite Hq. cbn [length]. rewrite IH. reflexivity.
  - destruct (q i); cbn [length]; rewrite IH; lia.
Qed.

(** Distinct locations in range mark as many pixels as there are
    locations. *)
Lemma marks_count (n : nat) :
  forall locs : list nat,
    NoDup locs -> Forall (fun loc => (loc < n)%nat) locs ->
    length (filter (fun i => existsb (Nat.eqb i) locs) (seq 0 n))
    = length locs.
Proof.
  induction locs as [|loc locs IH]; intros Hnd Hlocs.
  - cbn [existsb length]. induction (seq 0 n); auto.
  - apply NoDup_cons_iff in Hnd. destruct Hnd as [Hnin Hnd].
    apply Forall_cons_iff in Hlocs. destruct Hlocs as [Hloc Hlocs].
    cbn [existsb length].
    rewrite (count_orb loc (fun i => existsb (Nat.eqb i) locs)).
    + rewrite count_eqb_seq, IH by assumption. cbn [Nat.leb andb Nat.add].
      destruct (Nat.ltb_spec loc n); [reflexivity | lia].
    + destruct (existsb (Nat.eqb loc) locs) eqn:E; [|reflexivity].
      apply existsb_eqb_In in E. contradiction.
Qed.

Lemma nonzero_marks (locs : list nat) :
  NoDup locs -> Forall (fun loc => (loc < 100 * 100)%nat) locs ->
  nonzero_pixels (mkImage 100 100 false (marks (100 * 100) locs))
  = length locs.
Proof.
  intros Hnd Hlocs. unfold nonzero_pixels, marks. cbn [pixels].
  rewrite count_map.
  rewrite (filter_ext _ (fun i => existsb (Nat.eqb i) locs)).
  - now apply marks_count.
  - intros i. destruct (existsb (Nat.eqb i) locs); reflexivity.
Qed.

Lemma nth_marks (n : nat) (locs : list nat) (i : nat) :
  (i < n)%nat ->
  nth i (marks n locs) []
  = [if existsb (Nat.eqb i) locs then 255 else 0].
Proof.
  intros Hi. unfold marks.
  set (mark := fun j : nat => [if existsb (Nat.eqb j) locs then 255 else 0]).
  rewrite (nth_indep (map mark (seq 0 n)) [] (mark 0%nat))
    by (now rewrite length_map, length_seq).
  rewrite (map_nth mark), seq_nth by assumption. reflexivity.
Qed.

(** C9 (amended): feeding 25 synthetic 100 x 100 single-channel frames,
    each black except for one pixel of value 255 at a location of its own,
    accepts all 25 and excludes none, and the trail image then has exactly
    25 non-zero pixels, of value 255, at those locations; the mean
    brightness of such a frame is 255/10000, which is not above
    [background_image_min_brightness], so no background candidate is ever
    chosen and [finalize] fails with [InsufficentData].  (As a double
    the mean is [255 * (1.0 / 10000)], 7349874591868650 * 2^-58, the
    double next above 0.0255.) *)
Theorem scenario_outcome (locs : list nat) :
  length locs = 25%nat -> NoDup locs ->
  Forall (fun loc => (loc < 100 * 100)%nat) locs ->
  let self := feed bgr2gray init (map star_frame locs) in
  (forall loc, In loc locs ->
     cv2_mean0 (grayscale bgr2gray (star_frame loc))
     = S754_finite false 7349874591868650 (-58) /\
     float_gt_int (cv2_mean0 (grayscale bgr2gray (star_frame loc))) 10
     = false) /\
  trail_count self = 25%nat /\
  excluded_images self = 0%nat /\
  (exists trail,
     trail_image self = Some trail /\
     nonzero_pixels trail = 25%nat /\
     forall i, (i < 100 * 100)%nat ->
       (In i locs -> nth i (pixels trail) [] = [255]) /\
       (~ In i locs -> nth i (pixels trail) [] = [0])) /\
  background_image self = None /\
  finalize bgr2gray self
  = Raise (InsufficentData "Background image not detected").
Proof.
  intros Hlen Hnd Hlocs. cbn zeta.
  assert (Hne : locs <> []) by (intros ->; discriminate).
  rewrite (scenario_feed_init locs Hne Hlocs), Hlen.
  split.
  { intros loc Hin. rewrite Forall_forall in Hlocs.
    rewrite star_frame_mean by auto. split; reflexivity. }
  split; [reflexivity|]. split; [reflexivity|].
  split; [|split; reflexivity].
  eexists. split; [reflexivity|]. split.
  - rewrite nonzero_marks.
    + now rewrite length_rev.
    + now apply NoDup_rev.
    + now apply Forall_rev.
  - intros i Hi. cbn [pixels]. rewrite nth_marks by assumption.
    destruct (existsb (Nat.eqb i) (rev locs)) eqn:E.
    + split; [reflexivity|]. intros Hnin. exfalso. apply Hnin.
      apply existsb_eqb_In in E. now apply in_rev.
    + split; [|reflexivity]. intros Hin. exfalso.
      apply in_rev in Hin. apply existsb_eqb_In in Hin. congruence.
Qed.

Lemma diagonal_NoDup : NoDup diagonal.
Proof.
  unfold diagonal. apply NoDup_map_NoDup_ForallPairs.
  - intros i j _ _ H. lia.
  - apply seq_NoDup.
Qed.

Lemma diagonal_in_range : Forall (fun loc => (loc < 100 * 100)%nat) diagonal.
Proof.
  unfold diagonal. apply Forall_forall. intros loc Hin.
  apply in_map_iff in Hin. destruct Hin as (i & <- & Hi).
  apply in_seq in Hi. lia.
Qed.

End Properties.

(** ** Concrete instances *)

Example threshold_is_strict :
  pixels (cv2_threshold (mkImage 1 3 false [[10]; [190]; [191]]) 190)
  = [[0]; [0]; [255]].
Proof. reflexivity. Qed.

Example add_saturates :
  cv2_add (mkImage 1 2 false [[200]; [1]]) (mkImage 1 2 false [[100]; [2]])
  = Ok (mkImage 1 2 false [[255]; [3]]).
Proof. reflexivity. Qed.

(** A three-channel frame: the mask comes from the gray values 22, 72, 12
    and 0, the trail image keeps the three channels. *)
Example color_frame_composited :
  pixels (grayscale opencv_bgr2gray frame_bgr) = [[22]; [72]; [12]; [0]] /\
  processImage opencv_bgr2gray tuned frame_bgr
  = (mkGen 50 15 (float_of_int 50)
       (Some (mkImage 2 2 true [[10; 20; 30]; [60; 70; 80];
                                [0; 0; 0]; [0; 0; 0]]))
       1 (Some (float_of_int 2)) 0
       (Some frame_bgr)
       (float_div (float_of_int 53) (float_of_int 2)) 10,
     Ok tt).
Proof. split; vm_compute; reflexivity. Qed.

(** A three-channel frame after a single-channel one: the addition of the
    two masked images fails, after the counter has been incremented. *)
Example channel_mismatch_raises :
  snd (processImage opencv_bgr2gray after_one frame_bgr) = Raise cv2_error /\
  trail_count (fst (processImage opencv_bgr2gray after_one frame_bgr))
  = 2%nat.
Proof. split; reflexivity. Qed.

(** Two frames with a star at the same pixel: the later one wins. *)
Example overlapping_stars_later_wins :
  trail_image (feed opencv_bgr2gray tuned [frame_a; frame_c])
  = Some (mkImage 2 2 false [[50]; [0]; [0]; [0]]) /\
  trail_image (feed opencv_bgr2gray tuned [frame_c; frame_a])
  = Some (mkImage 2 2 false [[30]; [0]; [0]; [0]]).
Proof. split; reflexivity. Qed.

(** The mean is the double [sum * (1.0 / n)], not the quotient: 105
    pixels of value 10 have mean 10.000000000000002, which is above a
    minimum of 10, and 91 pixels of value 50 have mean 50.00000000000001,
    which is above a limit of 50; 100 pixels of value 50 have mean 50. *)
Example mean_is_rounded :
  cv2_mean0 (mkImage 1 105 false (repeat [10] 105))
  = S754_finite false 5629499534213121 (-49) /\
  float_of_int 10 = S754_finite false 5629499534213120 (-49) /\
  replaces_background opencv_bgr2gray init
    (mkImage 1 105 false (repeat [10] 105)) = true /\
  overbright opencv_bgr2gray init (mkImage 1 91 false (repeat [50] 91))
  = true /\
  overbright opencv_bgr2gray init (mkImage 1 100 false (repeat [50] 100))
  = false.
Proof. repeat split; vm_compute; reflexivity. Qed.

(** The cut-off is a product of doubles: 58 percent of 50 pixels is
    28.999999999999996, so 29 bright pixels exceed it. *)
Example cutoff_is_rounded :
  cutoff_for (set_pixel_cutoff_threshold init (float_of_int 58))
    (mkImage 1 50 false (repeat [0] 50))
  = Some (S754_finite false 8162774324609023 (-48)) /\
  float_of_int 29 = S754_finite false 8162774324609024 (-48) /\
  saturated opencv_bgr2gray
    (set_pixel_cutoff_threshold init (float_of_int 58))
    (mkImage 1 50 false (repeat [200] 29 ++ repeat [0] 21)) = true.
Proof. repeat split; vm_compute; reflexivity. Qed.


Lemma after_twenty_consistent : consistent after_twenty.
Proof. apply consistentb_sound. reflexivity. Qed.

(** A frame of the established shape is processed; a narrower frame that
    passes both filters makes OpenCV fail. *)
Lemma processImage_failure_witness :
  snd (processImage opencv_bgr2gray after_one frame_b) = Ok tt /\
  snd (processImage opencv_bgr2gray after_one frame_wide) = Raise cv2_error.
Proof.
  assert (Hc : cutoff_derived after_one) by (intros _; discriminate).
  split.
  - destruct (processImage_failure opencv_bgr2gray after_one frame_b Hc
                (wf_imageb_sound frame_b eq_refl)) as [H _].
    destruct (H eq_refl) as [Hok _]. exact Hok.
  - destruct (processImage_failure opencv_bgr2gray after_one frame_wide Hc
                (wf_imageb_sound frame_wide eq_refl)) as [_ H].
    exact (H _ eq_refl eq_refl).
Defined.

(** After a first 2 x 2 frame has established the shape, a 1 x 2 frame
    whose mean brightness is 60 is skipped for its brightness: the call
    returns normally although the dimensions disagree. *)
Lemma mismatched_frame_no_error :
  let self := fst (processImage opencv_bgr2gray init frame_a) in
  consistent self /\
  wf_image frame_wide_bright /\
  trail_image self = Some (numpy_zeros 2 2 false) /\
  same_shape (numpy_zeros 2 2 false) frame_wide_bright = false /\
  snd (processImage opencv_bgr2gray self frame_wide_bright) = Ok tt.
Proof.
  cbn zeta. split; [apply consistentb_sound; reflexivity|].
  split; [apply wf_imageb_sound; reflexivity|].
  repeat split; reflexivity.
Qed.

Lemma finalize_insufficient_data_witness :
  finalize opencv_bgr2gray init
  = Raise (InsufficentData "Background image not detected") /\
  finalize opencv_bgr2gray after_nineteen
  = Raise (InsufficentData "Not enough images found to build star trail") /\
  finalize opencv_bgr2gray after_twenty
  = Ok (mkImage 2 2 false [[30]; [40]; [12]; [12]]) /\
  finalize opencv_bgr2gray
    (fst (processImage opencv_bgr2gray after_nineteen frame_wide))
  = Raise cv2_error.
Proof.
  split; [|split; [|split]].
  - destruct (finalize_insufficient_data opencv_bgr2gray init) as [H _].
    exact (H eq_refl).
  - destruct (finalize_insufficient_data opencv_bgr2gray after_nineteen)
      as (_ & _ & H & _).
    apply H; [discriminate | reflexivity].
  - destruct (finalize_insufficient_data opencv_bgr2gray after_twenty)
      as (_ & _ & _ & H & _).
    exact (H frame_a (mkImage 2 2 false [[30]; [40]; [0]; [0]])
             eq_refl (le_n 20) eq_refl
             (wf_imageb_sound (mkImage 2 2 false [[30]; [40]; [0]; [0]])
                eq_refl)).
  - destruct (finalize_insufficient_data opencv_bgr2gray
                (fst (processImage opencv_bgr2gray after_nineteen frame_wide)))
      as (_ & _ & _ & H & _).
    exact (H frame_wide (mkImage 2 2 false [[30]; [0]; [0]; [0]])
             eq_refl (le_n 20) eq_refl
             (wf_imageb_sound (mkImage 2 2 false [[30]; [0]; [0]; [0]])
                eq_refl)).
Defined.

(** Twenty frames are counted and there is a background image, yet
    [finalize] fails, and not with [InsufficentData]: the twentieth frame,
    of another shape, passed both filters and became the background image
    before its compositing failed. *)
Lemma finalize_fails_after_failed_call :
  let self := feed opencv_bgr2gray tuned (repeat frame_a 19 ++ [frame_wide]) in
  snd (processImage opencv_bgr2gray after_nineteen frame_wide)
  = Raise cv2_error /\
  self = fst (processImage opencv_bgr2gray after_nineteen frame_wide) /\
  background_image self = Some frame_wide /\
  trail_count self = 20%nat /\
  finalize opencv_bgr2gray self = Raise cv2_error.
Proof. cbn zeta. repeat split; vm_compute; reflexivity. Qed.

Lemma compositing_update_witness :
  trail_image (fst (processImage opencv_bgr2gray after_one frame_b))
  = Some (mkImage 2 2 false [[30]; [40]; [0]; [0]]) /\
  trail_image (fst (processImage opencv_bgr2gray after_one frame_wide))
  = Some (mkImage 2 2 false [[30]; [0]; [0]; [0]]).
Proof.
  split.
  - destruct (compositing_update opencv_bgr2gray after_one frame_b
                (mkImage 2 2 false [[30]; [0]; [0]; [0]])
                (wf_imageb_sound frame_b eq_refl) eq_refl eq_refl)
      as [H _].
    exact (proj2 (H eq_refl)).
  - destruct (compositing_update opencv_bgr2gray after_one frame_wide
                (mkImage 2 2 false [[30]; [0]; [0]; [0]])
                (wf_imageb_sound frame_wide eq_refl) eq_refl eq_refl)
      as [_ H].
    exact (proj1 (proj2 (H eq_refl))).
Defined.

(** A frame that passes both filters is counted as accepted, but when its
    shape is not the trail image's the trail image is not updated by the
    compositing rule: it stays as it was. *)
Lemma accepted_frame_not_composited :
  let self' := fst (processImage opencv_bgr2gray after_one frame_wide) in
  wf_image frame_wide /\
  accepted opencv_bgr2gray after_one frame_wide = true /\
  trail_count self' = S (trail_count after_one) /\
  snd (processImage opencv_bgr2gray after_one frame_wide) = Raise cv2_error /\
  trail_image self' = trail_image after_one /\
  trail_image self'
  <> Some (mkImage 2 2 false
             (spec_composite (mask_threshold after_one)
                (pixels (grayscale opencv_bgr2gray frame_wide))
                [[30]; [0]; [0]; [0]] (pixels frame_wide))).
Proof.
  cbn zeta. split; [apply wf_imageb_sound; reflexivity|].
  repeat split; try reflexivity. vm_compute. discriminate.
Qed.

Lemma finalize_composite_witness :
  finalize opencv_bgr2gray (set_mask_threshold after_twenty 200)
  = Ok (mkImage 2 2 false [[30]; [40]; [12]; [12]]).
Proof.
  destruct (finalize_composite opencv_bgr2gray after_twenty
              (mkImage 2 2 false [[30]; [40]; [12]; [12]])
              after_twenty_consistent eq_refl)
    as (bg & trail & _ & _ & _ & H).
  exact (H 200).
Defined.

Lemma overbright_frame_skipped_witness :
  fst (processImage opencv_bgr2gray after_one frame_bright) = after_one.
Proof.
  destruct (overbright_frame_skipped opencv_bgr2gray after_one frame_bright
              eq_refl) as (_ & _ & _ & _ & _ & H).
  exact H.
Defined.

(** On the first call of a run an overbright frame allocates the trail
    image. *)
Lemma overbright_first_frame_allocates :
  overbright opencv_bgr2gray init frame_bright = true /\
  trail_image init = None /\
  trail_image (fst (processImage opencv_bgr2gray init frame_bright))
  = Some (mkImage 2 2 false [[0]; [0]; [0]; [0]]) /\
  trail_image (fst (processImage opencv_bgr2gray init frame_bright))
  <> trail_image init.
Proof. repeat split; try reflexivity. discriminate. Qed.

Lemma saturated_frame_excluded_witness :
  fst (processImage opencv_bgr2gray after_one frame_busy)
  = incr_excluded after_one.
Proof.
  destruct (saturated_frame_excluded opencv_bgr2gray after_one frame_busy
              eq_refl eq_refl) as (_ & _ & _ & _ & _ & H).
  exact H.
Defined.

(** On the first call of a run a frame excluded for its bright pixels
    allocates the trail image besides incrementing the counter. *)
Lemma saturated_first_frame_allocates :
  overbright opencv_bgr2gray init frame_flare = false /\
  saturated opencv_bgr2gray init frame_flare = true /\
  trail_image init = None /\
  excluded_images (fst (processImage opencv_bgr2gray init frame_flare))
  = 1%nat /\
  trail_image (fst (processImage opencv_bgr2gray init frame_flare))
  = Some (mkImage 2 2 false [[0]; [0]; [0]; [0]]) /\
  trail_image (fst (processImage opencv_bgr2gray init frame_flare))
  <> trail_image init.
Proof. repeat split; try reflexivity. discriminate. Qed.


Lemma composite_is_selection_witness :
  trail_image (fst (processImage opencv_bgr2gray after_twenty frame_c))
  = Some (mkImage 2 2 false [[50]; [40]; [0]; [0]]) /\
  finalize opencv_bgr2gray after_twenty
  = Ok (mkImage 2 2 false [[30]; [40]; [12]; [12]]).
Proof.
  destruct (composite_is_selection opencv_bgr2gray after_twenty
              (consistent_byte_arrays _ after_twenty_consistent))
    as [H1 H2].
  split.
  - destruct (H1 frame_c (mkImage 2 2 false [[30]; [40]; [0]; [0]])
                (wf_imageb_sound frame_c eq_refl) eq_refl eq_refl eq_refl)
      as (b & s & _ & _ & _ & _ & H).
    exact H.
  - destruct (H2 (mkImage 2 2 false [[30]; [40]; [12]; [12]]) eq_refl)
      as (bg & trail & b & s & _ & _ & _ & _ & _ & _ & H).
    reflexivity.
Defined.

Lemma scenario_outcome_witness :
  let self := feed opencv_bgr2gray init (map star_frame diagonal) in
  trail_count self = 25%nat /\
  excluded_images self = 0%nat /\
  finalize opencv_bgr2gray self
  = Raise (InsufficentData "Background image not detected").
Proof.
  destruct (scenario_outcome opencv_bgr2gray diagonal eq_refl
              diagonal_NoDup diagonal_in_range)
    as (_ & Hc & He & _ & _ & Hf).
  cbn zeta. auto.
Defined.

(** The scenario as described does not reach a composite: with black
    frames no frame is bright enough to become the background, so
    [finalize] fails; and on a uniform background of brightness 20, where
    it succeeds, no pixel of the output is zero. *)
Lemma scenario_has_no_composite :
  (let self := feed opencv_bgr2gray init (map star_frame diagonal) in
   cv2_mean0 (star_frame 0) = S754_finite false 7349874591868650 (-58) /\
   trail_count self = 25%nat /\
   is_ok (finalize opencv_bgr2gray self) = false) /\
  (let self := feed opencv_bgr2gray init (map (star_frame_on 20) diagonal) in
   trail_count self = 25%nat /\
   exists out, finalize opencv_bgr2gray self = Ok out /\
               nonzero_pixels out = (100 * 100)%nat).
Proof.
  split; cbn zeta.
  - rewrite (scenario_feed_init opencv_bgr2gray diagonal)
      by (discriminate || apply diagonal_in_range).
    split; [|split; reflexivity].
    rewrite <- (star_frame_gray opencv_bgr2gray 0), star_frame_mean by lia.
    reflexivity.
  - split; [vm_compute; reflexivity|].
    eexists. split; vm_compute; reflexivity.
Qed.

(** ** What a run keeps fixed *)

Section Run.

Variable bgr2gray : Z -> Z -> Z -> Z.
Variable has_encoder : string -> bool.

Lemma put_on_background_shape (bg fg gray r : image) (t : Z) :
  put_on_background bg fg gray t = Ok r ->
  height r = height bg /\ width r = width bg /\ ndim3 r = ndim3 bg.
Proof.
  unfold put_on_background, bg_masked, stars_masked, cv2_bitwise_and, cv2_add.
  destruct (same_shape bg bg && _ && _); [|discriminate]. cbn [bind].
  destruct (same_shape fg fg && _ && _); [|discriminate]. cbn [bind].
  destruct (same_shape _ _); [|discriminate].
  intros H. inversion H. auto.
Qed.

(** Everything one call can do to the object, whatever the frame. *)
Lemma processImage_frame (s : StarTrailGenerator) (f : image) :
  let s' := fst (processImage bgr2gray s f) in
  (max_brightness s' = max_brightness s /\
   mask_threshold s' = mask_threshold s /\
   pixel_cutoff_threshold s' = pixel_cutoff_threshold s /\
   background_image_min_brightness s' = background_image_min_brightness s) /\
  pixels_cutoff s' = pixels_cutoff (allocate s f) /\
  (exists t t',
     trail_image (allocate s f) = Some t /\ trail_image s' = Some t' /\
     height t' = height t /\ width t' = width t /\ ndim3 t' = ndim3 t) /\
  (trail_count s <= trail_count s' /\
   excluded_images s <= excluded_images s' /\
   trail_count s' + excluded_images s'
   <= S (trail_count s + excluded_images s))%nat.
Proof.
  cbn zeta.
  destruct (allocate_config s f) as (Hmax & Hthr & Hpct & Hmin).
  destruct (allocate_counters s f) as (Htc & Hex & _ & _).
  destruct (allocate_trail_some s f) as [t Ht].
  unfold processImage.
  destruct (float_gt_int _ _).
  { cbn [fst]. repeat split; try congruence; try lia.
    exists t, t. auto. }
  destruct (pixels_cutoff (allocate s f)) as [c|] eqn:Hc.
  2:{ cbn [fst]. repeat split; try congruence; try lia.
      exists t, t. auto. }
  destruct (float_lt _ _).
  { cbn [fst incr_excluded max_brightness mask_threshold
         pixel_cutoff_threshold background_image_min_brightness
         pixels_cutoff trail_image trail_count excluded_images].
    repeat split; try congruence; try lia.
    exists t, t. auto. }
  destruct (update_background_fields (incr_trail_count (allocate s f))
              (cv2_mean0 (grayscale bgr2gray f)) f)
    as (Ut & Uc & Un & Ue & Umax & Uthr & Upct & Umin).
  rewrite Ut. cbn [incr_trail_count trail_image]. rewrite Ht.
  destruct (put_on_background _ _ _ _) as [r|e] eqn:Hput; cbn [fst].
  - apply put_on_background_shape in Hput.
    cbn [set_trail_image set_trail max_brightness mask_threshold
         pixel_cutoff_threshold background_image_min_brightness
         pixels_cutoff trail_image trail_count excluded_images].
    rewrite Umax, Uthr, Upct, Umin, Uc, Un, Ue.
    cbn [incr_trail_count max_brightness mask_threshold
         pixel_cutoff_threshold background_image_min_brightness
         pixels_cutoff trail_image trail_count excluded_images].
    repeat split; try congruence; try lia.
    exists t, r. tauto.
  - rewrite Umax, Uthr, Upct, Umin, Uc, Un, Ue, Ut.
    cbn [incr_trail_count max_brightness mask_threshold
         pixel_cutoff_threshold background_image_min_brightness
         pixels_cutoff trail_image trail_count excluded_images].
    repeat split; try congruence; try lia.
    exists t, t. auto.
Qed.

(** The cut-off stays set once the trail image is, whether a call
    returns or raises: every object a run reaches from a fresh one has
    it. *)
Lemma processImage_cutoff_derived (s : StarTrailGenerator) (f : image) :
  cutoff_derived s -> cutoff_derived (fst (processImage bgr2gray s f)).
Proof.
  intros H _. destruct (processImage_frame s f) as (_ & -> & _).
  exact (cutoff_for_derived s f H).
Qed.

Lemma feed_cutoff_derived (frames : list image) :
  forall s : StarTrailGenerator,
    cutoff_derived s -> cutoff_derived (feed bgr2gray s frames).
Proof.
  unfold feed. induction frames as [|f frames IH]; intros s H; [exact H|].
  cbn [fold_left]. apply IH. now apply processImage_cutoff_derived.
Qed.

Lemma feed_cons (s : StarTrailGenerator) (f : image) (frames : list image) :
  feed bgr2gray s (f :: frames)
  = feed bgr2gray (fst (processImage bgr2gray s f)) frames.
Proof. reflexivity. Qed.

Lemma feed_app (s : StarTrailGenerator) (l1 l2 : list image) :
  feed bgr2gray s (l1 ++ l2) = feed bgr2gray (feed bgr2gray s l1) l2.
Proof. unfold feed. apply fold_left_app. Qed.

(** X1: once the trail image exists, no sequence of calls changes its
    height, width or channel count; before it exists, the first frame of a
    sequence fixes them, whether that frame is accepted or not. *)
Theorem trail_shape_fixed (s : StarTrailGenerator) (frames : list image) :
  (forall t, trail_image s = Some t ->
     exists t', trail_image (feed bgr2gray s frames) = Some t' /\
                height t' = height t /\ width t' = width t /\
                ndim3 t' = ndim3 t) /\
  (forall f, trail_image s = None ->
     exists t', trail_image (feed bgr2gray s (f :: frames)) = Some t' /\
                height t' = height f /\ width t' = width f /\
                ndim3 t' = ndim3 f).
Proof.
  assert (Hest : forall frames s t, trail_image s = Some t ->
            exists t', trail_image (feed bgr2gray s frames) = Some t' /\
                       height t' = height t /\ width t' = width t /\
                       ndim3 t' = ndim3 t).
  { clear. induction frames as [|f frames IH]; intros s t Ht.
    - exists t. auto.
    - rewrite feed_cons.
      destruct (processImage_frame s f) as (_ & _ & (t0 & t1 & Ha & H1 & Hd) & _).
      rewrite (allocate_established s f t Ht) in Ha.
      assert (t0 = t) by congruence. subst t0.
      destruct (IH _ _ H1) as (t' & Ht' & Hd').
      exists t'. split; [assumption|]. intuition congruence. }
  split; [apply Hest|].
  intros f Hn. rewrite feed_cons.
  destruct (processImage_frame s f) as (_ & _ & (t0 & t1 & Ha & H1 & Hd) & _).
  unfold allocate in Ha. rewrite Hn in Ha. cbn in Ha.
  inversion Ha as [E]. rewrite <- E in Hd. cbn in Hd.
  destruct (Hest frames _ _ H1) as (t' & Ht' & Hd').
  exists t'. split; [assumption|]. intuition congruence.
Qed.

Lemma feed_counters (frames : list image) :
  forall s : StarTrailGenerator,
    (trail_count s <= trail_count (feed bgr2gray s frames))%nat /\
    (excluded_images s <= excluded_images (feed bgr2gray s frames))%nat /\
    (trail_count (feed bgr2gray s frames)
     + excluded_images (feed bgr2gray s frames)
     <= trail_count s + excluded_images s + length frames)%nat.
Proof.
  induction frames as [|f frames IH]; intros s.
  - cbn. lia.
  - rewrite feed_cons.
    destruct (processImage_frame s f) as (_ & _ & _ & H1 & H2 & H3).
    destruct (IH (fst (processImage bgr2gray s f))) as (I1 & I2 & I3).
    cbn [length]. lia.
Qed.

(** X2: each call increments at most one of the two counters, by one, and
    never decrements either: after any sequence of calls the accepted and
    the excluded frames together are at most the frames fed. *)
Theorem counters_bounded (s : StarTrailGenerator) (frames : list image) :
  (trail_count s <= trail_count (feed bgr2gray s frames))%nat /\
  (excluded_images s <= excluded_images (feed bgr2gray s frames))%nat /\
  (trail_count (feed bgr2gray s frames)
   + excluded_images (feed bgr2gray s frames)
   <= trail_count s + excluded_images s + length frames)%nat.
Proof. apply feed_counters. Qed.

Lemma processImage_set_cutoff (s : StarTrailGenerator) (t f : image)
  (p : float) :
  trail_image s = Some t ->
  processImage bgr2gray (set_pixel_cutoff_threshold s p) f
  = (set_pixel_cutoff_threshold (fst (processImage bgr2gray s f)) p,
     snd (processImage bgr2gray s f)).
Proof.
  intros Ht. unfold processImage, allocate.
  cbn [set_pixel_cutoff_threshold trail_image]. rewrite Ht.
  cbn [set_pixel_cutoff_threshold max_brightness mask_threshold
       pixels_cutoff].
  destruct (float_gt_int _ _); [reflexivity|].
  destruct (pixels_cutoff s); [|reflexivity].
  destruct (float_lt _ _); [reflexivity|].
  unfold update_background.
  cbn [incr_trail_count background_image_brightness
       background_image_min_brightness].
  destruct (_ && _);
    cbn [set_background incr_trail_count trail_image mask_threshold
         set_pixel_cutoff_threshold];
    rewrite Ht; destruct (put_on_background _ _ _ _); reflexivity.
Qed.

(** X3: the cut-off in pixels is derived once, on the first call, and no
    later call changes it or any of the configured thresholds; so
    assigning [pixel_cutoff_threshold] once the trail image exists changes
    nothing in what any later sequence of calls does. *)
Theorem pixel_cutoff_derived_once (s : StarTrailGenerator) (t : image)
  (frames : list image) (p : float) :
  trail_image s = Some t ->
  pixels_cutoff (feed bgr2gray s frames) = pixels_cutoff s /\
  max_brightness (feed bgr2gray s frames) = max_brightness s /\
  mask_threshold (feed bgr2gray s frames) = mask_threshold s /\
  background_image_min_brightness (feed bgr2gray s frames)
  = background_image_min_brightness s /\
  feed bgr2gray (set_pixel_cutoff_threshold s p) frames
  = set_pixel_cutoff_threshold (feed bgr2gray s frames) p.
Proof.
  revert s t. induction frames as [|f frames IH]; intros s t Ht.
  - repeat split; reflexivity.
  - rewrite !feed_cons.
    destruct (processImage_frame s f)
      as ((Hmax & Hthr & _ & Hmin) & Hc & (t0 & t1 & _ & H1 & _) & _).
    rewrite (allocate_established s f t Ht) in Hc.
    destruct (IH _ _ H1) as (I1 & I2 & I3 & I4 & I5).
    rewrite (processImage_set_cutoff s t f p Ht). cbn [fst].
    repeat split; congruence.
Qed.

(** X4: a call that fails is not undone.  When a frame of another shape
    passes both filters, the call raises only after [trail_count] has been
    incremented and the background candidate possibly replaced, while the
    trail image is untouched; if that frame did become the background and
    twenty frames are now counted, [finalize] itself raises OpenCV's
    error. *)
Theorem failed_call_is_not_undone (s : StarTrailGenerator) (t f : image) :
  wf_image f ->
  trail_image s = Some t -> same_shape t f = false ->
  accepted bgr2gray s f = true ->
  let s' := fst (processImage bgr2gray s f) in
  snd (processImage bgr2gray s f) = Raise cv2_error /\
  trail_count s' = S (trail_count s) /\
  excluded_images s' = excluded_images s /\
  trail_image s' = Some t /\
  (replaces_background bgr2gray s f = true ->
   background_image s' = Some f /\
   ((19 <= trail_count s)%nat -> finalize bgr2gray s' = Raise cv2_error)).
Proof.
  intros Hwf Ht Hs Ha. cbn zeta.
  assert (Hal : allocate s f = s) by (eapply allocate_established; eauto).
  pose proof (processImage_background bgr2gray s f) as Hbg. cbn zeta in Hbg.
  rewrite (processImage_accepted bgr2gray s f t Ha) in * by (now rewrite Hal).
  cbn zeta in *.
  rewrite put_on_background_mismatch in *
    by auto using grayscale_same_size, grayscale_ndim3.
  cbn [fst snd] in *. rewrite Hal in *.
  destruct (update_background_fields (incr_trail_count s)
              (cv2_mean0 (grayscale bgr2gray f)) f)
    as (Ut & _ & Un & Ue & _).
  rewrite Ut, Un, Ue. cbn [incr_trail_count trail_image trail_count
                             excluded_images].
  repeat (split; [reflexivity || assumption|]).
  intros Hr. rewrite Hr in Hbg. destruct Hbg as [_ Hb].
  split; [assumption|]. intros Hn.
  unfold finalize. rewrite Hb, Un, Ut.
  cbn [incr_trail_count trail_image trail_count]. rewrite Ht.
  destruct (Nat.ltb_spec (S (trail_count s)) 20); [lia|].
  apply put_on_background_mismatch;
    auto using grayscale_same_size, grayscale_ndim3.
  rewrite same_shape_sym. assumption.
Qed.

(** ** Where the pixels of the trail image come from *)

Lemma allocate_idem (s : StarTrailGenerator) (f : image) :
  allocate (allocate s f) f = allocate s f.
Proof. unfold allocate. destruct (trail_image s) eqn:E; cbn; now rewrite ?E. Qed.

Lemma feed_allocate (s : StarTrailGenerator) (f : image)
  (frames : list image) :
  feed bgr2gray s (f :: frames) = feed bgr2gray (allocate s f) (f :: frames).
Proof.
  rewrite !feed_cons.
  rewrite (processImage_allocate bgr2gray s (allocate s f) f); [reflexivity|].
  now rewrite allocate_idem.
Qed.

Lemma allocate_is_consistent (s : StarTrailGenerator) (f : image) :
  consistent s -> wf_image f -> matches s f -> consistent (allocate s f).
Proof.
  intros Hc Hwf Hm.
  destruct (allocate_consistent s f Hc Hwf Hm)
    as (old & cutoff & Ht & Hcut & Hwo & _ & Hb).
  destruct (allocate_counters s f) as (_ & _ & Hbg & _).
  unfold consistent. rewrite Ht, Hcut, Hbg.
  split; [assumption|]. split; [discriminate | assumption].
Qed.

Lemma processImage_pixel (s : StarTrailGenerator) (t f : image) :
  consistent s -> wf_image f -> trail_image s = Some t ->
  same_shape t f = true ->
  exists t',
    trail_image (fst (processImage bgr2gray s f)) = Some t' /\
    forall i, (i < height t * width t)%nat ->
      nth i (pixels t') [] = nth i (pixels t) [] \/
      (star bgr2gray (mask_threshold s) f i = true /\
       nth i (pixels t') [] = nth i (pixels f) []).
Proof.
  intros Hc Hwf Ht Hs.
  assert (Hal : allocate s f = s) by (eapply allocate_established; eauto).
  assert (Hm : matches s f) by (unfold matches; now rewrite Ht).
  assert (Hne : cutoff_for s f <> None).
  { unfold cutoff_for. rewrite Hal. unfold consistent in Hc.
    rewrite Ht in Hc. tauto. }
  destruct (filter_cases bgr2gray s f Hne)
    as [Ho | [(Ho & Hsat & _) | (_ & _ & Ha)]].
  - rewrite (processImage_overbright _ _ _ Ho), Hal. cbn [fst]. eauto.
  - rewrite (processImage_saturated _ _ _ Ho Hne Hsat), Hal. cbn [fst].
    cbn [incr_excluded trail_image]. eauto.
  - rewrite (processImage_select bgr2gray s f t
               (consistent_byte_arrays _ Hc) Hwf Hm Ha)
      by (now rewrite Hal).
    cbn [fst set_trail_image set_trail trail_image].
    eexists. split; [reflexivity|]. intros i Hi. cbn [pixels].
    assert (Lt : length (pixels t) = (height t * width t)%nat).
    { unfold consistent in Hc. rewrite Ht in Hc. apply Hc. }
    assert (Lf : length (pixels f) = (height t * width t)%nat).
    { destruct Hwf as (_ & -> & _). apply same_shape_iff in Hs.
      intuition congruence. }
    rewrite nth_select
      by (rewrite ?grayscale_length; congruence).
    unfold star.
    destruct (sample0 (nth i (pixels (grayscale bgr2gray f)) [])
              >? mask_threshold s); auto.
Qed.

Lemma feed_pixels :
  forall (frames : list image) (s : StarTrailGenerator) (t : image),
    consistent s -> trail_image s = Some t ->
    Forall (fun f => wf_image f /\ same_shape t f = true) frames ->
    exists t',
      trail_image (feed bgr2gray s frames) = Some t' /\
      forall i, (i < height t * width t)%nat ->
        nth i (pixels t') [] = nth i (pixels t) [] \/
        exists f, In f frames /\
                  star bgr2gray (mask_threshold s) f i = true /\
                  nth i (pixels t') [] = nth i (pixels f) [].
Proof.
  induction frames as [|f frames IH]; intros s t Hc Ht Hfr.
  - exists t. split; [assumption | auto].
  - apply Forall_cons_iff in Hfr. destruct Hfr as [[Hwf Hs] Hfr].
    rewrite feed_cons.
    assert (Hm : matches s f) by (unfold matches; now rewrite Ht).
    destruct (processImage_consistent bgr2gray s f Hc Hwf Hm)
      as (_ & Hc1 & (t1 & Ht1 & Hs1)).
    destruct (processImage_pixel s t f Hc Hwf Ht Hs) as (t1' & Ht1' & Hpx).
    assert (t1' = t1) by congruence. subst t1'.
    destruct (processImage_frame s f) as ((_ & Hthr & _) & _).
    assert (Hdim : (height t1 * width t1 = height t * width t)%nat).
    { apply same_shape_iff in Hs. apply same_shape_iff in Hs1.
      destruct Hs as (-> & -> & _). destruct Hs1 as (-> & -> & _).
      reflexivity. }
    destruct (IH _ t1 Hc1 Ht1) as (t' & Ht' & Hpx').
    + eapply Forall_impl; [|exact Hfr]. intros g [Hwg Hsg].
      split; [assumption|].
      eapply same_shape_trans; [exact Hs1|].
      eapply same_shape_trans; [|exact Hsg].
      now rewrite same_shape_sym.
    + exists t'. split; [assumption|]. intros i Hi.
      rewrite <- Hdim in Hi.
      destruct (Hpx' i Hi) as [E | (g & Hin & Hst & E)].
      * rewrite Hdim in Hi. rewrite E.
        destruct (Hpx i Hi) as [E1 | [Hst E1]]; [now left|].
        right. exists f. split; [now left|]. auto.
      * right. exists g. split; [now right|].
        rewrite <- Hthr. auto.
Qed.

(** X5: the trail image never holds an invented value.  After any
    sequence of well-formed frames of the established shape, every pixel
    of the trail image is the pixel it was before the sequence, or the
    pixel, at the same position, of one of the frames in which that
    position is a star pixel; in a fresh run every pixel is black or such a
    star pixel. *)
Theorem trail_pixels_come_from_frames (s : StarTrailGenerator) (f0 : image)
  (frames : list image) :
  consistent s -> matches s f0 ->
  Forall (fun f => wf_image f /\ same_shape f0 f = true) (f0 :: frames) ->
  exists t0 t',
    trail_image (allocate s f0) = Some t0 /\
    (trail_image s = None ->
     t0 = numpy_zeros (height f0) (width f0) (ndim3 f0)) /\
    (forall t, trail_image s = Some t -> t0 = t) /\
    trail_image (feed bgr2gray s (f0 :: frames)) = Some t' /\
    forall i, (i < height f0 * width f0)%nat ->
      nth i (pixels t') [] = nth i (pixels t0) [] \/
      exists f, In f (f0 :: frames) /\
                star bgr2gray (mask_threshold s) f i = true /\
                nth i (pixels t') [] = nth i (pixels f) [].
Proof.
  intros Hc Hm Hfr.
  assert (Hwf0 : wf_image f0).
  { apply Forall_cons_iff in Hfr. tauto. }
  destruct (allocate_consistent s f0 Hc Hwf0 Hm)
    as (t0 & cutoff & Ht0 & _ & _ & Hs0 & _).
  pose proof (allocate_is_consistent s f0 Hc Hwf0 Hm) as Hc0.
  destruct (feed_pixels (f0 :: frames) (allocate s f0) t0 Hc0 Ht0)
    as (t' & Ht' & Hpx).
  { eapply Forall_impl; [|exact Hfr]. intros g [Hwg Hsg].
    split; [assumption|]. eapply same_shape_trans; eauto. }
  exists t0, t'. split; [assumption|]. split; [|split; [|split]].
  - intros Hn. unfold allocate in Ht0. rewrite Hn in Ht0. cbn in Ht0.
    congruence.
  - intros t Ht. rewrite (allocate_established s f0 t Ht) in Ht0. congruence.
  - now rewrite feed_allocate.
  - intros i Hi.
    assert (Hd : (height t0 * width t0 = height f0 * width f0)%nat).
    { apply same_shape_iff in Hs0. destruct Hs0 as (-> & -> & _).
      reflexivity. }
    rewrite <- Hd in Hi. destruct (Hpx i Hi) as [E | (g & Hin & Hst & E)].
    + now left.
    + right. exists g. split; [assumption|].
      destruct (allocate_config s f0) as (_ & <- & _). auto.
Qed.

(** ** Which frame becomes the background *)

Lemma accepted_stable (s : StarTrailGenerator) (t g f : image) :
  trail_image s = Some t ->
  accepted bgr2gray (fst (processImage bgr2gray s g)) f
  = accepted bgr2gray s f.
Proof.
  intros Ht.
  destruct (processImage_frame s g)
    as ((Hmax & Hthr & _) & Hc & (t0 & t1 & _ & H1 & _) & _).
  rewrite (allocate_established s g t Ht) in Hc.
  unfold accepted, overbright, cutoff_for.
  rewrite (allocate_established _ f t1 H1),
    (allocate_established s f t Ht).
  now rewrite Hmax, Hthr, Hc.
Qed.

Lemma lt_lowered (m x y : float) :
  float_lt m x = true -> lowered x y -> float_lt m y = true.
Proof.
  intros Hm [-> | Hxy]; [assumption|].
  eapply float_lt_trans; eassumption.
Qed.

Lemma not_lt_lowered (m x y : float) :
  float_lt m y = false -> lowered x y -> float_lt m x = false.
Proof.
  intros Hm Hl. destruct (float_lt m x) eqn:E; [|reflexivity].
  rewrite (lt_lowered m x y E Hl) in Hm. discriminate.
Qed.

Lemma processImage_lowered (s : StarTrailGenerator) (f : image) :
  lowered (background_image_brightness (fst (processImage bgr2gray s f)))
    (background_image_brightness s).
Proof.
  pose proof (processImage_background bgr2gray s f) as H. cbn zeta in H.
  destruct (replaces_background bgr2gray s f) eqn:Hr.
  - destruct H as [-> _]. unfold replaces_background in Hr.
    apply andb_true_iff in Hr. destruct Hr as [_ Hr]. now right.
  - destruct H as [-> _]. apply lowered_refl.
Qed.

Lemma feed_score_le (frames : list image) :
  forall s : StarTrailGenerator,
    lowered (background_image_brightness (feed bgr2gray s frames))
      (background_image_brightness s).
Proof.
  induction frames as [|f frames IH]; intros s; [apply lowered_refl|].
  rewrite feed_cons. eapply lowered_trans; [apply IH|].
  apply processImage_lowered.
Qed.

Lemma feed_lowest :
  forall (frames : list image) (s : StarTrailGenerator) (t f : image),
    trail_image s = Some t -> In f frames ->
    accepted bgr2gray s f = true ->
    float_gt_int (cv2_mean0 (grayscale bgr2gray f))
      (background_image_min_brightness s) = true ->
    float_lt (cv2_mean0 (grayscale bgr2gray f))
      (background_image_brightness (feed bgr2gray s frames)) = false.
Proof.
  induction frames as [|g frames IH]; intros s t f Ht Hin Ha Hmin;
    [contradiction|].
  rewrite feed_cons.
  destruct (processImage_frame s g)
    as ((_ & _ & _ & Hmin') & _ & (t0 & t1 & _ & H1 & _) & _).
  destruct Hin as [-> | Hin].
  - eapply not_lt_lowered; [|apply feed_score_le].
    pose proof (processImage_background bgr2gray s f) as H. cbn zeta in H.
    unfold replaces_background in H. rewrite Ha, Hmin in H. cbn [andb] in H.
    destruct (float_lt (cv2_mean0 (grayscale bgr2gray f))
                (background_image_brightness s)) eqn:E.
    + destruct H as [-> _]. apply float_lt_irrefl.
    + destruct H as [-> _]. exact E.
  - apply (IH _ t1); auto.
    + now rewrite (accepted_stable s t g f Ht).
    + now rewrite Hmin'.
Qed.

Lemma feed_background :
  forall (frames : list image) (s : StarTrailGenerator) (t : image),
    trail_image s = Some t ->
    (background_image (feed bgr2gray s frames) = background_image s /\
     background_image_brightness (feed bgr2gray s frames)
     = background_image_brightness s) \/
    exists b,
      In b frames /\
      background_image (feed bgr2gray s frames) = Some b /\
      background_image_brightness (feed bgr2gray s frames)
      = cv2_mean0 (grayscale bgr2gray b) /\
      accepted bgr2gray s b = true /\
      float_gt_int (cv2_mean0 (grayscale bgr2gray b))
        (background_image_min_brightness s) = true /\
      float_lt (cv2_mean0 (grayscale bgr2gray b))
        (background_image_brightness s) = true.
Proof.
  induction frames as [|g frames IH]; intros s t Ht; [left; auto|].
  rewrite feed_cons.
  destruct (processImage_frame s g)
    as ((_ & _ & _ & Hmin') & _ & (t0 & t1 & _ & H1 & _) & _).
  pose proof (processImage_background bgr2gray s g) as H. cbn zeta in H.
  destruct (IH _ t1 H1) as [[Eb Es] | (b & Hin & Eb & Es & Ha & Hlo & Hhi)].
  - destruct (replaces_background bgr2gray s g) eqn:Hr.
    + right. exists g. destruct H as [Hs Hb].
      unfold replaces_background in Hr.
      apply andb_true_iff in Hr. destruct Hr as [Hr H2].
      apply andb_true_iff in Hr. destruct Hr as [Hacc H3].
      split; [now left|]. repeat split; try congruence; assumption.
    + left. destruct H as [Hs Hb]. split; congruence.
  - right. exists b. split; [now right|].
    rewrite (accepted_stable s t g b Ht) in Ha. rewrite Hmin' in Hlo.
    repeat split; try assumption.
    eapply lt_lowered; [exact Hhi | apply processImage_lowered].
Qed.

(** X6: the background is a frame of lowest mean brightness.  Over any
    sequence of calls (acceptance taken at the state the first call
    works on), either the background candidate and its score are what
    they were, or the candidate is one of the frames fed, one that passed
    both filters, whose mean brightness is the score and lies strictly
    between the minimum and the previous score; and no frame of the
    sequence that passed both filters and is brighter than the minimum
    has a mean brightness below the final score. *)
Theorem background_is_lowest (s : StarTrailGenerator) (f0 : image)
  (frames : list image) :
  let s0 := allocate s f0 in
  let final := feed bgr2gray s (f0 :: frames) in
  ((background_image final = background_image s /\
    background_image_brightness final = background_image_brightness s) \/
   exists b,
     In b (f0 :: frames) /\
     background_image final = Some b /\
     background_image_brightness final = cv2_mean0 (grayscale bgr2gray b) /\
     accepted bgr2gray s0 b = true /\
     float_gt_int (cv2_mean0 (grayscale bgr2gray b))
       (background_image_min_brightness s) = true /\
     float_lt (cv2_mean0 (grayscale bgr2gray b))
       (background_image_brightness s) = true) /\
  (forall f,
     In f (f0 :: frames) -> accepted bgr2gray s0 f = true ->
     float_gt_int (cv2_mean0 (grayscale bgr2gray f))
       (background_image_min_brightness s) = true ->
     float_lt (cv2_mean0 (grayscale bgr2gray f))
       (background_image_brightness final) = false).
Proof.
  cbn zeta. rewrite feed_allocate.
  destruct (allocate_trail_some s f0) as [t0 Ht0].
  destruct (allocate_counters s f0) as (_ & _ & Hbg & Hsc).
  destruct (allocate_config s f0) as (_ & _ & _ & Hmin).
  split.
  - destruct (feed_background (f0 :: frames) (allocate s f0) t0 Ht0)
      as [[Eb Es] | (b & Hin & Eb & Es & Ha & Hlo & Hhi)].
    + left. split; congruence.
    + right. exists b. rewrite Hmin in Hlo. rewrite Hsc in Hhi.
      repeat split; assumption.
  - intros f Hin Ha Hlo. apply (feed_lowest _ _ t0); auto.
    now rewrite Hmin.
Qed.

(** ** A trail image without trail *)

Lemma select_none (t : Z) :
  forall gray kept taken : list pixel,
    (forall g, In g gray -> sample0 g <= t) ->
    length kept = length gray -> length taken = length gray ->
    select t gray kept taken = kept.
Proof.
  induction gray as [|g gray IH]; intros [|k kept] [|x taken] Hg Hk Hx;
    simpl in *; try discriminate; auto.
  destruct (Z.gtb_spec (sample0 g) t) as [Hgt|_].
  - specialize (Hg g (or_introl eq_refl)). lia.
  - f_equal. apply IH; auto.
Qed.

(** X7: when no pixel of the trail image is brighter than 10 in
    grayscale (no star was ever painted, or only dim ones), a successful
    [finalize] writes the background image itself, unchanged. *)
Theorem finalize_without_trail (s : StarTrailGenerator) (trail out : image) :
  consistent s -> trail_image s = Some trail ->
  (forall g, In g (pixels (grayscale bgr2gray trail)) -> sample0 g <= 10) ->
  finalize bgr2gray s = Ok out ->
  background_image s = Some out.
Proof.
  intros Hc Ht Hdark Hf.
  destruct (finalize_inv bgr2gray s out Hf) as (bg & Hb & Hn).
  destruct (finalize_ok bgr2gray s bg Hc Hb Hn)
    as (trail' & Ht' & Hwb & Hwt & Hs & Hf').
  assert (trail' = trail) by congruence. subst trail'.
  destruct (put_on_background_selects bgr2gray bg trail (grayscale bgr2gray trail)
              10 Hwb Hwt Hs
              (grayscale_same_size bgr2gray trail)
              (grayscale_ndim3 bgr2gray trail)
              (grayscale_nonempty bgr2gray trail Hwt))
    as (b & s0 & _ & _ & _ & _ & Hput).
  rewrite Hf', Hput in Hf. inversion Hf as [E].
  rewrite select_none.
  - rewrite Hb. now destruct bg.
  - assumption.
  - rewrite grayscale_length. destruct Hwb as (_ & -> & _).
    destruct Hwt as (_ & -> & _). apply same_shape_iff in Hs.
    destruct Hs as (-> & -> & _). reflexivity.
  - now rewrite grayscale_length.
Qed.

(** ** Discovery and order of the files *)

Lemma entry_induction (P : entry -> Prop) :
  (forall f, P (File f)) ->
  (forall name children, Forall P children -> P (Dir name children)) ->
  (forall name, P (Other name)) ->
  forall item, P item.
Proof.
  intros HF HD HO. fix IH 1. intros [f|name children|name].
  - apply HF.
  - apply HD. induction children as [|c cs IHcs]; constructor;
      [apply IH | apply IHcs].
  - apply HO.
Qed.

Lemma fold_visit (extension_list : list string) (children : list entry) :
  Forall (fun c => forall acc,
            visit extension_list c acc
            = acc ++ filter (has_extension extension_list) (files_of c))
    children ->
  forall acc,
    fold_left (fun acc c => visit extension_list c acc) children acc
    = acc ++ filter (has_extension extension_list)
               (flat_map files_of children).
Proof.
  induction 1 as [|c cs Hc _ IH]; intros acc; cbn [fold_left flat_map].
  - now rewrite app_nil_r.
  - rewrite IH, Hc, filter_app, app_assoc. reflexivity.
Qed.

Lemma visit_appends (extension_list : list string) (item : entry) :
  forall acc,
    visit extension_list item acc
    = acc ++ filter (has_extension extension_list) (files_of item).
Proof.
  induction item as [f|name children IH|name] using entry_induction;
    intros acc; cbn [visit files_of].
  - unfold has_extension. cbn [filter].
    destruct (existsb _ _); [reflexivity | now rewrite app_nil_r].
  - now apply fold_visit.
  - cbn. now rewrite app_nil_r.
Qed.

Lemma getFolderFilesByExt_appends_nil (folder : list entry) :
  getFolderFilesByExt folder [] None
  = filter (has_extension ["jpg"%string]) (files_under folder).
Proof.
  unfold getFolderFilesByExt, files_under.
  rewrite fold_visit; [reflexivity|].
  apply Forall_forall. intros c _. apply visit_appends.
Qed.

(** X8: [getFolderFilesByExt] only appends: the list keeps what it held,
    in order, followed by exactly the files found anywhere below the
    folder whose suffix is a dot followed by one of the extensions, in
    the order of the walk; directories are walked whatever their name,
    and no extension list, or an empty one, means [jpg]. *)
Theorem getFolderFilesByExt_appends (folder : list entry)
  (file_list : list file) (extension_list : option (list string)) :
  getFolderFilesByExt folder file_list extension_list
  = file_list
    ++ filter (has_extension
                 (match extension_list with
                  | None | Some [] => ["jpg"%string]
                  | Some l => l
                  end))
         (files_under folder).
Proof.
  unfold getFolderFilesByExt, files_under. apply fold_visit.
  apply Forall_forall. intros c _. apply visit_appends.
Qed.

Lemma insert_by_mtime_perm (p : file) (l : list file) :
  Permutation (insert_by_mtime p l) (p :: l).
Proof.
  induction l as [|q l IH]; cbn [insert_by_mtime]; [reflexivity|].
  destruct (Qle_bool _ _); [reflexivity|].
  rewrite IH. apply perm_swap.
Qed.

Lemma sorted_by_mtime_perm (l : list file) :
  Permutation (sorted_by_mtime l) l.
Proof.
  induction l as [|p l IH]; cbn; [reflexivity|].
  rewrite insert_by_mtime_perm. now constructor.
Qed.

Lemma insert_by_mtime_sorted (p : file) (l : list file) :
  StronglySorted (fun a b => (st_mtime a <= st_mtime b)%Q) l ->
  StronglySorted (fun a b => (st_mtime a <= st_mtime b)%Q)
    (insert_by_mtime p l).
Proof.
  induction 1 as [|q l Hl IH Hq]; cbn [insert_by_mtime].
  - repeat constructor.
  - destruct (Qle_bool (st_mtime p) (st_mtime q)) eqn:E.
    + apply Qle_bool_iff in E. constructor; [now constructor|].
      constructor; [assumption|].
      eapply Forall_impl; [|exact Hq]. intros r Hr.
      eapply Qle_trans; eassumption.
    + constructor; [assumption|].
      assert (Hqp : (st_mtime q <= st_mtime p)%Q).
      { apply Qlt_le_weak. apply Qnot_le_lt. intros Hle.
        apply Qle_bool_iff in Hle. congruence. }
      apply Forall_forall. intros r Hr.
      apply (Permutation_in _ (insert_by_mtime_perm p l)) in Hr.
      destruct Hr as [<- | Hr]; [assumption|].
      rewrite Forall_forall in Hq. auto.
Qed.

Lemma insert_by_mtime_stable (k : Q) (p : file) (l : list file) :
  filter (fun q => Qeq_bool (st_mtime q) k) (insert_by_mtime p l)
  = filter (fun q => Qeq_bool (st_mtime q) k) (p :: l).
Proof.
  induction l as [|q l IH]; cbn [insert_by_mtime]; [reflexivity|].
  destruct (Qle_bool (st_mtime p) (st_mtime q)) eqn:E; [reflexivity|].
  cbn [filter] in *. rewrite IH.
  destruct (Qeq_bool (st_mtime p) k) eqn:Ep;
    destruct (Qeq_bool (st_mtime q) k) eqn:Eq; try reflexivity.
  exfalso. apply Qeq_bool_iff in Ep. apply Qeq_bool_iff in Eq.
  assert (Hle : (st_mtime p <= st_mtime q)%Q)
    by (rewrite Ep, Eq; apply Qle_refl).
  apply Qle_bool_iff in Hle. congruence.
Qed.

Lemma files_read_prefix (files : list file) :
  forall s : StarTrailGenerator,
    exists rest, files = files_read bgr2gray s files ++ rest.
Proof.
  induction files as [|p files IH]; intros s; [now exists []|].
  cbn [files_read]. destruct (imread p) as [a|].
  - destruct (processImage bgr2gray s a) as [s1 [u|e]].
    + destruct (IH s1) as [rest E]. exists rest. cbn [app]. now f_equal.
    + now exists files.
  - destruct (IH s) as [rest E]. exists rest. cbn [app]. now f_equal.
Qed.

Lemma files_read_all (files : list file) :
  forall s : StarTrailGenerator,
    snd (read_and_process bgr2gray s files) = Ok tt ->
    files_read bgr2gray s files = files.
Proof.
  induction files as [|p files IH]; intros s Hok; [reflexivity|].
  cbn [files_read read_and_process] in *.
  destruct (imread p) as [a|]; [|f_equal; now apply IH].
  destruct (processImage bgr2gray s a) as [s1 [u|e]]; cbn [snd] in *.
  - f_equal. now apply IH.
  - discriminate.
Qed.

Lemma readable_cons (p : file) (files : list file) :
  readable (p :: files)
  = match imread p with
    | Some a => a :: readable files
    | None => readable files
    end.
Proof. unfold readable. cbn [flat_map]. now destruct (imread p). Qed.

Lemma files_read_raise (files : list file) :
  forall (s : StarTrailGenerator) (e : exn),
    snd (read_and_process bgr2gray s files) = Raise e ->
    exists before p a rest,
      files = before ++ p :: rest /\
      files_read bgr2gray s files = before ++ [p] /\
      imread p = Some a /\
      snd (processImage bgr2gray (feed bgr2gray s (readable before)) a)
      = Raise e.
Proof.
  induction files as [|p files IH]; intros s e Hr; [discriminate|].
  cbn [files_read read_and_process] in *.
  destruct (imread p) as [a|] eqn:Ea.
  - destruct (processImage bgr2gray s a) as [s1 [u|e1]] eqn:Ep;
      cbn [snd] in *.
    + destruct (IH s1 e Hr) as (before & q & b & rest & E & Er & Eq & Eb).
      exists (p :: before), q, b, rest. rewrite readable_cons, Ea, feed_cons.
      rewrite Ep. cbn [fst app]. repeat split; congruence.
    + exists [], p, a, files. cbn [app readable flat_map feed fold_left].
      rewrite Ep. cbn [snd]. repeat split; congruence.
  - destruct (IH s e Hr) as (before & q & b & rest & E & Er & Eq & Eb).
    exists (p :: before), q, b, rest. rewrite readable_cons, Ea.
    cbn [app]. repeat split; congruence.
Qed.

(** X9: the list [main] iterates over holds every non-empty file with
    suffix [.jpg] found below the input directory exactly once, an empty
    one never, in ascending order of modification time, files of equal
    time in the order of the walk.  [main] reads the files in that order
    and stops at the first whose frame makes [processImage] raise: the
    files it has read are a prefix of the list, the whole list when no
    call raises, and otherwise the files up to the one that raised. *)
Theorem files_read_in_time_order (s : StarTrailGenerator)
  (inputdir : list entry) :
  let found :=
    filter (fun p => negb (st_size p =? 0))
      (filter (has_extension ["jpg"%string]) (files_under inputdir)) in
  let ordered := file_list_ordered inputdir in
  (Permutation ordered found /\
   StronglySorted (fun a b => (st_mtime a <= st_mtime b)%Q) ordered /\
   forall k : Q,
     filter (fun q => Qeq_bool (st_mtime q) k) ordered
     = filter (fun q => Qeq_bool (st_mtime q) k) found) /\
  (exists rest, ordered = files_read bgr2gray s ordered ++ rest) /\
  (snd (read_and_process bgr2gray s ordered) = Ok tt ->
   files_read bgr2gray s ordered = ordered) /\
  (forall e, snd (read_and_process bgr2gray s ordered) = Raise e ->
     exists before p a rest,
       ordered = before ++ p :: rest /\
       files_read bgr2gray s ordered = before ++ [p] /\
       imread p = Some a /\
       snd (processImage bgr2gray (feed bgr2gray s (readable before)) a)
       = Raise e).
Proof.
  cbn zeta. split; [|split; [apply files_read_prefix|split;
    [apply files_read_all | apply files_read_raise]]].
  unfold file_list_ordered.
  rewrite getFolderFilesByExt_appends_nil.
  set (found := filter _ (filter _ _)). split; [apply sorted_by_mtime_perm|].
  split.
  - induction found as [|p l IH]; cbn; [constructor|].
    now apply insert_by_mtime_sorted.
  - intros k. induction found as [|p l IH]; [reflexivity|].
    cbn [sorted_by_mtime fold_right].
    rewrite insert_by_mtime_stable. cbn [filter].
    fold (sorted_by_mtime l). now rewrite IH.
Qed.

(** ** [main] *)

Lemma readable_length (files : list file) :
  (length (readable files) <= length files)%nat.
Proof.
  induction files as [|p files IH]; [cbn; lia|].
  rewrite readable_cons. destruct (imread p); cbn [length]; lia.
Qed.

Lemma read_and_process_feed (files : list file) :
  forall s : StarTrailGenerator,
    snd (read_and_process bgr2gray s files) = Ok tt ->
    fst (read_and_process bgr2gray s files)
    = feed bgr2gray s (readable files).
Proof.
  induction files as [|p files IH]; intros s Hok; [reflexivity|].
  rewrite readable_cons. cbn [read_and_process] in *.
  destruct (imread p) as [a|]; [|now apply IH].
  rewrite feed_cons.
  destruct (processImage bgr2gray s a) as [s1 [u|e]]; cbn [fst snd] in *.
  - now apply IH.
  - discriminate.
Qed.

Lemma file_list_ordered_under (inputdir : list entry) (p : file) :
  In p (file_list_ordered inputdir) -> In p (files_under inputdir).
Proof.
  unfold file_list_ordered. rewrite getFolderFilesByExt_appends_nil.
  intros Hin. apply (Permutation_in _ (sorted_by_mtime_perm _)) in Hin.
  apply filter_In in Hin. destruct Hin as [Hin _].
  apply filter_In in Hin. tauto.
Qed.

Lemma file_list_ordered_length (inputdir : list entry) :
  (length (file_list_ordered inputdir) <= length (files_under inputdir))%nat.
Proof.
  unfold file_list_ordered. rewrite getFolderFilesByExt_appends_nil.
  rewrite (Permutation_length (sorted_by_mtime_perm _)).
  etransitivity; [apply filter_length_le | apply filter_length_le].
Qed.

Lemma finalize_cases (s : StarTrailGenerator) :
  consistent s ->
  (exists out, finalize bgr2gray s = Ok out) \/
  (exists msg, finalize bgr2gray s = Raise (InsufficentData msg) /\
               (background_image s = None \/ (trail_count s < 20)%nat)).
Proof.
  intros Hc. destruct (background_image s) as [bg|] eqn:Hb.
  - destruct (Nat.ltb_spec (trail_count s) 20) as [Hlt|Hge].
    + right. eexists. split; [|now right].
      unfold finalize. rewrite Hb.
      destruct (Nat.ltb_spec (trail_count s) 20); [reflexivity | lia].
    + left. destruct (finalize_ok bgr2gray s bg Hc Hb Hge)
        as (trail & Ht & Hwb & Hwt & Hs & Hf).
      rewrite Hf. rewrite put_on_background_ok;
        eauto using grayscale_same_size, grayscale_ndim3, grayscale_nonempty.
  - right. eexists. split; [|now left]. unfold finalize. now rewrite Hb.
Qed.

Lemma read_and_process_uniform (h w : nat) (c : bool) (files : list file) :
  forall s : StarTrailGenerator,
    consistent s ->
    match trail_image s with
    | None => True
    | Some t => height t = h /\ width t = w /\ ndim3 t = c
    end ->
    (forall p a, In p files -> imread p = Some a ->
       wf_image a /\ height a = h /\ width a = w /\ ndim3 a = c) ->
    snd (read_and_process bgr2gray s files) = Ok tt /\
    consistent (fst (read_and_process bgr2gray s files)).
Proof.
  induction files as [|p files IH]; intros s Hc Hd Hfiles; [cbn; auto|].
  cbn [read_and_process].
  destruct (imread p) as [a|] eqn:Ea.
  2:{ apply IH; auto. intros q b Hq. apply Hfiles. now right. }
  destruct (Hfiles p a (or_introl eq_refl) Ea) as (Hwf & Hh & Hw & Hn).
  assert (Hm : matches s a).
  { unfold matches. destruct (trail_image s) as [t|]; [|exact I].
    apply same_shape_iff. intuition congruence. }
  destruct (processImage_consistent bgr2gray s a Hc Hwf Hm)
    as (Hok & Hc1 & (t1 & Ht1 & Hs1)).
  destruct (processImage bgr2gray s a) as [s1 r]. cbn [fst snd] in *.
  subst r. apply IH; auto.
  - rewrite Ht1. apply same_shape_iff in Hs1. intuition congruence.
  - intros q b Hq. apply Hfiles. now right.
Qed.

(** X10: on a fresh generator, when every file that can be decoded below
    the input directory is a well-formed image of one and the same shape,
    [main] reads and feeds them all, in order, and no call of
    [processImage] raises.  Then, for want of a background or of twenty
    accepted frames, it writes nothing and returns; or [finalize] has a
    composite, and [main] returns after handing it to the encoder, unless
    OpenCV has no encoder for the extension of [outfile]: then
    [cv2.error] leaves [main], which only catches [InsufficentData]. *)
Theorem main_on_uniform_frames (s : StarTrailGenerator) (outfile : string)
  (inputdir : list entry) (h w : nat) (c : bool) :
  consistent s -> trail_image s = None ->
  (forall p a, In p (files_under inputdir) -> imread p = Some a ->
     wf_image a /\ height a = h /\ width a = w /\ ndim3 a = c) ->
  let final := feed bgr2gray s (readable (file_list_ordered inputdir)) in
  fst (main bgr2gray has_encoder s outfile inputdir) = final /\
  files_read bgr2gray s (file_list_ordered inputdir)
  = file_list_ordered inputdir /\
  ((exists out,
      finalize bgr2gray final = Ok out /\
      snd (main bgr2gray has_encoder s outfile inputdir)
      = if has_encoder outfile then Ok (Some out) else Raise cv2_error) \/
   (snd (main bgr2gray has_encoder s outfile inputdir) = Ok None /\
    (background_image final = None \/ (trail_count final < 20)%nat))).
Proof.
  intros Hc Hn Hfiles. cbn zeta.
  destruct (read_and_process_uniform h w c (file_list_ordered inputdir) s Hc)
    as [Hok Hc1].
  { now rewrite Hn. }
  { intros p a Hin. apply Hfiles. now apply file_list_ordered_under. }
  pose proof (read_and_process_feed _ _ Hok) as Hfeed.
  pose proof (files_read_all _ _ Hok) as Hread.
  unfold main, finalize_outfile, cv2_imwrite.
  destruct (read_and_process bgr2gray s (file_list_ordered inputdir))
    as [s1 r]. cbn [fst snd] in *. subst r s1.
  set (final := feed bgr2gray s _) in *.
  destruct (finalize_cases final Hc1) as [[out Hf] | (msg & Hf & Hwhy)];
    rewrite Hf; cbn [bind].
  - split; [now destruct (has_encoder outfile)|].
    split; [assumption|]. left. exists out. split; [reflexivity|].
    now destruct (has_encoder outfile).
  - cbn [fst snd]. split; [reflexivity|]. split; [assumption|]. right. auto.
Qed.

(** X11: [main] never writes an image when fewer than twenty files lie
    below the input directory (counting from a generator that has
    accepted none): whatever the files hold and whatever the output name,
    it ends with a logged [InsufficentData] or with an exception of
    [processImage]. *)
Theorem main_needs_twenty_files (s : StarTrailGenerator) (outfile : string)
  (inputdir : list entry) :
  (trail_count s + length (files_under inputdir) < 20)%nat ->
  forall out,
    snd (main bgr2gray has_encoder s outfile inputdir) <> Ok (Some out).
Proof.
  intros Hfew out. unfold main, finalize_outfile.
  destruct (read_and_process bgr2gray s (file_list_ordered inputdir))
    as [s1 [u|e]] eqn:E; cbn [snd]; [|discriminate].
  assert (Hfeed : s1 = feed bgr2gray s (readable (file_list_ordered inputdir))).
  { rewrite <- (read_and_process_feed (file_list_ordered inputdir) s);
      rewrite E; [reflexivity | now destruct u]. }
  destruct (finalize bgr2gray s1) as [img|e] eqn:Hf; cbn [bind].
  - exfalso. destruct (finalize_inv bgr2gray s1 img Hf) as (bg & _ & Hn).
    destruct (feed_counters (readable (file_list_ordered inputdir)) s)
      as (_ & He & Hsum).
    rewrite <- Hfeed in *.
    pose proof (readable_length (file_list_ordered inputdir)).
    pose proof (file_list_ordered_length inputdir). lia.
  - destruct e; cbn [snd]; discriminate.
Qed.

End Run.

(** ** The Bayer conversion of timelapse.py *)

Lemma slice_step2_cons (x : Z) (l : list Z) :
  slice_step2 (x :: l) = x :: slice_step2 (tl l).
Proof. now destruct l. Qed.

Lemma slice_step2_lengths (l : list Z) :
  (length (slice_step2 l) + length (slice_step2 (tl l)) = length l /\
   length (slice_step2 (tl l)) <= length (slice_step2 l) /\
   length (slice_step2 l) <= S (length (slice_step2 (tl l))))%nat.
Proof.
  induction l as [|x l IH]; [cbn; lia|].
  rewrite slice_step2_cons. cbn [tl length]. lia.
Qed.

Lemma nth_slice_step2 (d : Z) :
  forall (i : nat) (l : list Z),
    nth i (slice_step2 l) d = nth (2 * i) l d.
Proof.
  induction i as [|i IH]; intros l.
  - now destruct l.
  - replace (2 * S i)%nat with (S (S (2 * i))) by lia.
    destruct l as [|x [|y l]]; cbn [slice_step2 nth].
    + reflexivity.
    + now destruct i.
    + apply IH.
Qed.

Lemma nth_tl (d : Z) (i : nat) (l : list Z) :
  nth i (tl l) d = nth (S i) l d.
Proof. destruct l; [now destruct i | reflexivity]. Qed.

Lemma nth_map2 {A B C : Type} (f : A -> B -> C) (da : A) (db : B) (dc : C) :
  forall la lb i,
    (i < length la)%nat -> (i < length lb)%nat ->
    nth i (map2 f la lb) dc = f (nth i la da) (nth i lb db).
Proof.
  induction la as [|a la IH]; intros [|b lb] [|i] Ha Hb; simpl in *;
    try lia; auto.
  apply IH; lia.
Qed.

Lemma map2_length {A B C : Type} (f : A -> B -> C) (la : list A) :
  forall lb, length (map2 f la lb) = Nat.min (length la) (length lb).
Proof.
  induction la as [|a la IH]; intros [|b lb]; simpl; auto.
Qed.

(** The two nibbles never overlap: the byte is bits 4 to 11 of the
    little-endian 16-bit sample. *)
Lemma bayer8_sample (lo hi : Z) :
  0 <= lo < 256 -> 0 <= hi < 256 ->
  Z.lor (Z.shiftr lo 4) (Z.shiftl hi 4 mod 256)
  = ((lo + 256 * hi) / 16) mod 256.
Proof.
  intros Hlo Hhi.
  assert (Hnib : forall a d, 0 <= a < 16 -> 0 <= d < 16 ->
                   Z.lor a (d * 16) = a + d * 16).
  { intros a d Ha Hd.
    assert (Hall :
      forallb (fun x =>
        forallb (fun y =>
          Z.lor (Z.of_nat x) (Z.of_nat y * 16)
          =? Z.of_nat x + Z.of_nat y * 16) (seq 0 16)) (seq 0 16) = true)
      by reflexivity.
    rewrite forallb_forall in Hall.
    specialize (Hall (Z.to_nat a) ltac:(apply in_seq; lia)).
    rewrite forallb_forall in Hall.
    specialize (Hall (Z.to_nat d) ltac:(apply in_seq; lia)).
    rewrite !Z2Nat.id in Hall by lia. now apply Z.eqb_eq in Hall. }
  rewrite Z.shiftr_div_pow2, Z.shiftl_mul_pow2 by lia.
  change (2 ^ 4) with 16.
  change 256 with (16 * 16) at 1.
  rewrite Z.mul_mod_distr_r by lia.
  pose proof (Z.mod_pos_bound hi 16 ltac:(lia)) as Hd.
  assert (Ha : 0 <= lo / 16 < 16).
  { split; [apply Z.div_pos; lia | apply Z.div_lt_upper_bound; lia]. }
  rewrite (Hnib _ _ Ha Hd).
  replace (lo + 256 * hi) with (lo + (16 * hi) * 16) by lia.
  rewrite Z.div_add by lia.
  rewrite (Z.div_mod hi 16) at 2 by lia.
  replace (lo / 16 + 16 * (16 * (hi / 16) + hi mod 16))
    with (lo / 16 + hi mod 16 * 16 + (hi / 16) * 256) by lia.
  rewrite Z.mod_add by lia. symmetry. apply Z.mod_small. lia.
Qed.

Lemma frombuffer_range (data_bytes : list Byte.byte) (i : nat) :
  0 <= nth i (numpy_frombuffer data_bytes) 0 < 256.
Proof.
  unfold numpy_frombuffer.
  destruct (Nat.lt_ge_cases i (length data_bytes)) as [Hi|Hi].
  - rewrite (nth_indep _ 0 ((fun b => Z.of_N (Byte.to_N b)) Byte.x00))
      by (now rewrite length_map).
    rewrite (map_nth (fun b => Z.of_N (Byte.to_N b))).
    pose proof (Byte.to_N_bounded (nth i data_bytes Byte.x00)). lia.
  - rewrite nth_overflow by (now rewrite length_map). lia.
Qed.

Lemma bayer8_image_length (data_bytes : list Byte.byte) :
  (Z.of_nat (length data_bytes) = 2 * (1080 * 1920) ->
   bayer8_image data_bytes
   = Returns (mkImage 1080 1920 false
                (map (fun v => [v])
                   (map2 Z.lor
                      (map (fun v => Z.shiftr v 4)
                         (slice_step2 (numpy_frombuffer data_bytes)))
                      (map (fun v => Z.shiftl v 4 mod 256)
                         (slice_step2 (tl (numpy_frombuffer data_bytes)))))))
   /\ length (slice_step2 (numpy_frombuffer data_bytes))
      = length (slice_step2 (tl (numpy_frombuffer data_bytes)))
   /\ Z.of_nat (length (slice_step2 (numpy_frombuffer data_bytes)))
      = 1080 * 1920) /\
  (Z.of_nat (length data_bytes) <> 2 * (1080 * 1920) ->
   bayer8_image data_bytes = Raises ValueError).
Proof.
  unfold bayer8_image.
  set (data := numpy_frombuffer data_bytes).
  assert (Hlen : length data = length data_bytes)
    by (unfold data, numpy_frombuffer; apply length_map).
  destruct (slice_step2_lengths data) as (Hsum & Hle1 & Hle2).
  rewrite Hlen in Hsum.
  unfold numpy_elementwise, numpy_reshape. rewrite !length_map.
  set (a := length (slice_step2 data)) in *.
  set (b := length (slice_step2 (tl data))) in *.
  change (Z.of_nat 1080 * Z.of_nat 1920) with (1080 * 1920).
  split.
  - intros Hn.
    assert (a = b) by lia. destruct (Nat.eqb_spec a b); [|contradiction].
    rewrite map2_length, !length_map. fold a b.
    destruct (Z.eqb_spec (Z.of_nat (Nat.min a b)) (1080 * 1920)); [|lia].
    repeat split; [assumption | lia].
  - intros Hn. destruct (Nat.eqb_spec a b).
    + rewrite map2_length, !length_map. fold a b.
      destruct (Z.eqb_spec (Z.of_nat (Nat.min a b)) (1080 * 1920));
        [lia | reflexivity].
    + destruct (Nat.eqb_spec a 1).
      * rewrite !length_map. fold b.
        destruct (Z.eqb_spec (Z.of_nat b) (1080 * 1920));
          [lia | reflexivity].
      * destruct (Nat.eqb_spec b 1); [|reflexivity].
        rewrite !length_map. fold a.
        destruct (Z.eqb_spec (Z.of_nat a) (1080 * 1920));
          [lia | reflexivity].
Qed.

Section ImageProcessorProperties.

Variable cv2_cvtColor_Bayer : bayer_code -> image -> image.
Variable addWeighted_sample : Q -> Z -> Z.

(** X12: both Bayer converters need a buffer of exactly 2 x 1080 x 1920
    bytes: with any other length (an odd one included) they raise
    [ValueError], and with that length they hand OpenCV a 1080 x 1920
    single-channel array; the two differ only in the conversion code. *)
Theorem bayer_conversion_needs_full_frame (data_bytes : list Byte.byte) :
  (Z.of_nat (length data_bytes) <> 2 * (1080 * 1920) ->
   _convert_GRBG_to_RGB_8bit cv2_cvtColor_Bayer data_bytes = Raises ValueError
   /\
   _convert_GRGB_to_RGB_8bit cv2_cvtColor_Bayer data_bytes
   = Raises ValueError) /\
  (Z.of_nat (length data_bytes) = 2 * (1080 * 1920) ->
   exists bayer8,
     height bayer8 = 1080%nat /\ width bayer8 = 1920%nat /\
     ndim3 bayer8 = false /\
     Z.of_nat (length (pixels bayer8)) = 1080 * 1920 /\
     _convert_GRBG_to_RGB_8bit cv2_cvtColor_Bayer data_bytes
     = Returns (cv2_cvtColor_Bayer COLOR_BayerGR2BGR bayer8) /\
     _convert_GRGB_to_RGB_8bit cv2_cvtColor_Bayer data_bytes
     = Returns (cv2_cvtColor_Bayer COLOR_BayerGR2RGB bayer8)).
Proof.
  unfold _convert_GRBG_to_RGB_8bit, _convert_GRGB_to_RGB_8bit.
  destruct (bayer8_image_length data_bytes) as [Hok Hbad]. split.
  - intros Hn. now rewrite (Hbad Hn).
  - intros Hn. destruct (Hok Hn) as (-> & Hab & Ha).
    eexists (mkImage 1080 1920 false _).
    split; [reflexivity|]. split; [reflexivity|].
    split; [reflexivity|]. split; [|split; reflexivity].
    cbn [pixels]. rewrite length_map, map2_length, !length_map. lia.
Qed.

(** X13: the byte kept for each 16-bit little-endian sample is its bits 4
    to 11: sample [i] of the 8-bit image is [((lo + 256 hi) / 16) mod 256]
    for the bytes [lo], [hi] at offsets [2 i] and [2 i + 1]; for a 12-bit
    sample ([hi < 16]) that is the sample divided by 16, so only the four
    low bits are dropped. *)
Theorem bayer8_keeps_bits_4_to_11 (data_bytes : list Byte.byte) (i : nat) :
  Z.of_nat (length data_bytes) = 2 * (1080 * 1920) ->
  Z.of_nat i < 1080 * 1920 ->
  let lo := nth (2 * i) (numpy_frombuffer data_bytes) 0 in
  let hi := nth (2 * i + 1) (numpy_frombuffer data_bytes) 0 in
  exists bayer8,
    bayer8_image data_bytes = Returns bayer8 /\
    nth i (pixels bayer8) [] = [((lo + 256 * hi) / 16) mod 256] /\
    (hi < 16 -> nth i (pixels bayer8) [] = [(lo + 256 * hi) / 16]).
Proof.
  intros Hn Hi. cbn zeta.
  destruct (bayer8_image_length data_bytes) as [Hok _].
  destruct (Hok Hn) as (-> & Hab & Ha).
  eexists. split; [reflexivity|]. cbn [pixels].
  set (data := numpy_frombuffer data_bytes) in *.
  assert (E : nth i
                (map (fun v => [v])
                   (map2 Z.lor
                      (map (fun v => Z.shiftr v 4) (slice_step2 data))
                      (map (fun v => Z.shiftl v 4 mod 256)
                         (slice_step2 (tl data))))) []
              = [((nth (2 * i) data 0 + 256 * nth (2 * i + 1) data 0) / 16)
                 mod 256]).
  { rewrite (nth_indep _ [] ((fun v => [v]) 0))
      by (rewrite length_map, map2_length, !length_map; lia).
    rewrite (map_nth (fun v => [v])). f_equal.
    rewrite (nth_map2 Z.lor 0 0 0) by (rewrite length_map; lia).
    rewrite (nth_indep _ 0 ((fun v => Z.shiftr v 4) 0))
      by (rewrite length_map; lia).
    rewrite (map_nth (fun v => Z.shiftr v 4)).
    rewrite (nth_indep (map _ (slice_step2 (tl data))) 0
               ((fun v => Z.shiftl v 4 mod 256) 0))
      by (rewrite length_map; lia).
    rewrite (map_nth (fun v => Z.shiftl v 4 mod 256)).
    rewrite !nth_slice_step2, nth_tl.
    replace (S (2 * i)) with (2 * i + 1)%nat by lia.
    apply bayer8_sample; apply frombuffer_range. }
  split; [exact E|]. intros Hhi. etransitivity; [exact E|]. f_equal.
  pose proof (frombuffer_range data_bytes (2 * i)) as Hlo.
  pose proof (frombuffer_range data_bytes (2 * i + 1)) as Hh.
  fold data in Hlo, Hh. apply Z.mod_small.
  split; [apply Z.div_pos; lia|].
  apply Z.div_lt_upper_bound; lia.
Qed.

(** ** [white_balance2] *)

Lemma mean_zero_iff (h w : nat) (c : bool) (l : list pixel) :
  l <> [] ->
  Qeq_bool (exact_mean0 (mkImage h w c l)) 0 = true <-> sum_samples l = 0.
Proof.
  intros Hne. unfold exact_mean0. cbn [pixels].
  destruct l as [|p l]; [congruence|].
  assert (Hn : ~ (inject_Z (Z.of_nat (length (p :: l))) == 0)%Q).
  { unfold Qeq. cbn [length inject_Z Qnum Qden].
    rewrite Nat2Z.inj_succ. pose proof (Nat2Z.is_nonneg (length l)). lia. }
  set (n := Z.of_nat (length (p :: l))) in *.
  rewrite Qeq_bool_iff. split.
  - intros H.
    assert (E : (inject_Z (sum_samples (p :: l)) == 0)%Q).
    { rewrite <- (Qmult_div_r (inject_Z (sum_samples (p :: l))) _ Hn).
      rewrite H. apply Qmult_0_r. }
    unfold Qeq in E. cbn [inject_Z Qnum Qden] in E. lia.
  - intros ->. unfold Qdiv. apply Qmult_0_l.
Qed.

Lemma channel_sum_zero_iff (c : nat) (l : list pixel) :
  Forall (fun p => Forall sample_ok p) l ->
  sum_samples (map (fun p => [nth c p 0]) l) = 0 <->
  forall p, In p l -> nth c p 0 = 0.
Proof.
  intros Hok.
  assert (Hnn : forall p, Forall sample_ok p -> 0 <= nth c p 0).
  { intros p Hp. destruct (Nat.lt_ge_cases c (length p)) as [Hc|Hc].
    - rewrite Forall_forall in Hp. apply (Hp (nth c p 0)).
      now apply nth_In.
    - rewrite nth_overflow by assumption. lia. }
  assert (Hpos : forall l, Forall (fun p => Forall sample_ok p) l ->
                   0 <= sum_samples (map (fun p => [nth c p 0]) l)).
  { clear l Hok. induction 1 as [|p l Hp _ IH]; [cbn; lia|].
    cbn [map sum_samples fold_right].
    fold (sum_samples (map (fun p => [nth c p 0]) l)).
    unfold sample0 at 1. cbn [nth]. specialize (Hnn p Hp). lia. }
  induction Hok as [|p l Hp Hl IH].
  - cbn. split; [intros _ q [] | reflexivity].
  - cbn [map sum_samples fold_right]. unfold sample0 at 1. cbn [nth].
    fold (sum_samples (map (fun p => [nth c p 0]) l)).
    specialize (Hnn p Hp). specialize (Hpos l Hl). split.
    + intros H q [<- | Hq]; [lia|]. apply IH; [lia | assumption].
    + intros H. rewrite (H p (or_introl eq_refl)).
      rewrite (proj2 IH); [reflexivity|].
      intros q Hq. apply H. now right.
Qed.

Lemma channel_mean_zero_iff (c : nat) (a : image) :
  wf_image a ->
  Qeq_bool (channel_mean c a) 0 = true <->
  forall p, In p (pixels a) -> nth c p 0 = 0.
Proof.
  intros (Hpos & Hlen & Hpx). unfold channel_mean.
  rewrite mean_zero_iff.
  - apply channel_sum_zero_iff.
    eapply Forall_impl; [|exact Hpx]. now intros p [_ Hp].
  - intros E. apply map_eq_nil in E. rewrite E in Hlen.
    cbn [length] in Hlen. rewrite <- Hlen in Hpos. inversion Hpos.
Qed.

(** X14: [white_balance2] cannot balance an image with an entirely black
    channel: on a well-formed three-channel image it raises
    [ZeroDivisionError] exactly when some channel is zero at every
    pixel; a single-channel image cannot be unpacked into three channels
    ([ValueError]). *)
Theorem white_balance2_black_channel (a : image) :
  wf_image a ->
  (ndim3 a = true ->
   (white_balance2 addWeighted_sample a = Raises ZeroDivisionError <->
    exists c, (c < 3)%nat /\ forall p, In p (pixels a) -> nth c p 0 = 0)) /\
  (ndim3 a = false ->
   white_balance2 addWeighted_sample a = Raises ValueError).
Proof.
  intros Hwf. split.
  - intros H3. unfold white_balance2, cv2_split. rewrite H3.
    change (exact_mean0 (channel 0 a)) with (channel_mean 0 a).
    change (exact_mean0 (channel 1 a)) with (channel_mean 1 a).
    change (exact_mean0 (channel 2 a)) with (channel_mean 2 a).
    pose proof (channel_mean_zero_iff 0 a Hwf) as Z0.
    pose proof (channel_mean_zero_iff 1 a Hwf) as Z1.
    pose proof (channel_mean_zero_iff 2 a Hwf) as Z2.
    cbn zeta.
    destruct (Qeq_bool (channel_mean 0 a) 0) eqn:E0.
    { split; [intros _|reflexivity]. exists 0%nat. split; [lia|].
      now apply Z0. }
    destruct (Qeq_bool (channel_mean 1 a) 0) eqn:E1.
    { split; [intros _|reflexivity]. exists 1%nat. split; [lia|].
      now apply Z1. }
    destruct (Qeq_bool (channel_mean 2 a) 0) eqn:E2.
    { split; [intros _|reflexivity]. exists 2%nat. split; [lia|].
      now apply Z2. }
    split; [discriminate|]. intros (c & Hc & Hz). exfalso.
    destruct c as [|[|[|c]]]; [| | |lia].
    + apply Z0 in Hz. congruence.
    + apply Z1 in Hz. congruence.
    + apply Z2 in Hz. congruence.
  - intros H2. unfold white_balance2, cv2_split. now rewrite H2.
Qed.

End ImageProcessorProperties.

(** ** The database layer *)

Lemma first_by_connectDate_desc_spec (l : list camera_row) :
  l <> [] ->
  exists c,
    first_by_connectDate_desc l = Some c /\ In c l /\
    forall d, In d l -> cam_connectDate d <= cam_connectDate c.
Proof.
  induction l as [|c l IH]; [congruence|]. intros _.
  cbn [first_by_connectDate_desc].
  destruct l as [|c' l'].
  - cbn. exists c. split; [reflexivity|]. split; [now left|].
    intros d [<- | []]. lia.
  - destruct (IH ltac:(discriminate)) as (m & Hm & Hin & Hmax).
    rewrite Hm.
    destruct (Z.leb_spec (cam_connectDate m) (cam_connectDate c)).
    + exists c. split; [reflexivity|]. split; [now left|].
      intros d [<- | Hd]; [lia|]. specialize (Hmax d Hd). lia.
    + exists m. split; [reflexivity|]. split; [now right|].
      intros d [<- | Hd]; [lia|]. now apply Hmax.
Qed.

Lemma filter_by_unique_name (name : string) (l : list camera_row) :
  NoDup (map cam_name l) ->
  (filter (fun c => String.eqb (cam_name c) name) l = [] /\
   ~ In name (map cam_name l)) \/
  (exists c, filter (fun c => String.eqb (cam_name c) name) l = [c] /\
             In c l /\ cam_name c = name).
Proof.
  induction l as [|c l IH]; intros Hnd; [left; auto|].
  cbn [map] in Hnd. apply NoDup_cons_iff in Hnd. destruct Hnd as [Hnin Hnd].
  cbn [filter map]. destruct (String.eqb_spec (cam_name c) name) as [E|E].
  - right. exists c. rewrite E in Hnin.
    destruct (IH Hnd) as [[Hf _] | (d & _ & Hd & Hn)].
    + rewrite Hf. repeat split; auto. now left.
    + exfalso. apply Hnin. rewrite <- Hn. now apply in_map.
  - destruct (IH Hnd) as [[Hf Hn] | (d & Hf & Hd & Hn)].
    + left. split; [assumption|]. intros [H|H]; [congruence | contradiction].
    + right. exists d. repeat split; auto. now right.
Qed.

Section IndiAllSkyDbProperties.

Variable path_exists : string -> bool.
Variable new_camera_id : list camera_row -> Z.

(** What [addCamera] does on a table with one row per name. *)
Lemma addCamera_spec (db : session) (camera_name : string) (now : Z) :
  NoDup (map cam_name (cameras db)) ->
  exists camera,
    snd (addCamera new_camera_id db camera_name now) = Returns camera /\
    cam_name camera = camera_name /\ cam_connectDate camera = now /\
    In camera (cameras (fst (addCamera new_camera_id db camera_name now))) /\
    map cam_name (cameras (fst (addCamera new_camera_id db camera_name now)))
    = (if existsb (String.eqb camera_name) (map cam_name (cameras db))
       then map cam_name (cameras db)
       else map cam_name (cameras db) ++ [camera_name]) /\
    (forall d,
       In d (cameras (fst (addCamera new_camera_id db camera_name now))) ->
       d = camera \/ (In d (cameras db) /\ cam_name d <> camera_name)) /\
    (forall d, In d (cameras db) -> cam_name d <> camera_name ->
       In d (cameras (fst (addCamera new_camera_id db camera_name now)))) /\
    (forall c, In c (cameras db) -> cam_name c = camera_name ->
       cam_id camera = cam_id c) /\
    ((forall c, In c (cameras db) -> cam_name c <> camera_name) ->
     cam_id camera = new_camera_id (cameras db) /\
     cameras (fst (addCamera new_camera_id db camera_name now))
     = cameras db ++ [camera]).
Proof.
  intros Hnd. unfold addCamera.
  destruct (filter_by_unique_name camera_name (cameras db) Hnd)
    as [[Hf Hnin] | (c & Hf & Hc & Hn)]; rewrite Hf; cbn [fst snd cameras].
  - assert (Hex : existsb (String.eqb camera_name)
                    (map cam_name (cameras db)) = false).
    { destruct (existsb _ _) eqn:E; [|reflexivity].
      apply existsb_exists in E. destruct E as (x & Hx & E).
      apply String.eqb_eq in E. subst x. contradiction. }
    rewrite Hex. eexists. split; [reflexivity|]. cbn [cam_name cam_connectDate].
    split; [reflexivity|]. split; [reflexivity|].
    split; [apply in_or_app; right; now left|].
    split; [now rewrite map_app|].
    split.
    { intros d Hd. apply in_app_or in Hd. destruct Hd as [Hd | [<- | []]].
      - right. split; [assumption|]. intros E. apply Hnin.
        rewrite <- E. now apply in_map.
      - now left. }
    split; [intros d Hd _; apply in_or_app; now left|].
    split.
    { intros c Hc Hn. exfalso. apply Hnin. rewrite <- Hn. now apply in_map. }
    intros _. split; reflexivity.
  - assert (Hex : existsb (String.eqb camera_name)
                    (map cam_name (cameras db)) = true).
    { apply existsb_exists. exists camera_name. split.
      - rewrite <- Hn. now apply in_map.
      - apply String.eqb_refl. }
    rewrite Hex.
    assert (Huniq : forall d, In d (cameras db) -> cam_name d = camera_name ->
                      d = c).
    { intros d Hd Hdn.
      assert (Hin : In d (filter (fun c => String.eqb (cam_name c) camera_name)
                            (cameras db))).
      { apply filter_In. split; [assumption|]. now apply String.eqb_eq. }
      rewrite Hf in Hin. destruct Hin as [<- | []]. reflexivity. }
    eexists. split; [reflexivity|]. cbn [cam_name cam_connectDate cam_id].
    split; [assumption|]. split; [reflexivity|].
    split.
    { apply in_map_iff. exists c. split; [|assumption].
      rewrite Hn, String.eqb_refl. reflexivity. }
    split.
    { rewrite map_map. apply map_ext. intros r.
      now destruct (String.eqb (cam_name r) camera_name). }
    split.
    { intros d Hd. apply in_map_iff in Hd. destruct Hd as (r & <- & Hr).
      destruct (String.eqb_spec (cam_name r) camera_name) as [E|E].
      - left. now rewrite (Huniq r Hr E).
      - right. auto. }
    split.
    { intros d Hd Hdn. apply in_map_iff. exists d. split; [|assumption].
      destruct (String.eqb_spec (cam_name d) camera_name); congruence. }
    split.
    { intros d Hd Hdn. now rewrite (Huniq d Hd Hdn). }
    intros Hno. exfalso. exact (Hno c Hc Hn).
Qed.

(** X16: [addCamera] keeps one row per camera name.  On a table without
    duplicate names it never raises and leaves no duplicate; the row it
    returns carries the name and the new connection time; for a name
    already present no row is added and the row keeps its id, for a new
    name exactly one row is appended; rows of other names and the other
    tables are untouched. *)
Theorem addCamera_upserts (db : session) (camera_name : string) (now : Z) :
  NoDup (map cam_name (cameras db)) ->
  let db' := fst (addCamera new_camera_id db camera_name now) in
  exists camera,
    snd (addCamera new_camera_id db camera_name now) = Returns camera /\
    cam_name camera = camera_name /\ cam_connectDate camera = now /\
    In camera (cameras db') /\
    NoDup (map cam_name (cameras db')) /\
    (In camera_name (map cam_name (cameras db)) ->
     length (cameras db') = length (cameras db) /\
     forall c, In c (cameras db) -> cam_name c = camera_name ->
       cam_id camera = cam_id c) /\
    (~ In camera_name (map cam_name (cameras db)) ->
     cameras db' = cameras db ++ [camera] /\
     cam_id camera = new_camera_id (cameras db)) /\
    (forall d, In d (cameras db) -> cam_name d <> camera_name ->
       In d (cameras db')) /\
    images db' = images db /\ darkframes db' = darkframes db /\
    videos db' = videos db /\ keograms db' = keograms db /\
    startrails db' = startrails db.
Proof.
  intros Hnd. cbn zeta.
  destruct (addCamera_spec db camera_name now Hnd)
    as (camera & Hr & Hname & Hdate & Hin & Hnames & _ & Hkeep & Hid & Hnew).
  exists camera. repeat (split; [assumption|]).
  split.
  { rewrite Hnames.
    destruct (existsb (String.eqb camera_name) (map cam_name (cameras db)))
      eqn:E; [assumption|].
    apply NoDup_app; [assumption | repeat constructor; auto |].
    intros x Hx [<- | []].
    assert (existsb (String.eqb camera_name) (map cam_name (cameras db))
            = true); [|congruence].
    apply existsb_exists. exists camera_name. split; [assumption|].
    apply String.eqb_refl. }
  split.
  { intros Hold. split; [|exact Hid].
    apply (f_equal (@length string)) in Hnames.
    assert (E : existsb (String.eqb camera_name) (map cam_name (cameras db))
                = true).
    { apply existsb_exists. exists camera_name. split; [assumption|].
      apply String.eqb_refl. }
    rewrite E, !length_map in Hnames. exact Hnames. }
  split.
  { intros Hfresh. apply and_comm. apply Hnew. intros c Hc E.
    apply Hfresh. rewrite <- E. now apply in_map. }
  split; [exact Hkeep|].
  unfold addCamera.
  destruct (filter _ (cameras db)) as [|c [|c' l]]; cbn [fst];
    repeat split; reflexivity.
Qed.

(** X17: [getCurrentCameraId] returns a configured [DB_CCD_ID] as it is
    unless it is 0 or missing; otherwise it returns the id of a camera
    whose connection time no other camera exceeds, and on an empty camera
    table it raises the attribute error of [None], not [NoResultFound]:
    [first()] returns [None] there, which the handler does not catch. *)
Theorem getCurrentCameraId_cases (db : session) :
  (forall id, id <> 0 -> getCurrentCameraId (Some id) db = Returns id) /\
  getCurrentCameraId (Some 0) db = getCurrentCameraId None db /\
  (cameras db = [] ->
   getCurrentCameraId None db = Raises NoneAttributeError) /\
  (cameras db <> [] ->
   exists c,
     In c (cameras db) /\
     getCurrentCameraId None db = Returns (cam_id c) /\
     forall d, In d (cameras db) -> cam_connectDate d <= cam_connectDate c).
Proof.
  unfold getCurrentCameraId. split; [|split; [reflexivity | split]].
  - intros id Hid. destruct (Z.eqb_spec id 0); [contradiction | reflexivity].
  - now intros ->.
  - intros Hne.
    destruct (first_by_connectDate_desc_spec (cameras db) Hne)
      as (c & Hc & Hin & Hmax).
    exists c. rewrite Hc. auto.
Qed.

(** X18: the camera that connected last is the current one.  After
    [addCamera] at a time later than every recorded connection, on a
    table with one row per name, [getCurrentCameraId] without a
    configured id returns the id of the camera just added or
    refreshed. *)
Theorem added_camera_is_current (db : session) (camera_name : string)
  (now : Z) :
  NoDup (map cam_name (cameras db)) ->
  (forall c, In c (cameras db) -> cam_connectDate c < now) ->
  exists camera,
    snd (addCamera new_camera_id db camera_name now) = Returns camera /\
    getCurrentCameraId None (fst (addCamera new_camera_id db camera_name now))
    = Returns (cam_id camera).
Proof.
  intros Hnd Hold.
  destruct (addCamera_spec db camera_name now Hnd)
    as (camera & Hr & Hname & Hdate & Hin & _ & Hrows & _).
  exists camera. split; [assumption|].
  unfold getCurrentCameraId.
  set (db' := fst (addCamera new_camera_id db camera_name now)) in *.
  assert (Hne : cameras db' <> []) by (intros E; rewrite E in Hin; exact Hin).
  destruct (first_by_connectDate_desc_spec (cameras db') Hne)
    as (c & Hc & Hcin & Hmax).
  rewrite Hc. destruct (Hrows c Hcin) as [-> | [Hcold _]]; [reflexivity|].
  specialize (Hmax camera Hin). specialize (Hold c Hcold). lia.
Qed.

Lemma dayDate_night_window (D now : Z) :
  D * microseconds_per_day + timedelta_hours 12 <= now
  < (D + 1) * microseconds_per_day + timedelta_hours 12 ->
  dayDate true now = D.
Proof.
  unfold dayDate, date_of, timedelta_hours, microseconds_per_day.
  intros H. symmetry. apply (Z.div_unique _ _ D (now - 12 * 3600000000 - D * 86400000000));
    lia.
Qed.

(** X19: a night's entries share one day.  For every time from noon of
    day [D] up to noon of day [D + 1], what [addImage] (with [night]
    set), [addVideo], [addKeogram] and [addStarTrail] (with [timeofday]
    equal to "night") record carries the day date [D]; any other
    [timeofday] string is recorded as day, with the calendar date. *)
Theorem night_entries_share_day (db : session) (filename : py_filename)
  (camera_id : Z) (args : image_args) (D now : Z) :
  filename_not filename = false ->
  path_exists (filename_str filename) = true ->
  D * microseconds_per_day + timedelta_hours 12 <= now
  < (D + 1) * microseconds_per_day + timedelta_hours 12 ->
  let night_row := mkMedia camera_id (filename_str filename) D true in
  snd (addVideo path_exists db filename camera_id "night" now)
  = Some night_row /\
  snd (addKeogram path_exists db filename camera_id "night" now)
  = Some night_row /\
  snd (addStarTrail path_exists db filename camera_id "night" now)
  = Some night_row /\
  (arg_night args <> 0 ->
   exists row,
     snd (addImage path_exists db filename camera_id args now) = Some row /\
     img_dayDate row = D /\ img_night row = true) /\
  (forall timeofday, timeofday <> "night"%string ->
     let day_row :=
       mkMedia camera_id (filename_str filename) (date_of now) false in
     snd (addVideo path_exists db filename camera_id timeofday now)
     = Some day_row /\
     snd (addKeogram path_exists db filename camera_id timeofday now)
     = Some day_row /\
     snd (addStarTrail path_exists db filename camera_id timeofday now)
     = Some day_row).
Proof.
  intros Hf He Hw. cbn zeta.
  pose proof (dayDate_night_window D now Hw) as Hd.
  unfold addVideo, addKeogram, addStarTrail, addImage, media_entry.
  rewrite Hf, He. cbn [negb snd String.eqb Ascii.eqb Bool.eqb andb].
  rewrite Hd.
  split; [reflexivity|]. split; [reflexivity|]. split; [reflexivity|].
  split.
  - intros Hn. eexists. split; [reflexivity|].
    cbn [img_dayDate img_night].
    destruct (Z.eqb_spec (arg_night args) 0); [contradiction|].
    cbn [negb]. auto.
  - intros timeofday Ht.
    destruct (String.eqb_spec timeofday "night"); [contradiction|].
    cbn [dayDate]. auto.
Qed.

Lemma py_int_floor (x : Q) :
  (0 <= x)%Q ->
  (inject_Z (py_int x) <= x)%Q /\ (x < inject_Z (py_int x) + 1)%Q.
Proof.
  destruct x as [n d]. unfold py_int, Qle, Qlt, Qplus, inject_Z.
  cbn [Qnum Qden]. intros Hn. rewrite Z.mul_1_r in Hn.
  rewrite Z.quot_div_nonneg by lia.
  pose proof (Z.mul_div_le n (Z.pos d) ltac:(lia)).
  pose proof (Z.mul_succ_div_gt n (Z.pos d) ltac:(lia)).
  cbn [Pos.mul]. split; nia.
Qed.

(** X22: [addDarkFrame] stores whole seconds.  The exposure of the row it
    appends is the exposure given with its fraction cut off, so a dark
    frame of less than a second is recorded with exposure 0; its
    temperature follows the same rule as for images (0 becomes NULL). *)
Theorem addDarkFrame_truncates_exposure (db : session)
  (filename : py_filename) (camera_id bitdepth : Z) (exposure : Q)
  (gain binmode : Z) (temp : option Q) :
  filename_not filename = false ->
  path_exists (filename_str filename) = true ->
  (0 <= exposure)%Q ->
  exists row,
    addDarkFrame path_exists db filename camera_id bitdepth exposure gain
      binmode temp
    = (mkSession (cameras db) (images db) (darkframes db ++ [row])
         (videos db) (keograms db) (startrails db),
       Some row) /\
    (inject_Z (dark_exposure row) <= exposure)%Q /\
    (exposure < inject_Z (dark_exposure row) + 1)%Q /\
    ((exposure < 1)%Q -> dark_exposure row = 0) /\
    dark_temp row = temp_val temp.
Proof.
  intros Hf He Hpos. unfold addDarkFrame. rewrite Hf, He. cbn [negb].
  eexists. split; [reflexivity|]. cbn [dark_exposure dark_temp].
  destruct (py_int_floor exposure Hpos) as [Hlo Hhi].
  repeat split; try assumption.
  intros Hlt.
  assert (H1 : (inject_Z (py_int exposure) < 1)%Q)
    by (eapply Qle_lt_trans; eassumption).
  assert (H0 : (0 < inject_Z (py_int exposure) + 1)%Q)
    by (eapply Qle_lt_trans; eassumption).
  unfold Qlt, Qplus, inject_Z in H0, H1. cbn in H0, H1. lia.
Qed.

End IndiAllSkyDbProperties.

(** ** Further concrete instances *)

Lemma dark_twenty_consistent : consistent dark_twenty.
Proof. apply consistentb_sound. reflexivity. Qed.

Lemma tuned_consistent : consistent tuned.
Proof. apply consistentb_sound. reflexivity. Qed.

Lemma example_dir_uniform (p : file) (a : image) :
  In p (files_under example_dir) -> imread p = Some a ->
  wf_image a /\ height a = 2%nat /\ width a = 2%nat /\ ndim3 a = false.
Proof.
  cbn. intros [<- | [<- | [<- | [<- | [<- | []]]]]]; cbn; intros E;
    inversion E; subst a; (split; [apply wf_imageb_sound|]); auto.
Qed.

Lemma frame_bytes_length :
  Z.of_nat (length frame_bytes) = 2 * (1080 * 1920).
Proof.
  unfold frame_bytes.
  assert (H : forall n a,
             length (flat_map (fun _ : nat => [Byte.x12; Byte.x05]) (seq a n))
             = (2 * n)%nat).
  { induction n as [|n IH]; intros a; [reflexivity|].
    cbn [seq flat_map app length]. rewrite IH. lia. }
  rewrite H, Nat2Z.inj_mul, Z2Nat.id; lia.
Qed.

Lemma example_db_unique : NoDup (map cam_name (cameras example_db)).
Proof.
  cbn. constructor; [intros [H | []]; discriminate|].
  constructor; [intros [] | constructor].
Qed.

Lemma trail_shape_fixed_witness :
  exists t',
    trail_image (feed opencv_bgr2gray after_one [frame_b; frame_wide])
    = Some t' /\
    height t' = 2%nat /\ width t' = 2%nat /\ ndim3 t' = false.
Proof.
  destruct (trail_shape_fixed opencv_bgr2gray after_one [frame_b; frame_wide])
    as [H _].
  exact (H _ eq_refl).
Defined.

Lemma pixel_cutoff_derived_once_witness :
  feed opencv_bgr2gray (set_pixel_cutoff_threshold after_one float_0_1)
    [frame_b; frame_busy]
  = set_pixel_cutoff_threshold
      (feed opencv_bgr2gray after_one [frame_b; frame_busy]) float_0_1.
Proof.
  destruct (pixel_cutoff_derived_once opencv_bgr2gray after_one
              (mkImage 2 2 false [[30]; [0]; [0]; [0]])
              [frame_b; frame_busy] float_0_1 eq_refl)
    as (_ & _ & _ & _ & H).
  exact H.
Defined.

Lemma failed_call_is_not_undone_witness :
  snd (processImage opencv_bgr2gray after_nineteen frame_wide)
  = Raise cv2_error /\
  trail_count (fst (processImage opencv_bgr2gray after_nineteen frame_wide))
  = 20%nat /\
  finalize opencv_bgr2gray
    (fst (processImage opencv_bgr2gray after_nineteen frame_wide))
  = Raise cv2_error.
Proof.
  destruct (failed_call_is_not_undone opencv_bgr2gray after_nineteen
              (mkImage 2 2 false [[30]; [0]; [0]; [0]]) frame_wide
              (wf_imageb_sound frame_wide eq_refl)
              eq_refl eq_refl eq_refl)
    as (Herr & Hcount & _ & _ & Hbg).
  split; [exact Herr|]. split; [exact Hcount|].
  destruct (Hbg eq_refl) as [_ Hfin]. apply Hfin. cbn. lia.
Defined.

Lemma trail_pixels_come_from_frames_witness :
  exists t',
    trail_image (feed opencv_bgr2gray tuned [frame_a; frame_b]) = Some t' /\
    forall i, (i < 4)%nat ->
      nth i (pixels t') [] = [0] \/
      exists f, In f [frame_a; frame_b] /\
                nth i (pixels t') [] = nth i (pixels f) [].
Proof.
  destruct (trail_pixels_come_from_frames opencv_bgr2gray tuned frame_a
              [frame_b] tuned_consistent I)
    as (t0 & t' & _ & Hz & _ & Ht' & Hpx).
  { constructor; [split; [apply wf_imageb_sound|]; reflexivity|].
    constructor; [split; [apply wf_imageb_sound|]; reflexivity|].
    constructor. }
  exists t'. split; [exact Ht'|]. intros i Hi.
  destruct (Hpx i Hi) as [E | (f & Hin & _ & E)].
  - left. rewrite E, (Hz eq_refl).
    destruct i as [|[|[|[|i]]]]; try reflexivity. lia.
  - right. exists f. auto.
Defined.

Lemma background_is_lowest_witness :
  float_lt (cv2_mean0 frame_b)
    (background_image_brightness
       (feed opencv_bgr2gray tuned [frame_a; frame_b])) = false.
Proof.
  destruct (background_is_lowest opencv_bgr2gray tuned frame_a [frame_b])
    as [_ H].
  apply (H frame_b); [right; now left | reflexivity | reflexivity].
Defined.

Lemma finalize_without_trail_witness :
  background_image dark_twenty = Some frame_a.
Proof.
  apply (finalize_without_trail opencv_bgr2gray dark_twenty
           (mkImage 2 2 false [[0]; [0]; [0]; [0]]) frame_a
           dark_twenty_consistent eq_refl).
  - intros g Hg. cbn in Hg.
    destruct Hg as [<- | [<- | [<- | [<- | []]]]]; cbn; lia.
  - reflexivity.
Defined.

Lemma twenty_dir_uniform (p : file) (a : image) :
  In p (files_under twenty_dir) -> imread p = Some a ->
  wf_image a /\ height a = 2%nat /\ width a = 2%nat /\ ndim3 a = false.
Proof.
  unfold twenty_dir, files_under. rewrite flat_map_concat_map, map_map.
  cbn [files_of]. rewrite <- flat_map_concat_map. intros Hin.
  apply in_flat_map in Hin. destruct Hin as (i & _ & [<- | []]).
  cbn [imread]. intros E. inversion E. subst a.
  split; [apply wf_imageb_sound|]; auto.
Qed.

Lemma files_read_in_time_order_witness :
  files_read opencv_bgr2gray tuned (file_list_ordered example_dir)
  = file_list_ordered example_dir /\
  map f_path (file_list_ordered example_dir)
  = ["in/sub/b.jpg"%string; "in/c.jpg"%string; "in/a.jpg"%string].
Proof.
  destruct (files_read_in_time_order opencv_bgr2gray tuned example_dir)
    as (_ & _ & H & _).
  split; [apply H|]; reflexivity.
Defined.

(** Twenty frames of one shape: the composite exists, and an output name
    for which OpenCV has no encoder makes [main] raise; few frames end
    without output whatever the name. *)
Lemma main_on_uniform_frames_witness :
  snd (main opencv_bgr2gray (String.eqb "trail.jpg") tuned "trail"
         twenty_dir)
  = Raise cv2_error /\
  snd (main opencv_bgr2gray (String.eqb "trail.jpg") tuned "trail.jpg"
         twenty_dir)
  = Ok (Some frame_a) /\
  snd (main opencv_bgr2gray (String.eqb "trail.jpg") tuned "trail"
         example_dir)
  = Ok None.
Proof.
  split; [|split].
  - destruct (main_on_uniform_frames opencv_bgr2gray (String.eqb "trail.jpg")
                tuned "trail" twenty_dir 2 2 false
                tuned_consistent eq_refl twenty_dir_uniform)
      as (_ & _ & [(out & _ & H) | [H _]]).
    + exact H.
    + vm_compute in H. discriminate.
  - destruct (main_on_uniform_frames opencv_bgr2gray (String.eqb "trail.jpg")
                tuned "trail.jpg" twenty_dir 2 2 false
                tuned_consistent eq_refl twenty_dir_uniform)
      as (_ & _ & [(out & Hf & H) | [H _]]).
    + vm_compute in Hf. inversion Hf. subst out. exact H.
    + vm_compute in H. discriminate.
  - destruct (main_on_uniform_frames opencv_bgr2gray (String.eqb "trail.jpg")
                tuned "trail" example_dir 2 2 false
                tuned_consistent eq_refl example_dir_uniform)
      as (_ & _ & [(out & Hf & _) | [H _]]).
    + vm_compute in Hf. discriminate.
    + exact H.
Defined.

Lemma main_needs_twenty_files_witness :
  snd (main opencv_bgr2gray (fun _ => true) tuned "trail.jpg" example_dir)
  <> Ok (Some frame_a).
Proof.
  apply (main_needs_twenty_files opencv_bgr2gray (fun _ => true) tuned
           "trail.jpg" example_dir).
  cbn. lia.
Defined.

Lemma bayer_conversion_needs_full_frame_witness :
  _convert_GRBG_to_RGB_8bit (fun _ a => a) [Byte.x12; Byte.x05; Byte.x34]
  = Raises ValueError.
Proof.
  destruct (bayer_conversion_needs_full_frame (fun _ a => a)
              [Byte.x12; Byte.x05; Byte.x34]) as [H _].
  apply H. cbn [length]. lia.
Defined.

Lemma bayer8_keeps_bits_4_to_11_witness :
  let lo := nth (2 * 0) (numpy_frombuffer frame_bytes) 0 in
  let hi := nth (2 * 0 + 1) (numpy_frombuffer frame_bytes) 0 in
  exists bayer8,
    bayer8_image frame_bytes = Returns bayer8 /\
    nth 0 (pixels bayer8) [] = [((lo + 256 * hi) / 16) mod 256] /\
    (hi < 16 -> nth 0 (pixels bayer8) [] = [(lo + 256 * hi) / 16]).
Proof.
  apply (bayer8_keeps_bits_4_to_11 frame_bytes 0 frame_bytes_length).
  cbn. lia.
Defined.

Lemma white_balance2_black_channel_witness :
  white_balance2 (fun _ v => v) frame_no_green = Raises ZeroDivisionError.
Proof.
  destruct (white_balance2_black_channel (fun _ v => v) frame_no_green
              (wf_imageb_sound frame_no_green eq_refl)) as [H _].
  apply (H eq_refl). exists 1%nat. split; [lia|].
  intros p Hp. cbn in Hp. destruct Hp as [<- | [<- | []]]; reflexivity.
Defined.

Lemma addCamera_upserts_witness :
  exists camera,
    snd (addCamera next_camera_id example_db "cam1" 200) = Returns camera /\
    cam_name camera = "cam1"%string /\ cam_connectDate camera = 200 /\
    length (cameras (fst (addCamera next_camera_id example_db "cam1" 200)))
    = 2%nat.
Proof.
  destruct (addCamera_upserts next_camera_id example_db "cam1" 200
              example_db_unique)
    as (camera & Hr & Hn & Hd & _ & _ & Hold & _).
  exists camera. split; [exact Hr|]. split; [exact Hn|]. split; [exact Hd|].
  destruct Hold as [Hlen _]; [cbn; auto | exact Hlen].
Defined.

Lemma getCurrentCameraId_cases_witness :
  getCurrentCameraId None (mkSession [] [] [] [] [] [])
  = Raises NoneAttributeError /\
  getCurrentCameraId (Some 7) example_db = Returns 7.
Proof.
  split.
  - destruct (getCurrentCameraId_cases (mkSession [] [] [] [] [] []))
      as (_ & _ & H & _).
    exact (H eq_refl).
  - destruct (getCurrentCameraId_cases example_db) as (H & _).
    apply H. discriminate.
Defined.

Lemma added_camera_is_current_witness :
  exists camera,
    snd (addCamera next_camera_id example_db "cam0" 200) = Returns camera /\
    getCurrentCameraId None
      (fst (addCamera next_camera_id example_db "cam0" 200))
    = Returns (cam_id camera).
Proof.
  apply (added_camera_is_current next_camera_id example_db "cam0" 200
           example_db_unique).
  intros c Hc. cbn in Hc. destruct Hc as [<- | [<- | []]]; reflexivity.
Defined.

Lemma night_entries_share_day_witness :
  snd (addStarTrail (fun _ => true) example_db (FilenameStr "trail.jpg") 1
         "night" (4 * microseconds_per_day + timedelta_hours 3))
  = Some (mkMedia 1 "trail.jpg" 3 true).
Proof.
  destruct (night_entries_share_day (fun _ => true) example_db
              (FilenameStr "trail.jpg") 1 example_args 3
              (4 * microseconds_per_day + timedelta_hours 3)
              eq_refl eq_refl) as (_ & _ & H & _).
  - unfold microseconds_per_day, timedelta_hours. lia.
  - exact H.
Defined.

Lemma addDarkFrame_truncates_exposure_witness :
  exists row,
    snd (addDarkFrame (fun _ => true) example_db (FilenameStr "d.fit") 1 16
           (1 # 2) 100 1 None) = Some row /\
    dark_exposure row = 0.
Proof.
  destruct (addDarkFrame_truncates_exposure (fun _ => true) example_db
              (FilenameStr "d.fit") 1 16 (1 # 2) 100 1 None eq_refl eq_refl)
    as (row & Hadd & _ & _ & Hzero & _).
  - unfold Qle. cbn. lia.
  - exists row. split; [now rewrite Hadd|]. apply Hzero. reflexivity.
Defined.
